(** * vk_denoise_nrd: path tracer / NRD denoiser integration

    A shallow embedding of the ray-generation driver ([nrd.rgen]), the
    path-trace hit and miss shaders ([pathtrace.rchit], [pathtrace.rmiss],
    [nrd.rchit], [nrd.rmiss]), the compositing compute shader and the Vulkan
    wrapper of the denoiser ([NRDWrapper]).

    Shader [float] values are modelled by exact rationals ([Q]): rounding,
    overflow and NaN are outside the model.  Functions of the nvpro_core
    and NRD shader libraries that the repository only includes (BSDF
    sampling, material evaluation, environment lookup, the NRD packing
    functions, [sqrt]) are the fields of the classes [ShaderLib] and
    [Scene], over which the shader models are stated. *)

From Stdlib Require Import QArith Qabs Qminmax Lqa ZArith Lia List Bool.
From Stdlib Require Import Qround Permutation.
Import ListNotations.

Open Scope Q_scope.

(** ** GLSL vector and matrix values *)

Module Glsl.

Record vec2 := Vec2 { x2 : Q; y2 : Q }.
Record vec3 := Vec3 { vx : Q; vy : Q; vz : Q }.
Record vec4 := Vec4 { wx : Q; wy : Q; wz : Q; ww : Q }.

(** A [mat3] is stored by columns, as the GLSL constructor takes them. *)
Record mat3 := Mat3 { col0 : vec3; col1 : vec3; col2 : vec3 }.

Definition splat3 (s : Q) : vec3 := Vec3 s s s.
Definition splat4 (s : Q) : vec4 := Vec4 s s s s.
Definition vec4_of (v : vec3) (w : Q) : vec4 := Vec4 (vx v) (vy v) (vz v) w.
Definition rgb (v : vec4) : vec3 := Vec3 (wx v) (wy v) (wz v).

Definition vadd (a b : vec3) : vec3 := Vec3 (vx a + vx b) (vy a + vy b) (vz a + vz b).
Definition vsub (a b : vec3) : vec3 := Vec3 (vx a - vx b) (vy a - vy b) (vz a - vz b).
Definition vmul (a b : vec3) : vec3 := Vec3 (vx a * vx b) (vy a * vy b) (vz a * vz b).
Definition vdiv (a b : vec3) : vec3 := Vec3 (vx a / vx b) (vy a / vy b) (vz a / vz b).
Definition vneg (a : vec3) : vec3 := Vec3 (- vx a) (- vy a) (- vz a).
Definition sv (s : Q) (a : vec3) : vec3 := Vec3 (s * vx a) (s * vy a) (s * vz a).
Definition vs (a : vec3) (s : Q) : vec3 := Vec3 (vx a * s) (vy a * s) (vz a * s).
Definition vadds (a : vec3) (s : Q) : vec3 := Vec3 (vx a + s) (vy a + s) (vz a + s).
Definition dot (a b : vec3) : Q := vx a * vx b + vy a * vy b + vz a * vz b.

(** [reflect(I, N) = I - 2 * dot(N, I) * N] *)
Definition reflect (i n : vec3) : vec3 := vsub i (sv (2 * dot n i) n).

Definition saturate (s : Q) : Q := Qmin (Qmax s 0) 1.
Definition saturate3 (a : vec3) : vec3 :=
  Vec3 (saturate (vx a)) (saturate (vy a)) (saturate (vz a)).

(** [mix(a, b, t) = a * (1 - t) + b * t] *)
Definition mix3 (a b : vec3) (t : Q) : vec3 := vadd (vs a (1 - t)) (vs b t).

Definition Qltb (a b : Q) : bool := negb (Qle_bool b a).

Definition mat3_identity : mat3 := Mat3 (Vec3 1 0 0) (Vec3 0 1 0) (Vec3 0 0 1).

(** matrix * vector: the linear combination of the columns *)
Definition mulMV (m : mat3) (v : vec3) : vec3 :=
  vadd (vadd (sv (vx v) (col0 m)) (sv (vy v) (col1 m))) (sv (vz v) (col2 m)).

(** matrix * matrix: the left factor applied to each column of the right one *)
Definition mulMM (a b : mat3) : mat3 :=
  Mat3 (mulMV a (col0 b)) (mulMV a (col1 b)) (mulMV a (col2 b)).

Definition transpose (m : mat3) : mat3 :=
  Mat3 (Vec3 (vx (col0 m)) (vx (col1 m)) (vx (col2 m)))
       (Vec3 (vy (col0 m)) (vy (col1 m)) (vy (col2 m)))
       (Vec3 (vz (col0 m)) (vz (col1 m)) (vz (col2 m))).

(** Equality of values up to the equality of rationals. *)
Definition veq (a b : vec3) : Prop := vx a == vx b /\ vy a == vy b /\ vz a == vz b.
Definition meq (a b : mat3) : Prop :=
  veq (col0 a) (col0 b) /\ veq (col1 a) (col1 b) /\ veq (col2 a) (col2 b).

End Glsl.

Import Glsl.

(** ** ray_common.glsl *)

Module RayCommon.

Record HitPayload := mkHitPayload {
  seed : N;
  hitT : Q;
  contrib : vec3;
  weight : vec3;
  rayOrigin : vec3;
  rayDirection : vec3;
  bsdfPDF : Q
}.

Record HitPayloadNrd := mkHitPayloadNrd {
  renderNodeIndex : N;
  renderPrimIndex : N;
  nrdHitT : Q;
  tangent : vec3;
  normal_envmapRadiance : vec3;
  uv : vec2;
  bitangentSign : Q
}.

Definition buildMirrorMatrix (normal : vec3) : mat3 :=
  Mat3 (vadd (sv (-2) (vmul (splat3 (vx normal)) normal)) (Vec3 1 0 0))
       (vadd (sv (-2) (vmul (splat3 (vy normal)) normal)) (Vec3 0 1 0))
       (vadd (sv (-2) (vmul (splat3 (vz normal)) normal)) (Vec3 0 0 1)).

End RayCommon.

(** ** pathtrace.rmiss: the MIS weight *)

Module PathtraceMiss.

Definition powerHeuristic (a b : Q) : Q :=
  let t := a * a in
  t / (b * b + t).

End PathtraceMiss.

(** ** nrd.glsl: the helpers taken over from NRD's STL *)

Module NrdGlsl.

Import PathtraceMiss.

Record mat2 := Mat2 { m2col0 : vec2; m2col1 : vec2 }.

Definition dot2 (a b : vec2) : Q := x2 a * x2 b + y2 a * y2 b.

(** GLSL [m * v] and [v * m] on 2x2 and 3x3 matrices. *)
Definition mulM2V (m : mat2) (v : vec2) : vec2 :=
  Vec2 (x2 v * x2 (m2col0 m) + y2 v * x2 (m2col1 m))
       (x2 v * y2 (m2col0 m) + y2 v * y2 (m2col1 m)).
Definition mulVM2 (m : mat2) (v : vec2) : vec2 :=
  Vec2 (dot2 v (m2col0 m)) (dot2 v (m2col1 m)).
Definition mulVM (m : mat3) (v : vec3) : vec3 :=
  Vec3 (dot v (col0 m)) (dot v (col1 m)) (dot v (col2 m)).

Definition STL_RF0_DIELECTRICS : Q := 0.04.
Definition FLT_MIN : Q := 1e-15.

Definition PositiveRcp (x : Q) : Q := 1 / Qmax x FLT_MIN.

Section EnvironmentTerm.

(** [mul] is a macro of the NRD headers, which are not part of the
    repository: the two products it is applied to are parameters. *)
Variable mul2 : mat2 -> vec2 -> vec2.
Variable mul3 : mat3 -> vec3 -> vec3.

Definition EnvironmentTerm_Rtg (Rf0 : vec3) (NoV linearRoughness : Q) : vec3 :=
  let m := saturate (linearRoughness * linearRoughness) in
  let Xx := 1 in
  let Xy := NoV in
  let Xz := NoV * NoV in
  let Xw := NoV * Xz in
  let Yx := 1 in
  let Yy := m in
  let Yz := m * m in
  let Yw := m * Yz in
  let M1 := Mat2 (Vec2 0.99044 (-1.28514)) (Vec2 1.29678 (-0.755907)) in
  let M2 := Mat3 (Vec3 1.0 2.92338 59.4188) (Vec3 20.3225 (-27.0302) 222.592)
                 (Vec3 121.563 626.13 316.627) in
  let M3 := Mat2 (Vec2 0.0365463 3.32707) (Vec2 9.0632 (-9.04756)) in
  let M4 := Mat3 (Vec3 1.0 3.59685 (-1.36772)) (Vec3 9.04401 (-16.3174) 9.22949)
                 (Vec3 5.56589 19.7886 (-20.2123)) in
  let bias := dot2 (mul2 M1 (Vec2 Xx Xy)) (Vec2 Yx Yy)
              * PositiveRcp (dot (mul3 M2 (Vec3 Xx Xy Xw)) (Vec3 Yx Yy Yw)) in
  let scale := dot2 (mul2 M3 (Vec2 Xx Xy)) (Vec2 Yx Yy)
               * PositiveRcp (dot (mul3 M4 (Vec3 Xx Xz Xw)) (Vec3 Yx Yy Yw)) in
  saturate3 (vadds (vs Rf0 scale) bias).

End EnvironmentTerm.

(** Returns the pair [(albedo, Rf0)] of the two [out] parameters. *)
Definition ConvertBaseColorMetalnessToAlbedoRf0 (baseColor : vec3) (metalness : Q)
  : vec3 * vec3 :=
  let albedo := vs baseColor (saturate (1.0 - metalness)) in
  let Rf0 := mix3 (splat3 STL_RF0_DIELECTRICS) baseColor metalness in
  (albedo, Rf0).

End NrdGlsl.

(** ** host_device.h *)

Module HostDevice.

Definition NB_LIGHTS : N := 0.
Definition NRD_RELAX : Z := 0.
Definition NRD_REBLUR : Z := 1.
Definition NRD_REFERENCE : Z := 2.

Record mat4 := Mat4 { c4_0 : vec4; c4_1 : vec4; c4_2 : vec4; c4_3 : vec4 }.

Definition v4add (a b : vec4) : vec4 :=
  Vec4 (wx a + wx b) (wy a + wy b) (wz a + wz b) (ww a + ww b).
Definition sv4 (s : Q) (a : vec4) : vec4 := Vec4 (s * wx a) (s * wy a) (s * wz a) (s * ww a).

Definition mulM4V (m : mat4) (v : vec4) : vec4 :=
  v4add (v4add (v4add (sv4 (wx v) (c4_0 m)) (sv4 (wy v) (c4_1 m))) (sv4 (wz v) (c4_2 m)))
        (sv4 (ww v) (c4_3 m)).

(** [mat3(m)]: the upper-left 3x3 block *)
Definition mat3_of (m : mat4) : mat3 := Mat3 (rgb (c4_0 m)) (rgb (c4_1 m)) (rgb (c4_2 m)).

Record FrameInfo := mkFrameInfo {
  view : mat4;
  proj : mat4;
  viewInv : mat4;
  projInv : mat4;
  clearColor : vec4;
  jitter : vec2;
  envRotation : Q
}.

Record RtxPushConstant := mkRtxPushConstant {
  frame : Z;
  maxLuminance : Q;
  maxDepth : N;
  method : Z;
  meterToUnitsMultiplier : Q;
  overrideRoughness : Q;
  overrideMetallic : Q;
  mouseCoord : Z * Z
}.

End HostDevice.

(** ** What the shaders take from the included libraries and from the scene *)

Module Shading.

Import RayCommon HostDevice.

(** The fields of nvpro_core's [PbrMaterial] that the shaders touch. *)
Record PbrMaterial := mkPbrMaterial {
  baseColor : vec3;
  roughness : vec2;
  metallic : Q;
  emissive : vec3;
  matN : vec3;
  matNg : vec3;
  specularColor : vec3
}.

Record HitState := mkHitState {
  pos : vec3;
  nrm : vec3;
  geonrm : vec3;
  hsUv : vec2;
  hsTangent : vec3;
  bitangent : vec3;
  hsBitangentSign : Q
}.

Inductive BsdfEvent := BSDF_EVENT_ABSORB | BSDF_EVENT_SCATTER (flags : Z).

Definition isAbsorb (e : BsdfEvent) : bool :=
  match e with BSDF_EVENT_ABSORB => true | BSDF_EVENT_SCATTER _ => false end.

(** The output fields of [BsdfSampleData] and [BsdfEvaluateData]; the input
    fields ([k1], [k2], [xi]) are arguments of the library functions. *)
Record BsdfSampleData := mkBsdfSampleData {
  s_k2 : vec3;
  s_pdf : Q;
  bsdf_over_pdf : vec3;
  event_type : BsdfEvent
}.

Record BsdfEvaluateData := mkBsdfEvaluateData {
  bsdf_diffuse : vec3;
  bsdf_glossy : vec3;
  e_pdf : Q
}.

Record RayFlags := mkRayFlags {
  terminateOnFirstHit : bool;
  skipClosestHitShader : bool;
  cullBackFacingTriangles : bool
}.

(** What the ray-tracing pipeline hands to a closest-hit shader, with the
    result of [GetHitState] on the primitive that was hit. *)
Record Intersection := mkIntersection {
  gl_HitTEXT : Q;
  gl_InstanceID : N;
  gl_InstanceCustomIndexEXT : N;
  hitGeometry : HitState
}.

(** Functions and constants of nvpro_core and of NRD. *)
Class ShaderLib := {
  NRD_INF : Q;
  MICROFACET_MIN_ROUGHNESS : Q;
  rand : N -> Q * N;
  xxhash32 : N -> N -> Z -> N;
  fsqrt : Q -> Q;
  normalize : vec3 -> vec3;
  rotate : vec3 -> vec3 -> Q -> vec3;
  getSphericalUv : vec3 -> vec2;
  offsetRay : vec3 -> vec3 -> vec3;
  toSrgb : vec3 -> vec3;
  toLinear : vec3 -> vec3;
  bsdfSample : vec3 -> vec3 -> PbrMaterial -> BsdfSampleData;
  brdf_diffuse_sample : vec3 -> vec3 -> PbrMaterial -> vec3 -> BsdfSampleData;
  bsdfEvaluate : vec3 -> vec3 -> vec3 -> PbrMaterial -> BsdfEvaluateData;
  diffuseLobeWeight : PbrMaterial -> Q -> vec3 -> Q;
  mul2 : NrdGlsl.mat2 -> vec2 -> vec2;
  mul3 : mat3 -> vec3 -> vec3;
  NRD_FrontEnd_PackNormalAndRoughness : vec3 -> Q -> Q -> vec4;
  NRD_FrontEnd_UnpackNormalAndRoughness : vec4 -> vec4;
  REBLUR_FrontEnd_GetNormHitDist : Q -> Q -> vec4 -> Q -> Q;
  REBLUR_FrontEnd_PackRadianceAndNormHitDist : vec3 -> Q -> bool -> vec4;
  RELAX_FrontEnd_PackRadianceAndHitDist : vec3 -> Q -> bool -> vec4;
  REBLUR_BackEnd_UnpackRadianceAndNormHitDist : vec4 -> vec4;
  RELAX_BackEnd_UnpackRadiance : vec4 -> vec4
}.

(** The scene: acceleration structure, materials and environment map. *)
Class Scene := {
  GltfShadeMaterial : Type;
  intersect : RayFlags -> vec3 -> Q -> vec3 -> Q -> option Intersection;
  materialOf : N -> GltfShadeMaterial;
  evaluateMaterial : GltfShadeMaterial -> vec3 -> vec3 -> vec3 -> vec2 -> PbrMaterial;
  hdrTexture : vec2 -> vec4;
  environmentSample : vec3 -> vec4 * vec3
}.

(** The images of descriptor set 2 the ray-generation shader stores into. *)
Inductive Image :=
  | nrdDirectLighting | nrdObjectMotion | nrdNormalRoughness | nrdViewZ
  | nrdUDiff | nrdUSpec | nrdBaseColorMetalness.

(** One [traceRayEXT] call: the payload location and the ray. *)
Record RayCall := mkRayCall {
  rcPayload : N;
  rcFlags : RayFlags;
  rcOrigin : vec3;
  rcTmin : Q;
  rcDirection : vec3;
  rcTmax : Q
}.

(** The state of one shader invocation: the two ray payloads, and, in
    program order, the image stores and the rays traced so far. *)
Record ShaderState := mkShaderState {
  payload : HitPayload;
  payloadNrd : HitPayloadNrd;
  stores : list (Image * vec4);
  rays : list RayCall
}.

Definition M (A : Type) : Type := ShaderState -> A * ShaderState.

Definition ret {A} (a : A) : M A := fun s => (a, s).
Definition bind {A B} (c : M A) (k : A -> M B) : M B :=
  fun s => let (a, s') := c s in k a s'.

Definition getPayload : M HitPayload := fun s => (payload s, s).
Definition setPayload (p : HitPayload) : M unit :=
  fun s => (tt, mkShaderState p (payloadNrd s) (stores s) (rays s)).
Definition getPayloadNrd : M HitPayloadNrd := fun s => (payloadNrd s, s).
Definition setPayloadNrd (p : HitPayloadNrd) : M unit :=
  fun s => (tt, mkShaderState (payload s) p (stores s) (rays s)).
Definition imageStore (img : Image) (v : vec4) : M unit :=
  fun s => (tt, mkShaderState (payload s) (payloadNrd s) (stores s ++ [(img, v)]) (rays s)).
Definition logRay (r : RayCall) : M unit :=
  fun s => (tt, mkShaderState (payload s) (payloadNrd s) (stores s) (rays s ++ [r])).

Definition set_hitT (t : Q) (p : HitPayload) : HitPayload :=
  mkHitPayload (seed p) t (contrib p) (weight p) (rayOrigin p) (rayDirection p) (bsdfPDF p).
Definition set_seed (sd : N) (p : HitPayload) : HitPayload :=
  mkHitPayload sd (hitT p) (contrib p) (weight p) (rayOrigin p) (rayDirection p) (bsdfPDF p).
Definition set_contrib (c : vec3) (p : HitPayload) : HitPayload :=
  mkHitPayload (seed p) (hitT p) c (weight p) (rayOrigin p) (rayDirection p) (bsdfPDF p).

End Shading.

Declare Scope shader_scope.
Delimit Scope shader_scope with shader.
Notation "x <- c ;; k" := (Shading.bind c (fun x => k))
  (at level 61, c at next level, right associativity) : shader_scope.
Notation "c ;; k" := (Shading.bind c (fun _ => k))
  (at level 61, right associativity) : shader_scope.

(** ** pathtrace.rmiss, nrd.rmiss, nrd.rchit, pathtrace.rchit *)

Module Shaders.

Import RayCommon HostDevice Shading PathtraceMiss.
Local Open Scope shader_scope.

Definition PAYLOAD_NRD : N := 1.
Definition PAYLOAD_PATHTRACE : N := 0.
Definition SBTOFFSET_NRD : N := 1.
Definition SBTOFFSET_PATHTRACE : N := 0.
Definition MISSINDEX_NRD : N := 1.
Definition MISSINDEX_PATHTRACE : N := 0.

Definition vdivs (a : vec3) (s : Q) : vec3 := Vec3 (vx a / s) (vy a / s) (vz a / s).
Definition clamp (v lo hi : Q) : Q := Qmin (Qmax v lo) hi.

Record ShadingResult := mkShadingResult {
  r_weight : vec3;
  r_contrib : vec3;
  r_rayOrigin : vec3;
  r_rayDirection : vec3;
  r_bsdfPDF : Q
}.

(** The contents of the locals that the shaders declare without an
    initialiser. *)
Record Uninitialized := mkUninitialized {
  u_shading : ShadingResult;
  u_pbrMat : PbrMaterial;
  u_hitState : HitState
}.

Section WithScene.

Context {lib : ShaderLib} {scene : Scene}.
Variable frameInfo : FrameInfo.
Variable pc : RtxPushConstant.
Variable uninit : Uninitialized.

(** [vec3(rand(seed), rand(seed), rand(seed))] *)
Definition rand3 (sd : N) : vec3 * N :=
  let (a, s1) := rand sd in
  let (b, s2) := rand s1 in
  let (c, s3) := rand s2 in
  (Vec3 a b c, s3).

(** [rand3] on [payload.seed] *)
Definition rand3_payload : M vec3 :=
  p <- getPayload ;;
  let (xi, sd) := rand3 (seed p) in
  setPayload (set_seed sd p) ;;
  ret xi.

(** *** pathtrace.rmiss *)
Definition pathtrace_rmiss_main (gl_WorldRayDirectionEXT : vec3) : M unit :=
  let dir := rotate gl_WorldRayDirectionEXT (Vec3 0 1 0) (- envRotation frameInfo) in
  let uv := getSphericalUv dir in
  let env := hdrTexture uv in
  p <- getPayload ;;
  let mis_weight := powerHeuristic (bsdfPDF p) (ww env) in
  setPayload (set_contrib (vmul (sv mis_weight (rgb env)) (rgb (clearColor frameInfo))) p) ;;
  p <- getPayload ;;
  setPayload (set_hitT NRD_INF p).

(** *** nrd.rmiss *)
Definition nrd_rmiss_main (gl_WorldRayDirectionEXT : vec3) : M unit :=
  let dir := rotate gl_WorldRayDirectionEXT (Vec3 0 1 0) (- envRotation frameInfo) in
  let uv := getSphericalUv dir in
  let env := rgb (hdrTexture uv) in
  p <- getPayloadNrd ;;
  setPayloadNrd
    (mkHitPayloadNrd (renderNodeIndex p) (renderPrimIndex p) NRD_INF (tangent p)
       (vmul env (rgb (clearColor frameInfo))) (RayCommon.uv p) (bitangentSign p)).

(** *** nrd.rchit *)
Definition nrd_rchit_main (i : Intersection) : M unit :=
  let hit := hitGeometry i in
  setPayloadNrd
    (mkHitPayloadNrd (gl_InstanceID i) (gl_InstanceCustomIndexEXT i) (gl_HitTEXT i)
       (hsTangent hit) (nrm hit) (hsUv hit) (hsBitangentSign hit)).

(** *** traceRayEXT

    The ray is logged; on an intersection the closest-hit shader of the
    record offset runs unless the flags skip it, otherwise the miss shader
    of the miss index runs. *)
Definition traceRayEXT (closestHit : N -> Intersection -> vec3 -> M unit)
    (flags : RayFlags) (sbtRecordOffset missIndex : N)
    (origin : vec3) (tmin : Q) (direction : vec3) (tmax : Q) (payloadLoc : N) : M unit :=
  logRay (mkRayCall payloadLoc flags origin tmin direction tmax) ;;
  match intersect flags origin tmin direction tmax with
  | Some i =>
      if skipClosestHitShader flags then ret tt
      else closestHit sbtRecordOffset i direction
  | None =>
      if (missIndex =? MISSINDEX_NRD)%N then nrd_rmiss_main direction
      else pathtrace_rmiss_main direction
  end.

(** Shadow rays skip the closest-hit shader: no hit shader is reachable. *)
Definition noClosestHit : N -> Intersection -> vec3 -> M unit := fun _ _ _ => ret tt.

Definition shadowRayFlags : RayFlags := mkRayFlags true true true.

(** *** pathtrace.rchit *)

(** Returns [(radiance / lightPdf, dirToLight, lightPdf)] and the new seed. *)
Definition sampleLights (sd : N) : (vec3 * vec3 * Q) * N :=
  let (rand_val, sd') := rand3 sd in
  let (radiance_pdf, dirToLight) := environmentSample rand_val in
  let radiance := rgb radiance_pdf in
  let lightPdf := ww radiance_pdf in
  let dirToLight := rotate dirToLight (Vec3 0 1 0) (envRotation frameInfo) in
  let radiance := vmul radiance (rgb (clearColor frameInfo)) in
  ((vdivs radiance lightPdf, dirToLight, lightPdf), sd').

Definition shading (gl_WorldRayDirectionEXT : vec3) (gl_HitT : Q)
    (pbrMat : PbrMaterial) (hit : HitState) : M ShadingResult :=
  let result := u_shading uninit in
  let result := mkShadingResult (r_weight result) (emissive pbrMat) (r_rayOrigin result)
                  (r_rayDirection result) (r_bsdfPDF result) in
  let contribution := splat3 0 in
  p <- getPayload ;;
  let '((lightRadianceOverPdf, dirToLight, lightPdf), sd) := sampleLights (seed p) in
  setPayload (set_seed sd p) ;;
  let lightValid := Qltb 0 (dot dirToLight (matN pbrMat)) && Qltb 0 lightPdf in
  result <-
    (if lightValid then
       xi <- rand3_payload ;;
       let evalData := bsdfEvaluate (vneg gl_WorldRayDirectionEXT) dirToLight xi pbrMat in
       if Qltb 0 (e_pdf evalData) then
         let misWeight := powerHeuristic lightPdf (e_pdf evalData) in
         let w := vs lightRadianceOverPdf misWeight in
         let contribution :=
           vadd contribution (vmul w (vadd (bsdf_diffuse evalData) (bsdf_glossy evalData))) in
         p <- getPayload ;;
         setPayload (set_hitT 0 p) ;;
         let shadowRayOrigin := offsetRay (pos hit) (geonrm hit) in
         traceRayEXT noClosestHit shadowRayFlags SBTOFFSET_PATHTRACE MISSINDEX_PATHTRACE
           shadowRayOrigin 0.001 dirToLight NRD_INF PAYLOAD_PATHTRACE ;;
         p <- getPayload ;;
         let result :=
           if Qeq_bool (Qabs (hitT p)) NRD_INF
           then mkShadingResult (r_weight result) (vadd (r_contrib result) contribution)
                  (r_rayOrigin result) (r_rayDirection result) (r_bsdfPDF result)
           else result in
         setPayload (set_hitT gl_HitT p) ;;
         ret result
       else ret result
     else ret result) ;;
  xi <- rand3_payload ;;
  let sampleData := bsdfSample (vneg gl_WorldRayDirectionEXT) xi pbrMat in
  if isAbsorb (event_type sampleData) then
    p <- getPayload ;;
    setPayload (set_hitT (- hitT p) p) ;;
    ret result
  else
    let rayDirection := s_k2 sampleData in
    let offsetDir := if Qltb 0 (dot rayDirection (matN pbrMat))
                     then geonrm hit else vneg (geonrm hit) in
    ret (mkShadingResult (bsdf_over_pdf sampleData) (r_contrib result)
           (offsetRay (pos hit) offsetDir) rayDirection (s_pdf sampleData)).

(** The material of a hit with the overrides of the push constants;
    [minRoughness] is the lower clamp of the override. *)
Definition overrideMaterial (minRoughness : Q) (pbrMat : PbrMaterial) : PbrMaterial :=
  let pbrMat :=
    if Qltb 0 (overrideRoughness pc) then
      let r := clamp (overrideRoughness pc) minRoughness 1.0 in
      mkPbrMaterial (baseColor pbrMat) (Vec2 (r * r) (r * r)) (metallic pbrMat)
        (emissive pbrMat) (matN pbrMat) (matNg pbrMat) (specularColor pbrMat)
    else pbrMat in
  if Qltb 0 (overrideMetallic pc) then
    mkPbrMaterial (baseColor pbrMat) (roughness pbrMat) (overrideMetallic pc)
      (emissive pbrMat) (matN pbrMat) (matNg pbrMat) (specularColor pbrMat)
  else pbrMat.

(** The material [main] of pathtrace.rchit evaluates at a hit. *)
Definition hitMaterial (i : Intersection) : PbrMaterial :=
  let hit := hitGeometry i in
  let mat := materialOf (gl_InstanceID i) in
  let pbrMat := evaluateMaterial mat (nrm hit) (hsTangent hit) (bitangent hit) (hsUv hit) in
  overrideMaterial 0.001 pbrMat.

Definition pathtrace_rchit_main (i : Intersection) (gl_WorldRayDirectionEXT : vec3) : M unit :=
  let hit := hitGeometry i in
  let pbrMat := hitMaterial i in
  p <- getPayload ;;
  setPayload (set_hitT (gl_HitTEXT i) p) ;;
  result <- shading gl_WorldRayDirectionEXT (gl_HitTEXT i) pbrMat hit ;;
  p <- getPayload ;;
  setPayload (mkHitPayload (seed p) (hitT p) (r_contrib result) (r_weight result)
                (r_rayOrigin result) (r_rayDirection result) (r_bsdfPDF result)).

(** The closest-hit shaders of the shader binding table. *)
Definition closestHitTable (sbtRecordOffset : N) (i : Intersection) (dir : vec3) : M unit :=
  if (sbtRecordOffset =? SBTOFFSET_NRD)%N then nrd_rchit_main i
  else pathtrace_rchit_main i dir.

End WithScene.

End Shaders.

(** ** nrd.rgen *)

Module NrdRgen.

Import RayCommon HostDevice Shading PathtraceMiss Shaders NrdGlsl.
Local Open Scope shader_scope.

Definition MATERIAL_ID_DEFAULT : Q := 0.
Definition MATERIAL_ID_METAL : Q := 1.
Definition MATERIAL_ID_PSR : Q := 2.

Definition USE_SANITIZATION : bool := true.
Definition gDiffHitDistParams : vec4 := Vec4 3.0 0.1 20.0 (-25.0).
Definition gSpecHitDistParams : vec4 := Vec4 3.0 0.1 20.0 (-25.0).

Definition cross (a b : vec3) : vec3 :=
  Vec3 (vy a * vz b - vz a * vy b) (vz a * vx b - vx a * vz b) (vx a * vy b - vy a * vx b).

(** The signal de-modulation of STEP 3.4 and STEP 4.4 *)
Definition demodulate (accum factor : vec3) : vec3 := vdiv accum (vadds (vs factor 0.99) 0.01).

(** "Removing fireflies" *)
Definition removeFireflies (maxLum : Q) (accum : vec3) : vec3 :=
  let lum := dot accum (Vec3 0.212671 0.715160 0.072169) in
  if Qltb maxLum lum then vs accum (maxLum / lum) else accum.

(** The locals of [main] that the PSR loop reads and writes. *)
Record PsrLocals := mkPsrLocals {
  origin : vec3;
  direction : vec3;
  pbrMat : PbrMaterial;
  hitState : HitState;
  hitSky : bool;
  isPsr : bool;
  psrHitDist : Q;
  psrThroughput : vec3;
  psrDirectRadiance : vec3;
  psrMirror : mat3;
  psrDepth : Z
}.

Inductive LoopStep := Break | Continue.

Section WithScene.

Context {lib : ShaderLib} {scene : Scene}.
Variable frameInfo : FrameInfo.
Variable pc : RtxPushConstant.
Variable uninit : Uninitialized.

Definition rayFlags : RayFlags := mkRayFlags false false true.

Definition trace := traceRayEXT frameInfo (closestHitTable frameInfo pc uninit).

(** [DirectLight]: with [NB_LIGHTS] 0 the loop over the lights is compiled out. *)
Definition DirectLight (matEval : PbrMaterial) (hs : HitState) (toEye : vec3) : vec3 :=
  splat3 0.

(** [HdrContrib]: returns [(diffuseRadiance, specularRadiance)]. *)
Definition HdrContrib (mat : PbrMaterial) (startPos toEye : vec3) : M (vec3 * vec3) :=
  randVal <- rand3_payload ;;
  let (radiance_pdf, lightDir) := environmentSample randVal in
  let lightContrib := vmul (rgb radiance_pdf) (rgb (clearColor frameInfo)) in
  let lightPdf := ww radiance_pdf in
  let lightDir := rotate lightDir (Vec3 0 1 0) (envRotation frameInfo) in
  let dotNL := dot lightDir (matN mat) in
  if Qltb 0 dotNL && Qltb 0 lightPdf then
    let bsdfEval := bsdfEvaluate toEye lightDir randVal mat in
    if Qltb 0 (e_pdf bsdfEval) then
      let mis_weight := powerHeuristic lightPdf (e_pdf bsdfEval) in
      let lightRadiance := vdivs (sv mis_weight lightContrib) lightPdf in
      let diffRadiance := vmul (bsdf_diffuse bsdfEval) lightRadiance in
      let specRadiance := vmul (bsdf_glossy bsdfEval) lightRadiance in
      p <- getPayload ;;
      setPayload (set_hitT 0 p) ;;
      trace shadowRayFlags SBTOFFSET_PATHTRACE MISSINDEX_PATHTRACE startPos 0.001 lightDir
        NRD_INF PAYLOAD_PATHTRACE ;;
      p <- getPayload ;;
      if Qeq_bool (Qabs (hitT p)) NRD_INF then ret (diffRadiance, specRadiance)
      else ret (splat3 0, splat3 0)
    else ret (splat3 0, splat3 0)
  else ret (splat3 0, splat3 0).

(** [buildHitInfo]: returns the new [(pbrMat, hitState)]. *)
Definition buildHitInfo (p : HitPayloadNrd) (rayOrigin rayDirection : vec3)
  : PbrMaterial * HitState :=
  let hpos := vadd rayOrigin (sv (nrdHitT p) rayDirection) in
  let hnrm := normal_envmapRadiance p in
  let hs := mkHitState hpos hnrm hnrm (RayCommon.uv p) (tangent p)
              (cross hnrm (tangent p)) (bitangentSign p) in
  let mat := materialOf (renderNodeIndex p) in
  let m := evaluateMaterial mat (nrm hs) (hsTangent hs) (bitangent hs) (hsUv hs) in
  (overrideMaterial pc MICROFACET_MIN_ROUGHNESS m, hs).

(** Did the PSR trace hit anything other than a mirror? *)
Definition notMirror (m : PbrMaterial) : bool :=
  Qltb (MICROFACET_MIN_ROUGHNESS * MICROFACET_MIN_ROUGHNESS + 0.001) (x2 (roughness m))
  || Qltb (metallic m) 1.0.

(** The body of the [do ... while] of STEP 1, up to [++psrDepth]. *)
Definition psrBody (l : PsrLocals) : M (PsrLocals * LoopStep) :=
  p <- getPayloadNrd ;;
  setPayloadNrd (mkHitPayloadNrd (renderNodeIndex p) (renderPrimIndex p) 0 (tangent p)
                   (normal_envmapRadiance p) (RayCommon.uv p) (bitangentSign p)) ;;
  trace rayFlags SBTOFFSET_NRD MISSINDEX_NRD (origin l) 0.01 (direction l) 1e32 PAYLOAD_NRD ;;
  p <- getPayloadNrd ;;
  let sky := Qeq_bool (nrdHitT p) NRD_INF in
  if sky then
    ret (mkPsrLocals (origin l) (direction l) (pbrMat l) (hitState l) sky (isPsr l)
           (psrHitDist l) (psrThroughput l)
           (vadd (psrDirectRadiance l) (vmul (psrThroughput l) (normal_envmapRadiance p)))
           (psrMirror l) (psrDepth l), Break)
  else
    let dist := psrHitDist l + nrdHitT p in
    let (m, hs) := buildHitInfo p (origin l) (direction l) in
    let org := offsetRay (pos hs) (matNg m) in
    if notMirror m then
      ret (mkPsrLocals org (direction l) m hs sky (isPsr l) dist (psrThroughput l)
             (psrDirectRadiance l) (psrMirror l) (psrDepth l), Break)
    else
      let radiance := vadd (psrDirectRadiance l) (vmul (psrThroughput l) (emissive m)) in
      xi <- rand3_payload ;;
      let specBsdfSample := bsdfSample (vneg (direction l)) xi m in
      ret (mkPsrLocals org (reflect (direction l) (matN m)) m hs sky true dist
             (vmul (psrThroughput l) (bsdf_over_pdf specBsdfSample)) radiance
             (mulMM (psrMirror l) (buildMirrorMatrix (matN m))) (psrDepth l), Continue).

Definition incrDepth (l : PsrLocals) : PsrLocals :=
  mkPsrLocals (origin l) (direction l) (pbrMat l) (hitState l) (hitSky l) (isPsr l)
    (psrHitDist l) (psrThroughput l) (psrDirectRadiance l) (psrMirror l) (psrDepth l + 1).

(** [do { body; ++psrDepth; } while(psrDepth < 5)]; [None] when the fuel
    runs out before the loop ends. *)
Fixpoint psrLoop (fuel : nat) (l : PsrLocals) : M (option PsrLocals) :=
  match fuel with
  | O => ret None
  | S fuel' =>
      r <- psrBody l ;;
      match r with
      | (l', Break) => ret (Some l')
      | (l', Continue) =>
          let l'' := incrDepth l' in
          if (psrDepth l'' <? 5)%Z then psrLoop fuel' l'' else ret (Some l'')
      end
  end.

(** The [for(int depth = 1; depth < pc.maxDepth; depth++)] of STEP 3.3 and
    STEP 4.3; the two differ in the value [payload.hitT] is reset to before
    the trace.  Returns the accumulated radiance and the path length. *)
Fixpoint indirectLoop (fuel : nat) (hitTReset : Q) (depth : Z)
    (accum throughput : vec3) (pathLength : Q) : M (option (vec3 * Q)) :=
  match fuel with
  | O => ret None
  | S fuel' =>
      if (depth <? Z.of_N (maxDepth pc))%Z then
        p <- getPayload ;;
        setPayload (set_hitT hitTReset p) ;;
        trace rayFlags SBTOFFSET_PATHTRACE MISSINDEX_PATHTRACE (rayOrigin p) 0.001
          (rayDirection p) NRD_INF PAYLOAD_PATHTRACE ;;
        p <- getPayload ;;
        let accum := vadd accum (vmul (contrib p) throughput) in
        let throughput := vmul throughput (weight p) in
        let pathLength := if (depth =? 1)%Z then Qabs (hitT p) else pathLength in
        if Qltb (hitT p) 0.0 then ret (Some (accum, pathLength))
        else indirectLoop fuel' hitTReset (depth + 1) accum throughput pathLength
      else ret (Some (accum, pathLength))
  end.

(** The part of STEP 3 and STEP 4 that follows the sampling of the lobe:
    the payload is reset, the path is traced and fireflies are removed;
    on an absorption event nothing of it runs. *)
Definition indirectLobe (fuel : nat) (hitTReset : Q) (sample : BsdfSampleData)
    (org accum0 : vec3) (ratio : Q) : M (option (vec3 * Q)) :=
  let pathLength := 0.0 in
  if negb (isAbsorb (event_type sample)) then
    p <- getPayload ;;
    setPayload (mkHitPayload (seed p) NRD_INF (splat3 0.0) (splat3 1.0) org (s_k2 sample)
                  (s_pdf sample)) ;;
    let throughput := vs (bsdf_over_pdf sample) ratio in
    r <- indirectLoop fuel hitTReset 1 accum0 throughput pathLength ;;
    match r with
    | None => ret None
    | Some (accum, pathLength) =>
        ret (Some (removeFireflies (maxLuminance pc) accum, pathLength))
    end
  else ret (Some (accum0, pathLength)).

(** STEP 3.1 - 3.3: the diffuse accumulation and its hit distance. *)
Definition diffuseLobe (fuel : nat) (m : PbrMaterial) (org toEye hdrDiffuseRadiance : vec3)
    (diffuseRatio : Q) : M (option (vec3 * Q)) :=
  xi <- rand3_payload ;;
  let diffBsdfSample := brdf_diffuse_sample toEye xi m (baseColor m) in
  indirectLobe fuel NRD_INF diffBsdfSample org hdrDiffuseRadiance diffuseRatio.

(** STEP 4.1 - 4.3: the specular accumulation and its hit distance. *)
Definition specularLobe (fuel : nat) (m : PbrMaterial) (org toEye hdrSpecularRadiance : vec3)
    (diffuseWeight specularRatio : Q) : M (option (vec3 * Q)) :=
  xi <- rand3_payload ;;
  let xi := Vec3 (vx xi) (vy xi) ((1.0 - diffuseWeight) * vz xi) in
  let specBsdfSample := bsdfSample toEye xi m in
  indirectLobe fuel (- NRD_INF) specBsdfSample org hdrSpecularRadiance specularRatio.

(** STEP 3.5 and STEP 4.5: the packing of the selected denoiser. *)
Definition encode (hitDistParams : vec4) (linearRoughness g_viewZ : Q)
    (accum : vec3) (pathLength : Q) : vec4 :=
  if (method pc =? NRD_REBLUR)%Z then
    let pathLength :=
      REBLUR_FrontEnd_GetNormHitDist pathLength g_viewZ hitDistParams linearRoughness in
    REBLUR_FrontEnd_PackRadianceAndNormHitDist accum pathLength USE_SANITIZATION
  else if (method pc =? NRD_RELAX)%Z then
    RELAX_FrontEnd_PackRadianceAndHitDist accum pathLength USE_SANITIZATION
  else vec4_of accum 1.0.

(** The specular de-modulation factor of STEP 4.4. *)
Definition specularFenv (m : PbrMaterial) (VdotN : Q) : vec3 :=
  let (albedo, Rf0) := ConvertBaseColorMetalnessToAlbedoRf0 (baseColor m) (metallic m) in
  EnvironmentTerm_Rtg mul2 mul3 Rf0 (Qmax VdotN 0.0) (fsqrt (x2 (roughness m))).

(** The ray of one iteration of the PSR loop. *)
Definition primaryRay (l : PsrLocals) : RayCall :=
  mkRayCall PAYLOAD_NRD rayFlags (origin l) 0.01 (direction l) 1e32.

(** How the PSR loop was left, read off its final locals: on the
    background, on a surface that is not a mirror, or on the mirror that
    was hit when the depth bound was reached. *)
Inductive PsrExit := ExitBackground | ExitNonMirror | ExitDepthBound.

Definition psrExit (l : PsrLocals) : PsrExit :=
  if hitSky l then ExitBackground
  else if notMirror (pbrMat l) then ExitNonMirror
  else ExitDepthBound.

(** The rays of the PSR loop use the payload and the shaders of the
    primary trace. *)
Definition nrdRays (rs : list RayCall) : Prop :=
  Forall (fun r => rcPayload r = PAYLOAD_NRD) rs.

(** The scene's material normals have unit length. *)
Definition unitNormals : Prop :=
  forall mat n t b uv,
    dot (matN (evaluateMaterial mat n t b uv)) (matN (evaluateMaterial mat n t b uv)) == 1.

(** A segment of an indirect path: the state after its [traceRayEXT]. *)
Definition segment (o : vec3) (tmin : Q) (d : vec3) (tmax : Q) (s : ShaderState)
  : ShaderState :=
  snd (trace rayFlags SBTOFFSET_PATHTRACE MISSINDEX_PATHTRACE o tmin d tmax
         PAYLOAD_PATHTRACE s).

(** The state after the trace of the first indirect bounce of a lobe (the
    [depth == 1] iteration), started in state [s]. *)
Definition firstBounce (hitTReset : Q) (sample : BsdfSampleData) (org : vec3)
    (s : ShaderState) : ShaderState :=
  let p := mkHitPayload (seed (payload s)) hitTReset (splat3 0.0) (splat3 1.0) org
             (s_k2 sample) (s_pdf sample) in
  segment org 0.001 (s_k2 sample) NRD_INF
    (mkShaderState p (payloadNrd s) (stores s) (rays s)).

(** The state in which an iteration of an indirect loop traces its ray. *)
Definition beforeTrace (hitTReset : Q) (s : ShaderState) : ShaderState :=
  mkShaderState (set_hitT hitTReset (payload s)) (payloadNrd s) (stores s) (rays s).

(** What STEP 3 and STEP 4 promise about the hit distance [pl] and the
    radiance [accum] of a lobe that was sampled with [sample] in state [s]
    and left the state [s']. *)
Definition lobeSpec (hitTReset : Q) (sample : BsdfSampleData) (org accum0 : vec3)
    (s : ShaderState) (accum : vec3) (pl : Q) (s' : ShaderState) : Prop :=
  (isAbsorb (event_type sample) = true -> pl = 0.0 /\ accum = accum0 /\ s' = s)
  /\ (isAbsorb (event_type sample) = false ->
      pl = Qabs (hitT (payload (firstBounce hitTReset sample org s)))
      /\ (intersect rayFlags org 0.001 (s_k2 sample) NRD_INF = None -> pl = Qabs NRD_INF)).

(** The camera ray of the pixel and the initial values of the locals of
    the PSR loop. *)
Definition primaryLocals (gl_LaunchIDEXT gl_LaunchSizeEXT : N * N) : PsrLocals :=
  let pixelCenter := Vec2 (inject_Z (Z.of_N (fst gl_LaunchIDEXT)) + 0.5)
                          (inject_Z (Z.of_N (snd gl_LaunchIDEXT)) + 0.5) in
  let pixelCenter := Vec2 (x2 pixelCenter + x2 (jitter frameInfo))
                          (y2 pixelCenter + y2 (jitter frameInfo)) in
  let inUV := Vec2 (x2 pixelCenter / inject_Z (Z.of_N (fst gl_LaunchSizeEXT)))
                   (y2 pixelCenter / inject_Z (Z.of_N (snd gl_LaunchSizeEXT))) in
  let d := Vec2 (x2 inUV * 2.0 - 1.0) (y2 inUV * 2.0 - 1.0) in
  let origin := rgb (mulM4V (viewInv frameInfo) (Vec4 0.0 0.0 0.0 1.0)) in
  let target := mulM4V (projInv frameInfo) (Vec4 (x2 d) (y2 d) 0.01 1.0) in
  let direction := mulMV (mat3_of (viewInv frameInfo)) (normalize (rgb target)) in
  mkPsrLocals origin direction (u_pbrMat uninit) (u_hitState uninit) false false 0.0
    (splat3 1.0) (splat3 0.0) mat3_identity 0.

(** The state after the random number is initialised. *)
Definition seeded (gl_LaunchIDEXT : N * N) (s : ShaderState) : ShaderState :=
  mkShaderState
    (set_seed (xxhash32 (fst gl_LaunchIDEXT) (snd gl_LaunchIDEXT) (frame pc)) (payload s))
    (payloadNrd s) (stores s) (rays s).

(** The stores of the early out of a pixel that shows the background. *)
Definition skyStores (l : PsrLocals) : list (Image * vec4) :=
  [(nrdDirectLighting, vec4_of (psrDirectRadiance l) 0.0);
   (nrdUDiff, splat4 0);
   (nrdUSpec, splat4 0);
   (nrdNormalRoughness, splat4 0);
   (nrdViewZ, splat4 (- NRD_INF))].

(** [main]: the image stores of one pixel.  [fuel] bounds the iterations
    of each loop of the model; the result is [None] when it runs out. *)
Definition main (fuel : nat) (gl_LaunchIDEXT gl_LaunchSizeEXT : N * N) : M (option unit) :=
  p <- getPayload ;;
  setPayload (set_seed (xxhash32 (fst gl_LaunchIDEXT) (snd gl_LaunchIDEXT) (frame pc)) p) ;;
  let l0 := primaryLocals gl_LaunchIDEXT gl_LaunchSizeEXT in
  let eyePos := origin l0 in
  let orgDirection := direction l0 in
  r <- psrLoop fuel l0 ;;
  match r with
  | None => ret None
  | Some l =>
      if hitSky l then
        (* Early out when hitting sky (even via mirrors) *)
        imageStore nrdDirectLighting (vec4_of (psrDirectRadiance l) 0.0) ;;
        imageStore nrdUDiff (splat4 0) ;;
        imageStore nrdUSpec (splat4 0) ;;
        imageStore nrdNormalRoughness (splat4 0) ;;
        imageStore nrdViewZ (splat4 (- NRD_INF)) ;;
        ret (Some tt)
      else
        let g_viewZ :=
          wz (mulM4V (view frameInfo)
                (vec4_of (vadd eyePos (vs orgDirection (psrHitDist l))) 1.0)) in
        imageStore nrdViewZ (splat4 g_viewZ) ;;
        let m := pbrMat l in
        let materialType :=
          if isPsr l then MATERIAL_ID_PSR
          else if Qeq_bool (metallic m) 1.0 then MATERIAL_ID_METAL else MATERIAL_ID_DEFAULT in
        let worldNormal := mulMV (psrMirror l) (matN m) in
        let linearRoughness := fsqrt (x2 (roughness m)) in
        imageStore nrdNormalRoughness
          (NRD_FrontEnd_PackNormalAndRoughness worldNormal linearRoughness materialType) ;;
        let m := mkPbrMaterial (vmul (baseColor m) (psrThroughput l)) (roughness m) (metallic m)
                   (vadd (vmul (emissive m) (psrThroughput l)) (psrDirectRadiance l))
                   (matN m) (matNg m) (vmul (specularColor m) (psrThroughput l)) in
        imageStore nrdObjectMotion (splat4 0) ;;
        let toEye := vneg (NrdRgen.direction l) in
        let VdotN := dot toEye (matN m) in
        let diffuseWeight := diffuseLobeWeight m VdotN (baseColor m) in
        let diffuseRatio := diffuseWeight in
        let specularRatio := 1.0 - diffuseRatio in
        imageStore nrdBaseColorMetalness (vec4_of (toSrgb (baseColor m)) (metallic m)) ;;
        (* STEP 2 *)
        hdr <- HdrContrib m (pos (hitState l)) toEye ;;
        let directLum := DirectLight m (hitState l) toEye in
        let directLum := vadd directLum (vadd (psrDirectRadiance l) (emissive m)) in
        imageStore nrdDirectLighting (vec4_of directLum 1) ;;
        (* STEP 3 *)
        rd <- diffuseLobe fuel m (NrdRgen.origin l) toEye (fst hdr) diffuseRatio ;;
        match rd with
        | None => ret None
        | Some (diffuseAccum, pathLength) =>
            let diffuseAccum := demodulate diffuseAccum (baseColor m) in
            imageStore nrdUDiff (encode gDiffHitDistParams 1.0 g_viewZ diffuseAccum pathLength) ;;
            (* STEP 4 *)
            rs <- specularLobe fuel m (NrdRgen.origin l) toEye (snd hdr) diffuseWeight
                    specularRatio ;;
            match rs with
            | None => ret None
            | Some (specularAccum, pathLength) =>
                let specularAccum := demodulate specularAccum (specularFenv m VdotN) in
                imageStore nrdUSpec
                  (encode gSpecHitDistParams linearRoughness g_viewZ specularAccum pathLength) ;;
                ret (Some tt)
            end
        end
  end.

End WithScene.

End NrdRgen.

(** ** The compositing compute shader *)

Module Compositing.

Import HostDevice Shading NrdGlsl.

(** The texels of the input images at the invocation's pixel. *)
Record Texels := mkTexels {
  iDirect : vec4;
  iDiff : vec4;
  iSpec : vec4;
  iBaseColor_Metalness : vec4;
  iNormal_Roughness : vec4;
  iViewZ : vec4
}.

(** The re-modulation: [indirect * (factor * 0.99 + 0.01)] *)
Definition remodulate (indirect factor : vec3) : vec3 :=
  vmul indirect (vadds (vs factor 0.99) 0.01).

Section WithLib.

Context {lib : ShaderLib}.
Variable frameInfo : FrameInfo.
Variable pc : RtxPushConstant.

Definition ReconstructViewPosition (uv : vec2) (viewZ : Q) : vec3 :=
  let p := mulM4V (projInv frameInfo)
             (Vec4 (x2 uv * 2.0 - 1.0) (y2 uv * 2.0 - 1.0) 0.0 1.0) in
  let p := Vec4 (wx p / ww p) (wy p / ww p) (wz p / ww p) (ww p / ww p) in
  let s := viewZ / wz p in
  let p := Vec4 (wx p * s) (wy p * s) (wz p * s) (ww p) in
  let p := mulM4V (viewInv frameInfo) p in
  rgb p.

(** The environment term of the re-modulation: [NoV] is passed on as it is. *)
Definition specularFenv (baseColor : vec3) (metalness NoV linearRoughness : Q) : vec3 :=
  let (albedo, Rf0) := ConvertBaseColorMetalnessToAlbedoRf0 baseColor metalness in
  EnvironmentTerm_Rtg mul2 mul3 Rf0 NoV linearRoughness.

(** The value stored to [oImage], or [None] outside the image. *)
Definition main (imgSize fragCoord : Z * Z) (t : Texels) : option vec4 :=
  if ((fst imgSize <=? fst fragCoord) || (snd imgSize <=? snd fragCoord))%Z then None
  else
    let directLighting := iDirect t in
    let R := rgb directLighting in
    let R :=
      if Qltb 0 (ww directLighting) then
        let '(indirectDiff, indirectSpec) :=
          if (method pc =? NRD_REBLUR)%Z then
            (rgb (REBLUR_BackEnd_UnpackRadianceAndNormHitDist (iDiff t)),
             rgb (REBLUR_BackEnd_UnpackRadianceAndNormHitDist (iSpec t)))
          else if (method pc =? NRD_RELAX)%Z then
            (rgb (RELAX_BackEnd_UnpackRadiance (iDiff t)),
             rgb (RELAX_BackEnd_UnpackRadiance (iSpec t)))
          else (rgb (iDiff t), rgb (iSpec t)) in
        let pixelUv :=
          Vec2 ((inject_Z (fst fragCoord) + 0.5 + x2 (jitter frameInfo)) / inject_Z (fst imgSize))
               ((inject_Z (snd fragCoord) + 0.5 + y2 (jitter frameInfo)) / inject_Z (snd imgSize)) in
        let viewZ := wx (iViewZ t) in
        let Pw := ReconstructViewPosition pixelUv viewZ in
        let V := normalize (vsub (rgb (c4_3 (viewInv frameInfo))) Pw) in
        let N_roughness := NRD_FrontEnd_UnpackNormalAndRoughness (iNormal_Roughness t) in
        let baseColorMetalness := iBaseColor_Metalness t in
        let baseColor := toLinear (rgb baseColorMetalness) in
        let NoV := dot (rgb N_roughness) V in
        let Fenv := specularFenv baseColor (ww baseColorMetalness) NoV (ww N_roughness) in
        let R := vadd R (remodulate indirectDiff baseColor) in
        vadd R (remodulate indirectSpec Fenv)
      else R in
    Some (vec4_of R 1.0).

End WithLib.

End Compositing.

(** ** NRDWrapper: the Vulkan side of the denoiser *)

Module NRDWrapper.

Local Open Scope Z_scope.

Inductive VkFormat :=
  | VK_FORMAT_UNDEFINED | VK_FORMAT_R8_UNORM | VK_FORMAT_R8_SNORM | VK_FORMAT_R8_UINT
  | VK_FORMAT_R8_SINT | VK_FORMAT_R8G8_UNORM | VK_FORMAT_R8G8_SNORM | VK_FORMAT_R8G8_UINT
  | VK_FORMAT_R8G8_SINT | VK_FORMAT_R8G8B8A8_UNORM | VK_FORMAT_R8G8B8A8_SNORM
  | VK_FORMAT_A8B8G8R8_UINT_PACK32 | VK_FORMAT_R8G8B8A8_SINT | VK_FORMAT_R8G8B8A8_SRGB
  | VK_FORMAT_R16_UNORM | VK_FORMAT_R16_SNORM | VK_FORMAT_R16_UINT | VK_FORMAT_R16_SINT
  | VK_FORMAT_R16_SFLOAT | VK_FORMAT_R16G16_UNORM | VK_FORMAT_R16G16_SNORM
  | VK_FORMAT_R16G16_UINT | VK_FORMAT_R16G16_SINT | VK_FORMAT_R16G16_SFLOAT
  | VK_FORMAT_R16G16B16A16_UNORM | VK_FORMAT_R16G16B16A16_SNORM
  | VK_FORMAT_R16G16B16A16_UINT | VK_FORMAT_R16G16B16A16_SINT
  | VK_FORMAT_R16G16B16A16_SFLOAT | VK_FORMAT_R32_UINT | VK_FORMAT_R32_SINT
  | VK_FORMAT_R32_SFLOAT | VK_FORMAT_R32G32_UINT | VK_FORMAT_R32G32_SINT
  | VK_FORMAT_R32G32_SFLOAT | VK_FORMAT_R32G32B32_UINT | VK_FORMAT_R32G32B32_SINT
  | VK_FORMAT_R32G32B32_SFLOAT | VK_FORMAT_R32G32B32A32_UINT | VK_FORMAT_R32G32B32A32_SINT
  | VK_FORMAT_R32G32B32A32_SFLOAT | VK_FORMAT_A2B10G10R10_UNORM_PACK32
  | VK_FORMAT_A2R10G10B10_UINT_PACK32 | VK_FORMAT_B10G11R11_UFLOAT_PACK32
  | VK_FORMAT_E5B9G9R9_UFLOAT_PACK32.

(** Translate NRD format enum values to Vulkan formats *)
Definition g_NRDFormatToVkFormat : list VkFormat :=
  [VK_FORMAT_R8_UNORM; VK_FORMAT_R8_SNORM; VK_FORMAT_R8_UINT; VK_FORMAT_R8_SINT;
   VK_FORMAT_R8G8_UNORM; VK_FORMAT_R8G8_SNORM; VK_FORMAT_R8G8_UINT; VK_FORMAT_R8G8_SINT;
   VK_FORMAT_R8G8B8A8_UNORM; VK_FORMAT_R8G8B8A8_SNORM; VK_FORMAT_A8B8G8R8_UINT_PACK32;
   VK_FORMAT_R8G8B8A8_SINT; VK_FORMAT_R8G8B8A8_SRGB; VK_FORMAT_R16_UNORM;
   VK_FORMAT_R16_SNORM; VK_FORMAT_R16_UINT; VK_FORMAT_R16_SINT; VK_FORMAT_R16_SFLOAT;
   VK_FORMAT_R16G16_UNORM; VK_FORMAT_R16G16_SNORM; VK_FORMAT_R16G16_UINT;
   VK_FORMAT_R16G16_SINT; VK_FORMAT_R16G16_SFLOAT; VK_FORMAT_R16G16B16A16_UNORM;
   VK_FORMAT_R16G16B16A16_SNORM; VK_FORMAT_R16G16B16A16_UINT; VK_FORMAT_R16G16B16A16_SINT;
   VK_FORMAT_R16G16B16A16_SFLOAT; VK_FORMAT_R32_UINT; VK_FORMAT_R32_SINT;
   VK_FORMAT_R32_SFLOAT; VK_FORMAT_R32G32_UINT; VK_FORMAT_R32G32_SINT;
   VK_FORMAT_R32G32_SFLOAT; VK_FORMAT_R32G32B32_UINT; VK_FORMAT_R32G32B32_SINT;
   VK_FORMAT_R32G32B32_SFLOAT; VK_FORMAT_R32G32B32A32_UINT; VK_FORMAT_R32G32B32A32_SINT;
   VK_FORMAT_R32G32B32A32_SFLOAT; VK_FORMAT_A2B10G10R10_UNORM_PACK32;
   VK_FORMAT_A2R10G10B10_UINT_PACK32; VK_FORMAT_B10G11R11_UFLOAT_PACK32;
   VK_FORMAT_E5B9G9R9_UFLOAT_PACK32].

Inductive VkDescriptorType :=
  | VK_DESCRIPTOR_TYPE_SAMPLER
  | VK_DESCRIPTOR_TYPE_SAMPLED_IMAGE
  | VK_DESCRIPTOR_TYPE_STORAGE_IMAGE
  | VK_DESCRIPTOR_TYPE_UNIFORM_BUFFER.

Inductive VkImageLayout := VK_IMAGE_LAYOUT_UNDEFINED | VK_IMAGE_LAYOUT_GENERAL.

Inductive VkAccess :=
  | VK_ACCESS_SHADER_READ_BIT | VK_ACCESS_SHADER_WRITE_BIT | VK_ACCESS_TRANSFER_WRITE_BIT.

Inductive VkPipelineStage :=
  | VK_PIPELINE_STAGE_COMPUTE_SHADER_BIT | VK_PIPELINE_STAGE_TRANSFER_BIT.

(** *** The descriptions NRD hands out (NRDDescs.h) *)

Inductive DescriptorType := TEXTURE | STORAGE_TEXTURE.

Definition DescriptorType_eqb (a b : DescriptorType) : bool :=
  match a, b with
  | TEXTURE, TEXTURE | STORAGE_TEXTURE, STORAGE_TEXTURE => true
  | _, _ => false
  end.

(** A resource lives in one of NRD's two pools or in a slot of the user pool. *)
Inductive ResourceType := UserResource (slot : N) | TRANSIENT_POOL | PERMANENT_POOL.

Record TextureDesc := mkTextureDesc {
  format : N;
  downsampleFactor : Z
}.

Record ResourceRangeDesc := mkResourceRangeDesc {
  rangeDescriptorType : DescriptorType;
  baseRegisterIndex : N;
  descriptorsNum : N
}.

Record PipelineDesc := mkPipelineDesc {
  resourceRanges : list ResourceRangeDesc;
  hasConstantData : bool
}.

Record ResourceDesc := mkResourceDesc {
  descriptorType : DescriptorType;
  type : ResourceType;
  indexInPool : N
}.

Record DispatchDesc := mkDispatchDesc {
  resources : list ResourceDesc;
  constantBufferData : list N;
  pipelineIndex : N;
  gridWidth : N;
  gridHeight : N;
  constantBufferDataMatchesPreviousDispatch : bool
}.

Record SPIRVBindingOffsets := mkSPIRVBindingOffsets {
  samplerOffset : N;
  textureOffset : N;
  constantBufferOffset : N;
  storageTextureAndBufferOffset : N
}.

Record InstanceDesc := mkInstanceDesc {
  constantBufferMaxDataSize : N;
  constantBufferSpaceIndex : N;
  samplersSpaceIndex : N;
  resourcesSpaceIndex : N;
  samplersBaseRegisterIndex : N;
  samplersNum : N;
  pipelines : list PipelineDesc;
  permanentPool : list TextureDesc;
  transientPool : list TextureDesc
}.

(** *** Vulkan objects and recorded commands *)

Record ImageCreateInfo := mkImageCreateInfo {
  extentWidth : Z;
  extentHeight : Z;
  imageFormat : VkFormat;
  usageSampled : bool;
  usageStorage : bool
}.

(** nvvk::ResourceAllocator: the images created so far, by handle, and the
    next free handle (handles are never [VK_NULL_HANDLE], which is 0). *)
Record Allocator := mkAllocator {
  created : list (N * ImageCreateInfo);
  nextHandle : N
}.

Record Texture := mkTexture {
  image : N;
  imageView : N
}.

Record ImageMemoryBarrier := mkImageMemoryBarrier {
  barrierImage : N;
  srcAccessMask : VkAccess;
  dstAccessMask : VkAccess;
  oldLayout : VkImageLayout;
  newLayout : VkImageLayout
}.

Record BufferMemoryBarrier := mkBufferMemoryBarrier {
  bufSrcAccessMask : VkAccess;
  bufDstAccessMask : VkAccess;
  barrierBuffer : N
}.

Record DescriptorImageInfo := mkDescriptorImageInfo {
  infoImageView : N;
  infoImageLayout : VkImageLayout
}.

Record WriteDescriptorSet := mkWriteDescriptorSet {
  dstBinding : N;
  descriptorCount : N;
  writeDescriptorType : VkDescriptorType;
  pImageInfo : option nat;
  pBufferInfo : option N
}.

Inductive Cmd :=
  | CmdBarrierImageLayout (img : N) (oldL newL : VkImageLayout)
  | CmdClearColorImage (img : N) (layout : VkImageLayout) (clear : Q * Q * Q * Q)
  | CmdBufferBarrier (src dst : VkPipelineStage) (b : BufferMemoryBarrier)
  | CmdUpdateBuffer (buffer : N) (offset : N) (data : list N)
  | CmdImageBarriers (src dst : VkPipelineStage) (bs : list ImageMemoryBarrier)
  | CmdPushDescriptorSet (layout : N) (set : N) (writes : list WriteDescriptorSet)
      (infos : list DescriptorImageInfo)
  | CmdBindPipeline (pipeline : N)
  | CmdDispatch (x y z : N).

(** *** Failures: a fired [assert], an access outside an array or an
    integer division by zero *)

Inductive Assertion :=
  | AssertFormatInTable
  | AssertSetsShared
  | AssertResourceKind
  | AssertTexture.

Inductive Outcome (A : Type) :=
  | Done (a : A)
  | AssertionFailed (a : Assertion)
  | OutOfBounds
  | DivisionByZero.

Arguments Done {A} a.
Arguments AssertionFailed {A} a.
Arguments OutOfBounds {A}.
Arguments DivisionByZero {A}.

Definition obind {A B} (c : Outcome A) (k : A -> Outcome B) : Outcome B :=
  match c with
  | Done a => k a
  | AssertionFailed a => AssertionFailed a
  | OutOfBounds => OutOfBounds
  | DivisionByZero => DivisionByZero
  end.

Definition assert (b : bool) (a : Assertion) : Outcome unit :=
  if b then Done tt else AssertionFailed a.

Definition index {A} (l : list A) (i : nat) : Outcome A :=
  match nth_error l i with Some a => Done a | None => OutOfBounds end.

(** [v[i] = a] on a vector *)
Fixpoint assign {A} (l : list A) (i : nat) (a : A) : Outcome (list A) :=
  match l, i with
  | [], _ => OutOfBounds
  | _ :: t, O => Done (a :: t)
  | h :: t, S i' => obind (assign t i' a) (fun t' => Done (h :: t'))
  end.

Definition u16 (x : Z) : Z := x mod 2 ^ 16.
Definition u32 (x : Z) : Z := x mod 2 ^ 32.
Definition u32N (x : N) : N := (x mod 2 ^ 32)%N.

Definition NRDtoVKFormat (nrdFormat : N) : Outcome VkFormat :=
  match nth_error g_NRDFormatToVkFormat (N.to_nat nrdFormat) with
  | Some f => Done f
  | None => AssertionFailed AssertFormatInTable
  end.

Definition NRDDescriptorTypeToVulkan (t : DescriptorType) : VkDescriptorType :=
  match t with
  | TEXTURE => VK_DESCRIPTOR_TYPE_SAMPLED_IMAGE
  | STORAGE_TEXTURE => VK_DESCRIPTOR_TYPE_STORAGE_IMAGE
  end.

(** [uint16_t((dividend + divisor - 1) / divisor)] with a 32-bit dividend;
    the division by a [divisor] of 0 does not return. *)
Definition DivideRoundUp (dividend divisor : Z) : Outcome Z :=
  if (divisor =? 0)%Z then DivisionByZero
  else Done (u16 (u32 (dividend + divisor - 1) / divisor)).

Definition createImage (info : ImageCreateInfo) (a : Allocator) : N * Allocator :=
  (nextHandle a, mkAllocator (created a ++ [(nextHandle a, info)]) (nextHandle a + 1)%N).

Definition createImageView (a : Allocator) : N * Allocator :=
  (nextHandle a, mkAllocator (created a) (nextHandle a + 1)%N).

Definition createTexture (tDesc : TextureDesc) (width height : Z) (a : Allocator)
  : Outcome (Texture * Allocator) :=
  obind (DivideRoundUp width (downsampleFactor tDesc)) (fun texWidth =>
  obind (DivideRoundUp height (downsampleFactor tDesc)) (fun texHeight =>
  obind (NRDtoVKFormat (format tDesc)) (fun fmt =>
  let imgInfo := mkImageCreateInfo texWidth texHeight fmt true true in
  let (img, a) := createImage imgInfo a in
  let (view, a) := createImageView a in
  obind (assert (negb (img =? 0)%N && negb (view =? 0)%N) AssertTexture) (fun _ =>
  Done (mkTexture img view, a))))).

(** The loops of the constructor that fill a pool. *)
Fixpoint createPool (pool : list TextureDesc) (width height : Z) (a : Allocator)
  : Outcome (list Texture * Allocator) :=
  match pool with
  | [] => Done ([], a)
  | tDesc :: rest =>
      obind (createTexture tDesc width height a) (fun '(t, a) =>
      obind (createPool rest width height a) (fun '(ts, a) =>
      Done (t :: ts, a)))
  end.

(** [transitionTexture]: "Change color image layout and clear the images" *)
Definition transitionTexture (img : N) : list Cmd :=
  [CmdBarrierImageLayout img VK_IMAGE_LAYOUT_UNDEFINED VK_IMAGE_LAYOUT_GENERAL;
   CmdClearColorImage img VK_IMAGE_LAYOUT_GENERAL (0%Q, 0%Q, 0%Q, 0%Q)].

Record NRDPipeline := mkNRDPipeline {
  pipeline : N;
  pipelineLayout : N;
  numBindings : N
}.

Record Wrapper := mkWrapper {
  m_permanentTextures : list Texture;
  m_transientTextures : list Texture;
  m_userTexturePool : N -> Texture;
  m_constantBuffer : N;
  m_pipelines : list NRDPipeline;
  m_constantBufferSetIndex : N;
  m_samplersSetIndex : N;
  m_resourcesSetIndex : N
}.

Definition sumDescriptors (ranges : list ResourceRangeDesc) : N :=
  fold_left (fun n r => u32N (n + descriptorsNum r)) ranges 0%N.

(** [createPipelines]: the set indices and, for each pipeline, the number
    of bindings of its set layouts (the samplers, the constant buffer when
    the pipeline has one, and one binding per descriptor of its ranges);
    [handle0] is the first of the pipeline handles. *)
Definition createPipelines (iDesc : InstanceDesc) (handle0 : N)
  : N * N * N * list NRDPipeline :=
  let cbSet := 0%N in
  let sSet := if (constantBufferSpaceIndex iDesc =? samplersSpaceIndex iDesc)%N
              then cbSet else (cbSet + 1)%N in
  let rSet := if (resourcesSpaceIndex iDesc =? constantBufferSpaceIndex iDesc)%N then 0%N
              else if (resourcesSpaceIndex iDesc =? samplersSpaceIndex iDesc)%N then sSet
              else (sSet + 1)%N in
  let mk (ip : nat * PipelineDesc) :=
    let (i, pDesc) := ip in
    mkNRDPipeline (handle0 + 2 * N.of_nat i)%N (handle0 + 2 * N.of_nat i + 1)%N
      (u32N (samplersNum iDesc + (if hasConstantData pDesc then 1 else 0)
             + sumDescriptors (resourceRanges pDesc))) in
  (cbSet, sSet, rSet, map mk (combine (seq 0 (length (pipelines iDesc))) (pipelines iDesc))).

(** The constructor: the wrapper, the allocator and the commands that were
    submitted (and waited for) before it returns. *)
Definition construct (iDesc : InstanceDesc) (width height : Z)
    (userTexturePool : N -> Texture) (a : Allocator)
  : Outcome (Wrapper * Allocator * list Cmd) :=
  obind (createPool (permanentPool iDesc) width height a) (fun '(perm, a) =>
  obind (createPool (transientPool iDesc) width height a) (fun '(trans, a) =>
  let cmd := flat_map (fun t => transitionTexture (image t)) trans
             ++ flat_map (fun t => transitionTexture (image t)) perm in
  let buffer := nextHandle a in
  let a := mkAllocator (created a) (nextHandle a + 1)%N in
  let '(cbSet, sSet, rSet, ps) := createPipelines iDesc (nextHandle a) in
  let a := mkAllocator (created a) (nextHandle a + 2 * N.of_nat (length ps))%N in
  Done (mkWrapper perm trans userTexturePool buffer ps cbSet sSet rSet, a, cmd))).

(** The create info the allocator recorded for an image handle. *)
Fixpoint lookupImage (l : list (N * ImageCreateInfo)) (h : N) : option ImageCreateInfo :=
  match l with
  | [] => None
  | (h', info) :: rest => if (h' =? h)%N then Some info else lookupImage rest h
  end.

(** *** dispatch *)

Definition defaultWrite : WriteDescriptorSet :=
  mkWriteDescriptorSet 0 0 VK_DESCRIPTOR_TYPE_SAMPLER None None.
Definition defaultImageInfo : DescriptorImageInfo :=
  mkDescriptorImageInfo 0 VK_IMAGE_LAYOUT_UNDEFINED.

Definition transitionToShaderRead (img : N) : ImageMemoryBarrier :=
  mkImageMemoryBarrier img VK_ACCESS_SHADER_WRITE_BIT VK_ACCESS_SHADER_READ_BIT
    VK_IMAGE_LAYOUT_GENERAL VK_IMAGE_LAYOUT_GENERAL.
Definition transitionToShaderWrite (img : N) : ImageMemoryBarrier :=
  mkImageMemoryBarrier img VK_ACCESS_SHADER_READ_BIT VK_ACCESS_SHADER_WRITE_BIT
    VK_IMAGE_LAYOUT_GENERAL VK_IMAGE_LAYOUT_GENERAL.

(** The locals the loops of [dispatch] update; [numResourceUpdates] counts
    and indexes the updates. *)
Record DispatchLocals := mkDispatchLocals {
  numResourceUpdates : nat;
  descriptorUpdates : list WriteDescriptorSet;
  descriptorImageInfos : list DescriptorImageInfo;
  imageBarriers : list ImageMemoryBarrier
}.

Definition isStorage (r : ResourceRangeDesc) : bool :=
  DescriptorType_eqb (rangeDescriptorType r) STORAGE_TEXTURE.

Definition lookupTexture (w : Wrapper) (res : ResourceDesc) : Outcome Texture :=
  match type res with
  | TRANSIENT_POOL => index (m_transientTextures w) (N.to_nat (indexInPool res))
  | PERMANENT_POOL => index (m_permanentTextures w) (N.to_nat (indexInPool res))
  | UserResource slot => Done (m_userTexturePool w slot)
  end.

(** The body of the loop over the descriptors of one resource range. *)
Definition bindResource (w : Wrapper) (lDesc : SPIRVBindingOffsets) (dispatchDesc : DispatchDesc)
    (resourceRange : ResourceRangeDesc) (d : nat) (l : DispatchLocals)
  : Outcome DispatchLocals :=
  let rangeBaseBindingIndex :=
    if isStorage resourceRange then storageTextureAndBufferOffset lDesc
    else textureOffset lDesc in
  let n := numResourceUpdates l in
  obind (index (resources dispatchDesc) n) (fun nrdResource =>
  let update := mkWriteDescriptorSet (u32N (rangeBaseBindingIndex + N.of_nat d)) 1
                  (NRDDescriptorTypeToVulkan (descriptorType nrdResource)) (Some n) None in
  obind (assign (descriptorUpdates l) n update) (fun updates =>
  obind (assert (DescriptorType_eqb (descriptorType nrdResource)
                   (rangeDescriptorType resourceRange)) AssertResourceKind) (fun _ =>
  obind (lookupTexture w nrdResource) (fun texture =>
  let barriers :=
    imageBarriers l ++ [if isStorage resourceRange then transitionToShaderWrite (image texture)
                        else transitionToShaderRead (image texture)] in
  obind (assign (descriptorImageInfos l) n
           (mkDescriptorImageInfo (imageView texture) VK_IMAGE_LAYOUT_GENERAL)) (fun infos =>
  Done (mkDispatchLocals (S n) updates infos barriers)))))).

Fixpoint forEach {A S} (body : A -> S -> Outcome S) (l : list A) (s : S) : Outcome S :=
  match l with
  | [] => Done s
  | a :: rest => obind (body a s) (forEach body rest)
  end.

Definition bindRange (w : Wrapper) (lDesc : SPIRVBindingOffsets) (dispatchDesc : DispatchDesc)
    (resourceRange : ResourceRangeDesc) (l : DispatchLocals) : Outcome DispatchLocals :=
  forEach (bindResource w lDesc dispatchDesc resourceRange)
    (seq 0 (N.to_nat (descriptorsNum resourceRange))) l.

(** "Issue dummy sampler updates to push the immutable samplers" *)
Definition bindSampler (iDesc : InstanceDesc) (lDesc : SPIRVBindingOffsets) (s : nat)
    (l : DispatchLocals) : Outcome DispatchLocals :=
  let n := numResourceUpdates l in
  obind (index (descriptorImageInfos l) n) (fun _ =>
  let update := mkWriteDescriptorSet
                  (u32N (samplerOffset lDesc + samplersBaseRegisterIndex iDesc + N.of_nat s)) 1
                  VK_DESCRIPTOR_TYPE_SAMPLER (Some n) None in
  obind (assign (descriptorUpdates l) n update) (fun updates =>
  Done (mkDispatchLocals (S n) updates (descriptorImageInfos l) (imageBarriers l)))).

(** The upload of the constant data, between its two buffer barriers. *)
Definition uploadConstants (w : Wrapper) (dispatchDesc : DispatchDesc) : list Cmd :=
  [CmdBufferBarrier VK_PIPELINE_STAGE_COMPUTE_SHADER_BIT VK_PIPELINE_STAGE_TRANSFER_BIT
     (mkBufferMemoryBarrier VK_ACCESS_SHADER_READ_BIT VK_ACCESS_TRANSFER_WRITE_BIT
        (m_constantBuffer w));
   CmdUpdateBuffer (m_constantBuffer w) 0 (constantBufferData dispatchDesc);
   CmdBufferBarrier VK_PIPELINE_STAGE_TRANSFER_BIT VK_PIPELINE_STAGE_COMPUTE_SHADER_BIT
     (mkBufferMemoryBarrier VK_ACCESS_TRANSFER_WRITE_BIT VK_ACCESS_SHADER_READ_BIT
        (m_constantBuffer w))].

(** [dispatch]: the commands recorded into the command buffer. *)
Definition dispatch (w : Wrapper) (iDesc : InstanceDesc) (lDesc : SPIRVBindingOffsets)
    (dispatchDesc : DispatchDesc) : Outcome (list Cmd) :=
  let pi := N.to_nat (pipelineIndex dispatchDesc) in
  obind (index (pipelines iDesc) pi) (fun pDesc =>
  obind (index (m_pipelines w) pi) (fun pipe =>
  let size := N.to_nat (u32N (numBindings pipe + samplersNum iDesc)) in
  let l := mkDispatchLocals 0 (repeat defaultWrite size) (repeat defaultImageInfo size) [] in
  obind (assert ((m_constantBufferSetIndex w =? m_resourcesSetIndex w)%N
                 && (m_samplersSetIndex w =? m_resourcesSetIndex w)%N) AssertSetsShared) (fun _ =>
  obind (forEach (bindRange w lDesc dispatchDesc) (resourceRanges pDesc) l) (fun l =>
  obind (forEach (bindSampler iDesc lDesc) (seq 0 (N.to_nat (samplersNum iDesc))) l) (fun l =>
  obind (if hasConstantData pDesc then
           let constantBufferUpdate :=
             mkWriteDescriptorSet (constantBufferOffset lDesc) 1
               VK_DESCRIPTOR_TYPE_UNIFORM_BUFFER None (Some (m_constantBuffer w)) in
           obind (assign (descriptorUpdates l) (numResourceUpdates l) constantBufferUpdate)
             (fun updates =>
              Done (mkDispatchLocals (S (numResourceUpdates l)) updates
                      (descriptorImageInfos l) (imageBarriers l),
                    if constantBufferDataMatchesPreviousDispatch dispatchDesc then []
                    else uploadConstants w dispatchDesc))
         else Done (l, [])) (fun '(l, upload) =>
  Done (upload
        ++ [CmdImageBarriers VK_PIPELINE_STAGE_COMPUTE_SHADER_BIT
              VK_PIPELINE_STAGE_COMPUTE_SHADER_BIT (imageBarriers l);
            CmdPushDescriptorSet (pipelineLayout pipe) (m_resourcesSetIndex w)
              (firstn (numResourceUpdates l) (descriptorUpdates l)) (descriptorImageInfos l);
            CmdBindPipeline (pipeline pipe);
            CmdDispatch (gridWidth dispatchDesc) (gridHeight dispatchDesc) 1]))))))).

(** [denoise]: the dispatches NRD lists, in their order. *)
Fixpoint denoise (w : Wrapper) (iDesc : InstanceDesc) (lDesc : SPIRVBindingOffsets)
    (dispatchDescs : list DispatchDesc) : Outcome (list Cmd) :=
  match dispatchDescs with
  | [] => Done []
  | dDesc :: rest =>
      obind (dispatch w iDesc lDesc dDesc) (fun cmds =>
      obind (denoise w iDesc lDesc rest) (fun cmds' => Done (cmds ++ cmds')))
  end.

(** *** The effect of recorded commands on the contents of a buffer *)

(** [vkCmdUpdateBuffer] at offset 0 overwrites the first bytes of the buffer. *)
Definition updateBuffer (contents data : list N) : list N :=
  data ++ skipn (length data) contents.

Definition execCmd (buffer : N) (contents : list N) (c : Cmd) : list N :=
  match c with
  | CmdUpdateBuffer b _ data => if (b =? buffer)%N then updateBuffer contents data else contents
  | _ => contents
  end.

Definition execCmds (buffer : N) (contents : list N) (cmds : list Cmd) : list N :=
  fold_left (execCmd buffer) cmds contents.

Definition isBufferCmd (c : Cmd) : bool :=
  match c with
  | CmdBufferBarrier _ _ _ | CmdUpdateBuffer _ _ _ => true
  | _ => false
  end.

(** *** What the constructor promises about the pool textures *)

(** [q] is [x / f] rounded up. *)
Definition isCeilDiv (x f q : Z) : Prop := (q - 1) * f < x <= q * f.

(** The image of texture [t] was created with the size and the format
    that descriptor [d] asks for at the base resolution. *)
Definition textureMatches (width height : Z) (a : Allocator) (d : TextureDesc) (t : Texture)
  : Prop :=
  exists info,
    lookupImage (created a) (image t) = Some info
    /\ isCeilDiv width (downsampleFactor d) (extentWidth info)
    /\ isCeilDiv height (downsampleFactor d) (extentHeight info)
    /\ nth_error g_NRDFormatToVkFormat (N.to_nat (format d)) = Some (imageFormat info).

Definition clearedToZero (cmds : list Cmd) (t : Texture) : Prop :=
  In (CmdClearColorImage (image t) VK_IMAGE_LAYOUT_GENERAL (0%Q, 0%Q, 0%Q, 0%Q)) cmds.

(** The handles in use are below the next free handle, which is not null. *)
Definition allocatorOk (a : Allocator) : Prop :=
  (0 < nextHandle a)%N /\ Forall (fun r => (fst r < nextHandle a)%N) (created a).

(** A pool descriptor: a 16-bit downsample factor that is not 0 and a
    format of NRD's format enumeration. *)
Definition validDesc (d : TextureDesc) : Prop :=
  0 < downsampleFactor d < 2 ^ 16
  /\ (N.to_nat (format d) < length g_NRDFormatToVkFormat)%nat.

(** *** The contract between a pipeline and its dispatches *)

(** The descriptor kinds the ranges of a pipeline declare, one per
    descriptor, in the order of the resources of a dispatch. *)
Definition rangeKinds (ranges : list ResourceRangeDesc) : list DescriptorType :=
  flat_map (fun r => repeat (rangeDescriptorType r) (N.to_nat (descriptorsNum r))) ranges.

Definition expectedKinds (pDesc : PipelineDesc) : list DescriptorType :=
  rangeKinds (resourceRanges pDesc).

(** Every resource entry of the dispatch reports the kind its range declares. *)
Definition kindsMatch (pDesc : PipelineDesc) (dispatchDesc : DispatchDesc) : Prop :=
  forall i k res,
    nth_error (expectedKinds pDesc) i = Some k ->
    nth_error (resources dispatchDesc) i = Some res ->
    descriptorType res = k.

(** The write that binds the constant buffer. *)
Definition constantBufferWrite (w : Wrapper) (lDesc : SPIRVBindingOffsets) : WriteDescriptorSet :=
  mkWriteDescriptorSet (constantBufferOffset lDesc) 1 VK_DESCRIPTOR_TYPE_UNIFORM_BUFFER None
    (Some (m_constantBuffer w)).

(** Does the dispatch upload its constant data? *)
Definition uploads (pDesc : PipelineDesc) (dispatchDesc : DispatchDesc) : bool :=
  hasConstantData pDesc && negb (constantBufferDataMatchesPreviousDispatch dispatchDesc).

End NRDWrapper.

(** ** Concrete libraries, scenes and denoiser descriptions

    Small instances of the interfaces above, on which the models are run. *)

Module Examples.

Import RayCommon HostDevice Shading Shaders NrdGlsl.

(** Integer square roots of numerator and denominator: exact on the
    squares of rationals. *)
Definition sqrtQ (q : Q) : Q := Qmake (Z.sqrt (Qnum q)) (Z.to_pos (Z.sqrt (Zpos (Qden q)))).

Definition scatter (k2 : vec3) : BsdfSampleData :=
  mkBsdfSampleData k2 1 (splat3 1) (BSDF_EVENT_SCATTER 1).
Definition absorbed : BsdfSampleData :=
  mkBsdfSampleData (splat3 0) 0 (splat3 0) BSDF_EVENT_ABSORB.

(** A library whose BSDF sampling follows the mirror direction, whose
    diffuse sampling follows the normal, and whose packing stores the
    radiance with the hit distance in the fourth component.
    [mulGlsl] selects the GLSL product [m * v] for [mul], otherwise
    [v * m]; [absorbing] makes every BSDF sample an absorption event. *)
Definition exampleLib (mulGlsl absorbing : bool) : ShaderLib := {|
  NRD_INF := 1e6;
  MICROFACET_MIN_ROUGHNESS := 0.001;
  rand := fun sd => (1 # 2, (sd + 1)%N);
  xxhash32 := fun x y f => (x + y)%N;
  fsqrt := sqrtQ;
  normalize := fun v => v;
  rotate := fun v _ _ => v;
  getSphericalUv := fun v => Vec2 (vx v) (vy v);
  offsetRay := fun p _ => p;
  toSrgb := fun c => c;
  toLinear := fun c => c;
  bsdfSample := fun k1 _ m =>
    if absorbing then absorbed else scatter (reflect (vneg k1) (matN m));
  brdf_diffuse_sample := fun _ _ m _ => if absorbing then absorbed else scatter (matN m);
  bsdfEvaluate := fun _ _ _ _ => mkBsdfEvaluateData (splat3 0) (splat3 0) 0;
  diffuseLobeWeight := fun _ _ _ => 1 # 2;
  mul2 := if mulGlsl then mulM2V else mulVM2;
  mul3 := if mulGlsl then mulMV else mulVM;
  NRD_FrontEnd_PackNormalAndRoughness := fun n r _ => vec4_of n r;
  NRD_FrontEnd_UnpackNormalAndRoughness := fun v => v;
  REBLUR_FrontEnd_GetNormHitDist := fun d _ _ _ => d;
  REBLUR_FrontEnd_PackRadianceAndNormHitDist := fun c d _ => vec4_of c d;
  RELAX_FrontEnd_PackRadianceAndHitDist := fun c d _ => vec4_of c d;
  REBLUR_BackEnd_UnpackRadianceAndNormHitDist := fun v => v;
  RELAX_BackEnd_UnpackRadiance := fun v => v
|}.

Definition mirrorMaterial : PbrMaterial :=
  mkPbrMaterial (splat3 1) (Vec2 0 0) 1 (splat3 0) (Vec3 0 0 1) (Vec3 0 0 1) (splat3 1).
Definition diffuseMaterial : PbrMaterial :=
  mkPbrMaterial (splat3 (1 # 2)) (Vec2 (1 # 4) (1 # 4)) 0 (splat3 0) (Vec3 0 0 1) (Vec3 0 0 1)
    (splat3 1).

Definition flatHit (t : Q) : Intersection :=
  mkIntersection t 0 0
    (mkHitState (splat3 0) (Vec3 0 0 1) (Vec3 0 0 1) (Vec2 0 0) (Vec3 1 0 0) (Vec3 0 1 0) 1).

(** A scene with a uniform white environment in which every ray hits a
    surface of material [m] at distance [t], or nothing when [t] is [None]. *)
Definition exampleScene (t : option Q) (m : PbrMaterial) : Scene := {|
  GltfShadeMaterial := unit;
  intersect := fun _ _ _ _ _ => option_map flatHit t;
  materialOf := fun _ => tt;
  evaluateMaterial := fun _ _ _ _ _ => m;
  hdrTexture := fun _ => Vec4 1 1 1 1;
  environmentSample := fun _ => (Vec4 1 1 1 1, Vec3 0 0 1)
|}.

Definition identity4 : mat4 :=
  Mat4 (Vec4 1 0 0 0) (Vec4 0 1 0 0) (Vec4 0 0 1 0) (Vec4 0 0 0 1).

Definition exampleFrame : FrameInfo :=
  mkFrameInfo identity4 identity4 identity4 identity4 (Vec4 1 1 1 1) (Vec2 0 0) 0.

Definition examplePc (depth : N) : RtxPushConstant :=
  mkRtxPushConstant 0 1000 depth NRD_REFERENCE 1 (-1) (-1) (0, 0)%Z.

Definition exampleUninit : Uninitialized :=
  mkUninitialized (mkShadingResult (splat3 0) (splat3 0) (splat3 0) (splat3 0) 0)
    diffuseMaterial (hitGeometry (flatHit 0)).

Definition examplePayload : HitPayload :=
  mkHitPayload 0 0 (splat3 0) (splat3 0) (splat3 0) (Vec3 0 0 (-1)) 1.
Definition examplePayloadNrd : HitPayloadNrd :=
  mkHitPayloadNrd 0 0 0 (splat3 0) (splat3 0) (Vec2 0 0) 0.
Definition exampleState : ShaderState :=
  mkShaderState examplePayload examplePayloadNrd [] [].

(** The locals of a camera ray along [-z] from the origin. *)
Definition startLocals : NrdRgen.PsrLocals :=
  NrdRgen.mkPsrLocals (splat3 0) (Vec3 0 0 (-1)) diffuseMaterial (hitGeometry (flatHit 0))
    false false 0 (splat3 1) (splat3 0) mat3_identity 0.

(** *** A denoiser instance with two pipelines *)

Definition exampleInstance : NRDWrapper.InstanceDesc :=
  NRDWrapper.mkInstanceDesc 64 0 0 0 0 2
    [NRDWrapper.mkPipelineDesc
       [NRDWrapper.mkResourceRangeDesc NRDWrapper.TEXTURE 0 2;
        NRDWrapper.mkResourceRangeDesc NRDWrapper.STORAGE_TEXTURE 0 1] true;
     NRDWrapper.mkPipelineDesc
       [NRDWrapper.mkResourceRangeDesc NRDWrapper.TEXTURE 0 1;
        NRDWrapper.mkResourceRangeDesc NRDWrapper.STORAGE_TEXTURE 0 1] false]
    [NRDWrapper.mkTextureDesc 27 1; NRDWrapper.mkTextureDesc 30 2]
    [NRDWrapper.mkTextureDesc 8 1; NRDWrapper.mkTextureDesc 17 4].

Definition exampleOffsets : NRDWrapper.SPIRVBindingOffsets :=
  NRDWrapper.mkSPIRVBindingOffsets 100 200 300 400.

Definition exampleAllocator : NRDWrapper.Allocator := NRDWrapper.mkAllocator [] 1.

Definition exampleUserPool (slot : N) : NRDWrapper.Texture :=
  NRDWrapper.mkTexture (1000 + slot) (2000 + slot).

Definition emptyWrapper : NRDWrapper.Wrapper :=
  NRDWrapper.mkWrapper [] [] exampleUserPool 0 [] 0 0 0.

(** The wrapper the constructor builds for a 1921 x 1080 image. *)
Definition exampleWrapper : NRDWrapper.Wrapper :=
  match NRDWrapper.construct exampleInstance 1921 1080 exampleUserPool exampleAllocator with
  | NRDWrapper.Done (w, _, _) => w
  | _ => emptyWrapper
  end.

(** A dispatch of pipeline 0; [second] is the kind its second resource
    reports, [unchanged] its constant-data flag. *)
Definition exampleDispatch (second : NRDWrapper.DescriptorType) (unchanged : bool)
  : NRDWrapper.DispatchDesc :=
  NRDWrapper.mkDispatchDesc
    [NRDWrapper.mkResourceDesc NRDWrapper.TEXTURE (NRDWrapper.UserResource 3) 0;
     NRDWrapper.mkResourceDesc second NRDWrapper.PERMANENT_POOL 0;
     NRDWrapper.mkResourceDesc NRDWrapper.STORAGE_TEXTURE NRDWrapper.TRANSIENT_POOL 1]
    [1; 2; 3; 4]%N 0 8 8 unchanged.

End Examples.

(** ** get_hit.glsl: the back-face flip of the normals *)

Module GetHit.

(** Returns the new [(N, G)] of the two [inout] parameters; the value of
    the function is the new [N]. *)
Definition adjustShadingNormalToRayDir (gl_WorldRayDirectionEXT N G : vec3) : vec3 * vec3 :=
  let V := vneg gl_WorldRayDirectionEXT in
  let G := if Qltb (dot G V) 0 then vneg G else G in
  let N := if Qltb (dot G N) 0 then vneg N else N in
  (N, G).

End GetHit.

(** ** Quantities the shaders compute in line *)

Module Signal.

Import HostDevice Shading.

(** The luminance the removal of fireflies compares with [maxLuminance]. *)
Definition luminance (v : vec3) : Q := dot v (Vec3 0.212671 0.715160 0.072169).

(** [factor * 0.99 + 0.01]: what the signals are divided by in nrd.rgen
    and multiplied with in the compositing shader. *)
Definition modulation (factor : vec3) : vec3 := vadds (vs factor 0.99) 0.01.

(** Every component of [v] lies between [lo] and [hi]. *)
Definition within (lo hi : Q) (v : vec3) : Prop :=
  (lo <= vx v <= hi) /\ (lo <= vy v <= hi) /\ (lo <= vz v <= hi).

Definition veq4 (a b : vec4) : Prop :=
  wx a == wx b /\ wy a == wy b /\ wz a == wz b /\ ww a == ww b.

End Signal.

(** ** The rays and the image stores of a shader invocation *)

Module Effects.

Import HostDevice Shading.

(** The computation stores nothing and traces at most [k] rays. *)
Definition traces {A} (k : nat) (c : M A) : Prop :=
  forall s,
    stores (snd (c s)) = stores s
    /\ exists rs, rays (snd (c s)) = rays s ++ rs /\ (length rs <= k)%nat.

(** The rays of one pixel: five primary rays, the shadow ray of the
    environment sample, and for each of the two lobes a ray and a shadow ray
    per bounce. *)
Definition rayBudget (pc : RtxPushConstant) : nat :=
  5 + 1 + 2 * (2 * (N.to_nat (maxDepth pc) - 1)).

Definition Image_eqb (a b : Image) : bool :=
  match a, b with
  | nrdDirectLighting, nrdDirectLighting | nrdObjectMotion, nrdObjectMotion
  | nrdNormalRoughness, nrdNormalRoughness | nrdViewZ, nrdViewZ
  | nrdUDiff, nrdUDiff | nrdUSpec, nrdUSpec
  | nrdBaseColorMetalness, nrdBaseColorMetalness => true
  | _, _ => false
  end.

(** The texel an image holds after the stores [st], if one of them wrote it. *)
Definition lastStore (img : Image) (st : list (Image * vec4)) : option vec4 :=
  fold_left (fun acc e => if Image_eqb (fst e) img then Some (snd e) else acc) st None.

(** The images a pixel that shows a surface is stored to, in program order,
    and those of a pixel that shows the background. *)
Definition surfaceImages : list Image :=
  [nrdViewZ; nrdNormalRoughness; nrdObjectMotion; nrdBaseColorMetalness; nrdDirectLighting;
   nrdUDiff; nrdUSpec].
Definition skyImages : list Image :=
  [nrdDirectLighting; nrdUDiff; nrdUSpec; nrdNormalRoughness; nrdViewZ].

(** The first five stores of a pixel that shows a surface: they do not
    depend on the lobes.  [l0] holds the camera ray, [l] the locals after the
    PSR loop. *)
Definition surfaceStores {lib : ShaderLib} (frameInfo : FrameInfo)
    (l0 l : NrdRgen.PsrLocals) : list (Image * vec4) :=
  let g_viewZ :=
    wz (mulM4V (view frameInfo)
          (vec4_of (vadd (NrdRgen.origin l0)
                      (vs (NrdRgen.direction l0) (NrdRgen.psrHitDist l))) 1.0)) in
  let m := NrdRgen.pbrMat l in
  let materialType :=
    if NrdRgen.isPsr l then NrdRgen.MATERIAL_ID_PSR
    else if Qeq_bool (metallic m) 1.0 then NrdRgen.MATERIAL_ID_METAL
         else NrdRgen.MATERIAL_ID_DEFAULT in
  let tintedEmissive :=
    vadd (vmul (emissive m) (NrdRgen.psrThroughput l)) (NrdRgen.psrDirectRadiance l) in
  [(nrdViewZ, splat4 g_viewZ);
   (nrdNormalRoughness,
    NRD_FrontEnd_PackNormalAndRoughness (mulMV (NrdRgen.psrMirror l) (matN m))
      (fsqrt (x2 (roughness m))) materialType);
   (nrdObjectMotion, splat4 0);
   (nrdBaseColorMetalness,
    vec4_of (toSrgb (vmul (baseColor m) (NrdRgen.psrThroughput l))) (metallic m));
   (nrdDirectLighting,
    vec4_of (vadd (splat3 0) (vadd (NrdRgen.psrDirectRadiance l) tintedEmissive)) 1)].

(** The contribution the miss shader of the path tracer reports for a ray
    of direction [dir] that was sampled with the density [pdf]. *)
Definition missContrib {lib : ShaderLib} {scene : Scene} (frameInfo : FrameInfo)
    (pdf : Q) (dir : vec3) : vec3 :=
  let env := hdrTexture (getSphericalUv (rotate dir (Vec3 0 1 0) (- envRotation frameInfo))) in
  vmul (sv (PathtraceMiss.powerHeuristic pdf (ww env)) (rgb env)) (rgb (clearColor frameInfo)).

(** The radiance after [n] iterations of an indirect loop that find the
    contribution [c] and the weight [w] each time. *)
Fixpoint accumulate (n : nat) (c w accum throughput : vec3) : vec3 :=
  match n with
  | O => accum
  | S n' => accumulate n' c w (vadd accum (vmul c throughput)) (vmul throughput w)
  end.

End Effects.

(** ** The temporal anti-aliasing compute shader *)

Module Taa.

Definition vmin (a b : vec3) : vec3 :=
  Vec3 (Qmin (vx a) (vx b)) (Qmin (vy a) (vy b)) (Qmin (vz a) (vz b)).
Definition vmax (a b : vec3) : vec3 :=
  Vec3 (Qmax (vx a) (vx b)) (Qmax (vy a) (vy b)) (Qmax (vz a) (vz b)).

(** [clamp(x, minVal, maxVal) = min(max(x, minVal), maxVal)] *)
Definition vclamp (v lo hi : vec3) : vec3 := vmin (vmax v lo) hi.

(** What [imageLoad] returns at each coordinate. *)
Definition Image2D : Type := Z * Z -> vec4.

Section WithImages.

Variable iImage0 : Image2D.
Variable oImage : Image2D.
Variable alpha : Q.

(** The body of the two loops over the neighbourhood. *)
Definition neighbour (fragCoord : Z * Z) (iy ix : Z) (acc : vec3 * vec3) : vec3 * vec3 :=
  if ((ix =? 0) && (iy =? 0))%Z then acc
  else
    let offsetUV := (fst fragCoord + ix, snd fragCoord + iy)%Z in
    let color := rgb (iImage0 offsetUV) in
    (vmin (fst acc) color, vmax (snd acc) color).

(** The neighbourhood minimum and maximum of this frame's render. *)
Definition neighbourhood (fragCoord : Z * Z) : vec3 * vec3 :=
  let center := rgb (iImage0 fragCoord) in
  fold_left
    (fun acc iy => fold_left (fun acc ix => neighbour fragCoord iy ix acc) [-1; 0; 1]%Z acc)
    [-1; 0; 1]%Z (center, center).

Definition TAA (fragCoord : Z * Z) : vec3 :=
  let center := rgb (iImage0 fragCoord) in
  let (minColor, maxColor) := neighbourhood fragCoord in
  let old := rgb (oImage fragCoord) in
  let old := vclamp old minColor maxColor in
  mix3 old center alpha.

(** The value stored to [oImage], or [None] outside the image. *)
Definition main (imgSize fragCoord : Z * Z) : option vec4 :=
  if ((fst imgSize <=? fst fragCoord) || (snd imgSize <=? snd fragCoord))%Z then None
  else Some (vec4_of (TAA fragCoord) 0).

End WithImages.

End Taa.

(** ** The host: the compute grid and the sub-pixel jitter *)

Module Host.

Definition GRID_SIZE : Z := 16.

(** [getGridSize] of host_device.h, in 32-bit unsigned arithmetic *)
Definition getGridSize (size : Z * Z) : Z * Z :=
  (NRDWrapper.u32 (fst size + (GRID_SIZE - 1)) / GRID_SIZE,
   NRDWrapper.u32 (snd size + (GRID_SIZE - 1)) / GRID_SIZE)%Z.

(** C's [fmod]: the remainder of the division truncated towards zero. *)
Definition Qtrunc (x : Q) : Z := if Qle_bool 0 x then Qfloor x else Qceiling x.
Definition fmod (x y : Q) : Q := x - y * inject_Z (Qtrunc (x / y)).
Definition floorf (x : Q) : Q := inject_Z (Qfloor x).

(** The [while] of [halton]; [None] when the fuel runs out. *)
Fixpoint haltonLoop (fuel : nat) (coprimes s : vec2) (a : vec4) : option vec4 :=
  match fuel with
  | O => None
  | S fuel' =>
      if Qltb 0 (x2 s) && Qltb 0 (y2 s) then
        let ax := wx a / x2 coprimes in
        let ay := wy a / y2 coprimes in
        let az := wz a + ax * fmod (x2 s) (x2 coprimes) in
        let aw := ww a + ay * fmod (y2 s) (y2 coprimes) in
        let sx := floorf (x2 s / x2 coprimes) in
        let sy := floorf (y2 s / y2 coprimes) in
        haltonLoop fuel' coprimes (Vec2 sx sy) (Vec4 ax ay az aw)
      else Some a
  end.

Definition halton (fuel : nat) (index : Z) : option vec2 :=
  let coprimes := Vec2 2.0 3.0 in
  let s := Vec2 (inject_Z index) (inject_Z index) in
  let a := Vec4 1 1 0 0 in
  match haltonLoop fuel coprimes s a with
  | Some a => Some (Vec2 (wz a) (ww a))
  | None => None
  end.

(** [m_frameInfo.jitter = halton(m_frame) - vec2(0.5)] *)
Definition frameJitter (fuel : nat) (m_frame : Z) : option vec2 :=
  match halton fuel m_frame with
  | Some h => Some (Vec2 (x2 h - 0.5) (y2 h - 0.5))
  | None => None
  end.

End Host.

(** ** NRDWrapper: the bindings of the set layouts and of a dispatch *)

Module NRDLayout.

Import NRDWrapper.

(** A [VkDescriptorSetLayoutBinding] of [createPipelines], with the set
    whose layout it is put into. *)
Record LayoutBinding := mkLayoutBinding {
  layoutSet : N;
  binding : N;
  bindingType : VkDescriptorType
}.

(** [numPipelineSets] of [createPipelines] *)
Definition numPipelineSets (iDesc : InstanceDesc) : N :=
  let '(_, sSet, rSet, _) := createPipelines iDesc 0 in
  (N.max sSet rSet + 1)%N.

(** The bindings [createPipelines] prepares for one pipeline: the samplers
    and the constant buffer go to the set of the constant buffer, the
    descriptors of the resource ranges to the set of the resources. *)
Definition samplerBindings (iDesc : InstanceDesc) (lDesc : SPIRVBindingOffsets)
  : list LayoutBinding :=
  map (fun s => mkLayoutBinding 0 (u32N (samplerOffset lDesc + N.of_nat s))
                  VK_DESCRIPTOR_TYPE_SAMPLER)
      (seq 0 (N.to_nat (samplersNum iDesc))).

Definition constantBinding (lDesc : SPIRVBindingOffsets) (pDesc : PipelineDesc)
  : list LayoutBinding :=
  if hasConstantData pDesc
  then [mkLayoutBinding 0 (constantBufferOffset lDesc) VK_DESCRIPTOR_TYPE_UNIFORM_BUFFER]
  else [].

Definition rangeBindings (lDesc : SPIRVBindingOffsets) (rSet : N) (range : ResourceRangeDesc)
  : list LayoutBinding :=
  map (fun b =>
         match rangeDescriptorType range with
         | TEXTURE =>
             mkLayoutBinding rSet
               (u32N (textureOffset lDesc + baseRegisterIndex range + N.of_nat b))
               VK_DESCRIPTOR_TYPE_SAMPLED_IMAGE
         | STORAGE_TEXTURE =>
             mkLayoutBinding rSet
               (u32N (storageTextureAndBufferOffset lDesc + baseRegisterIndex range
                      + N.of_nat b))
               VK_DESCRIPTOR_TYPE_STORAGE_IMAGE
         end)
      (seq 0 (N.to_nat (descriptorsNum range))).

Definition layoutBindings (iDesc : InstanceDesc) (lDesc : SPIRVBindingOffsets)
    (pDesc : PipelineDesc) : list LayoutBinding :=
  let '(_, _, rSet, _) := createPipelines iDesc 0 in
  samplerBindings iDesc lDesc ++ constantBinding lDesc pDesc
  ++ flat_map (rangeBindings lDesc rSet) (resourceRanges pDesc).

(** *** What a dispatch records, read off its loops *)

Definition rangeBaseBindingIndex (lDesc : SPIRVBindingOffsets) (r : ResourceRangeDesc) : N :=
  if isStorage r then storageTextureAndBufferOffset lDesc else textureOffset lDesc.

(** The descriptor writes of the resource ranges; [n] is the number of
    updates before them. *)
Fixpoint resourceWrites (lDesc : SPIRVBindingOffsets) (ranges : list ResourceRangeDesc)
    (n : nat) : list WriteDescriptorSet :=
  match ranges with
  | [] => []
  | r :: rest =>
      map (fun d => mkWriteDescriptorSet (u32N (rangeBaseBindingIndex lDesc r + N.of_nat d)) 1
                      (NRDDescriptorTypeToVulkan (rangeDescriptorType r)) (Some (n + d)%nat)
                      None)
          (seq 0 (N.to_nat (descriptorsNum r)))
      ++ resourceWrites lDesc rest (n + N.to_nat (descriptorsNum r))
  end.

Definition samplerWrites (iDesc : InstanceDesc) (lDesc : SPIRVBindingOffsets) (n : nat)
  : list WriteDescriptorSet :=
  map (fun s => mkWriteDescriptorSet
                  (u32N (samplerOffset lDesc + samplersBaseRegisterIndex iDesc + N.of_nat s)) 1
                  VK_DESCRIPTOR_TYPE_SAMPLER (Some (n + s)%nat) None)
      (seq 0 (N.to_nat (samplersNum iDesc))).

Definition expectedWrites (w : Wrapper) (iDesc : InstanceDesc) (lDesc : SPIRVBindingOffsets)
    (pDesc : PipelineDesc) : list WriteDescriptorSet :=
  let rw := resourceWrites lDesc (resourceRanges pDesc) 0 in
  rw ++ samplerWrites iDesc lDesc (length rw)
  ++ (if hasConstantData pDesc then [constantBufferWrite w lDesc] else []).

(** The barrier of a descriptor of kind [k] bound to texture [t]. *)
Definition barrierOf (k : DescriptorType) (t : Texture) : ImageMemoryBarrier :=
  match k with
  | STORAGE_TEXTURE => transitionToShaderWrite (image t)
  | TEXTURE => transitionToShaderRead (image t)
  end.

Definition imageInfoOf (t : Texture) : DescriptorImageInfo :=
  mkDescriptorImageInfo (imageView t) VK_IMAGE_LAYOUT_GENERAL.

(** The textures of the first resources of a dispatch, one per declared
    descriptor. *)
Fixpoint lookupTextures (w : Wrapper) (rs : list ResourceDesc) : Outcome (list Texture) :=
  match rs with
  | [] => Done []
  | r :: rest =>
      obind (lookupTexture w r) (fun t =>
      obind (lookupTextures w rest) (fun ts => Done (t :: ts)))
  end.

(** The total number of descriptors of the ranges, without wrap-around. *)
Definition totalDescriptors (ranges : list ResourceRangeDesc) : N :=
  fold_right (fun r n => (descriptorsNum r + n)%N) 0%N ranges.

(** The pipeline data of the wrapper is what [createPipelines] computes
    for the instance. *)
Definition pipelinesOf (w : Wrapper) (iDesc : InstanceDesc) : Prop :=
  exists handle0,
    createPipelines iDesc handle0
    = (m_constantBufferSetIndex w, m_samplersSetIndex w, m_resourcesSetIndex w, m_pipelines w).

(** The three kinds of descriptors share one register space. *)
Definition sharedSpace (iDesc : InstanceDesc) : bool :=
  ((constantBufferSpaceIndex iDesc =? samplersSpaceIndex iDesc)
   && (resourcesSpaceIndex iDesc =? constantBufferSpaceIndex iDesc))%N.

(** The commands after the upload of the constants. *)
Definition dispatchCmds (pipe : NRDPipeline) (w : Wrapper) (dispatchDesc : DispatchDesc)
    (barriers : list ImageMemoryBarrier) (writes : list WriteDescriptorSet)
    (infos : list DescriptorImageInfo) : list Cmd :=
  [CmdImageBarriers VK_PIPELINE_STAGE_COMPUTE_SHADER_BIT VK_PIPELINE_STAGE_COMPUTE_SHADER_BIT
     barriers;
   CmdPushDescriptorSet (pipelineLayout pipe) (m_resourcesSetIndex w) writes infos;
   CmdBindPipeline (pipeline pipe);
   CmdDispatch (gridWidth dispatchDesc) (gridHeight dispatchDesc) 1].

(** The grids of the [vkCmdDispatch] commands and the pipelines of the
    [vkCmdBindPipeline] commands, in the order they were recorded. *)
Definition gridsOf (cmds : list Cmd) : list (N * N * N) :=
  flat_map (fun c => match c with CmdDispatch x y z => [(x, y, z)] | _ => [] end) cmds.

Definition boundPipelines (cmds : list Cmd) : list N :=
  flat_map (fun c => match c with CmdBindPipeline p => [p] | _ => [] end) cmds.

(** The binding number and the descriptor type of a write and of a
    layout binding. *)
Definition writeKey (u : WriteDescriptorSet) : N * VkDescriptorType :=
  (dstBinding u, writeDescriptorType u).
Definition bindingKey (b : LayoutBinding) : N * VkDescriptorType :=
  (binding b, bindingType b).

(** Does the dispatch upload its constant data?  Read off the pipeline
    its index selects. *)
Definition uploadsOf (iDesc : InstanceDesc) (d : DispatchDesc) : bool :=
  match nth_error (pipelines iDesc) (N.to_nat (pipelineIndex d)) with
  | Some pDesc => uploads pDesc d
  | None => false
  end.

(** The contents of the constant buffer after the dispatches [ds]. *)
Definition bufferAfter (iDesc : InstanceDesc) (ds : list DispatchDesc) (contents : list N)
  : list N :=
  fold_left (fun c d => if uploadsOf iDesc d then updateBuffer c (constantBufferData d) else c)
    ds contents.

(** The format of a pool descriptor is outside NRD's format enumeration. *)
Definition unknownFormat (d : TextureDesc) : Prop :=
  (length g_NRDFormatToVkFormat <= N.to_nat (format d))%nat.

(** The downsample factor of a pool descriptor is 0, or a 16-bit number
    that is not 0. *)
Definition zeroFactor (d : TextureDesc) : Prop := downsampleFactor d = 0%Z.
Definition positiveFactor (d : TextureDesc) : Prop := (0 < downsampleFactor d < 2 ^ 16)%Z.

End NRDLayout.

(** ** More instances on which the models are run *)

Module MoreExamples.

Import RayCommon HostDevice Shading Shaders NrdGlsl Examples.

Definition skyLib : ShaderLib := exampleLib true false.
Definition skyScene : Scene := exampleScene None diffuseMaterial.
Definition surfaceScene : Scene := exampleScene (Some 2) diffuseMaterial.
(** A mirror that faces the camera: the rays that go up the z axis hit it
    at distance 2, the others leave the scene. *)
Definition mirrorScene : Scene := {|
  GltfShadeMaterial := unit;
  intersect := fun _ _ _ d _ => if Qltb 0 (vz d) then Some (flatHit 2) else None;
  materialOf := fun _ => tt;
  evaluateMaterial := fun _ _ _ _ _ => mirrorMaterial;
  hdrTexture := fun _ => Vec4 1 1 1 1;
  environmentSample := fun _ => (Vec4 1 1 1 1, Vec3 0 0 1)
|}.

(** One pixel of a 4 x 4 launch that shows the background, and one that
    shows a diffuse surface at distance 2. *)
Definition skyRun : option unit * ShaderState :=
  NrdRgen.main (lib := skyLib) (scene := skyScene) exampleFrame (examplePc 2) exampleUninit 5
    (0, 0)%N (4, 4)%N exampleState.
Definition surfaceRun : option unit * ShaderState :=
  NrdRgen.main (lib := skyLib) (scene := surfaceScene) exampleFrame (examplePc 2) exampleUninit
    5 (0, 0)%N (4, 4)%N exampleState.

(** The camera ray of that pixel and the PSR loop on it. *)
Definition cameraLocals : NrdRgen.PsrLocals :=
  NrdRgen.primaryLocals (lib := skyLib) exampleFrame exampleUninit (0, 0)%N (4, 4)%N.
Definition psrRun (scene : Scene) : option NrdRgen.PsrLocals * ShaderState :=
  NrdRgen.psrLoop (lib := skyLib) (scene := scene) exampleFrame (examplePc 2) exampleUninit 5
    cameraLocals (NrdRgen.seeded (lib := skyLib) (examplePc 2) (0, 0)%N exampleState).
Definition localsOf (r : option NrdRgen.PsrLocals * ShaderState) : NrdRgen.PsrLocals :=
  match fst r with Some l => l | None => startLocals end.

(** The texels the compositing shader reads when the images hold what the
    run stored last, and zeros where it stored nothing. *)
Definition texelsOf (st : list (Image * vec4)) : Compositing.Texels :=
  let texel img := match Effects.lastStore img st with Some v => v | None => splat4 0 end in
  Compositing.mkTexels (texel nrdDirectLighting) (texel nrdUDiff) (texel nrdUSpec)
    (texel nrdBaseColorMetalness) (texel nrdNormalRoughness) (texel nrdViewZ).

(** A camera at the origin with a projection whose inverse gives every
    pixel the depth -1. *)
Definition depthFrame : FrameInfo :=
  mkFrameInfo identity4 identity4 identity4
    (Mat4 (Vec4 1 0 0 0) (Vec4 0 1 0 0) (Vec4 0 0 1 0) (Vec4 0 0 (-1) 1))
    (Vec4 1 1 1 1) (Vec2 0 0) 0.

(** The example instance with the samplers in a register space of their
    own, and the wrapper the constructor builds for it. *)
Definition separateInstance : NRDWrapper.InstanceDesc :=
  NRDWrapper.mkInstanceDesc 64 0 1 0 0 2 (NRDWrapper.pipelines exampleInstance)
    (NRDWrapper.permanentPool exampleInstance) (NRDWrapper.transientPool exampleInstance).

(** The example instance with a transient texture whose downsample factor
    is 0. *)
Definition zeroFactorInstance : NRDWrapper.InstanceDesc :=
  NRDWrapper.mkInstanceDesc 64 0 0 0 0 2 (NRDWrapper.pipelines exampleInstance)
    (NRDWrapper.permanentPool exampleInstance)
    [NRDWrapper.mkTextureDesc 8 1; NRDWrapper.mkTextureDesc 17 0].

Definition separateWrapper : NRDWrapper.Wrapper :=
  match NRDWrapper.construct separateInstance 1921 1080 exampleUserPool exampleAllocator with
  | NRDWrapper.Done (w, _, _) => w
  | _ => emptyWrapper
  end.

Definition firstPipeline : NRDWrapper.PipelineDesc :=
  NRDWrapper.mkPipelineDesc
    [NRDWrapper.mkResourceRangeDesc NRDWrapper.TEXTURE 0 2;
     NRDWrapper.mkResourceRangeDesc NRDWrapper.STORAGE_TEXTURE 0 1] true.

(** The textures of the three resources of the example dispatch. *)
Definition exampleTextures : list NRDWrapper.Texture :=
  match NRDLayout.lookupTextures exampleWrapper
          (NRDWrapper.resources (exampleDispatch NRDWrapper.TEXTURE false)) with
  | NRDWrapper.Done ts => ts
  | _ => []
  end.

(** The commands of the example dispatch. *)
Definition exampleCommands : list NRDWrapper.Cmd :=
  match NRDWrapper.dispatch exampleWrapper exampleInstance exampleOffsets
          (exampleDispatch NRDWrapper.TEXTURE false) with
  | NRDWrapper.Done c => c
  | _ => []
  end.

(** The commands of a [denoise] of two dispatches, the second of which
    says that its constants match those of the first. *)
Definition exampleDenoise : list NRDWrapper.Cmd :=
  match NRDWrapper.denoise exampleWrapper exampleInstance exampleOffsets
          [exampleDispatch NRDWrapper.TEXTURE false; exampleDispatch NRDWrapper.TEXTURE true] with
  | NRDWrapper.Done c => c
  | _ => []
  end.

End MoreExamples.

(** * Properties *)

(** ** Vector algebra *)

Module GlslFacts.

Import RayCommon.

Ltac vunfold :=
  cbv beta iota delta [veq meq mulMV mulMM buildMirrorMatrix reflect dot vadd vsub vmul vneg
                       vdiv vadds sv vs splat3 vx vy vz col0 col1 col2 transpose mat3_identity].

Lemma veq_refl (a : vec3) : veq a a.
Proof. unfold veq. repeat split; reflexivity. Qed.

Lemma eq_mod_unit (s lhs rhs k : Q) : s == 1 -> lhs == rhs + k * (s - 1) -> lhs == rhs.
Proof. intros H E. rewrite E, H. ring. Qed.

Lemma mulMM_assoc_vec (P M : mat3) (v : vec3) :
  veq (mulMV (mulMM P M) v) (mulMV P (mulMV M v)).
Proof.
  destruct P as [[] [] []], M as [[] [] []], v. vunfold.
  refine (conj _ (conj _ _)); ring.
Qed.

Lemma dot_compat (a a' b b' : vec3) : veq a a' -> veq b b' -> dot a b == dot a' b'.
Proof.
  destruct a, a', b, b'. vunfold. intros (H1 & H2 & H3) (H4 & H5 & H6).
  rewrite H1, H2, H3, H4, H5, H6. reflexivity.
Qed.

Lemma mulMV_compat (P : mat3) (a a' : vec3) : veq a a' -> veq (mulMV P a) (mulMV P a').
Proof.
  destruct P as [[] [] []], a, a'. vunfold. intros (H1 & H2 & H3).
  rewrite H1, H2, H3. refine (conj _ (conj _ _)); reflexivity.
Qed.

Lemma mirror_is_reflect (n d : vec3) : veq (mulMV (buildMirrorMatrix n) d) (reflect d n).
Proof. destruct n, d. vunfold. refine (conj _ (conj _ _)); ring. Qed.

Lemma mirror_symmetric_dot (n v w : vec3) :
  dot (mulMV (buildMirrorMatrix n) v) w == dot v (mulMV (buildMirrorMatrix n) w).
Proof. destruct n, v, w. vunfold. ring. Qed.

Lemma mirror_involution (n : vec3) :
  dot n n == 1 -> meq (mulMM (buildMirrorMatrix n) (buildMirrorMatrix n)) mat3_identity.
Proof.
  destruct n as [a b c]. vunfold. intros H.
  refine (conj (conj _ (conj _ _)) (conj (conj _ (conj _ _)) (conj _ (conj _ _)))).
  - apply (eq_mod_unit _ _ _ (4 * a * a) H); ring.
  - apply (eq_mod_unit _ _ _ (4 * a * b) H); ring.
  - apply (eq_mod_unit _ _ _ (4 * a * c) H); ring.
  - apply (eq_mod_unit _ _ _ (4 * a * b) H); ring.
  - apply (eq_mod_unit _ _ _ (4 * b * b) H); ring.
  - apply (eq_mod_unit _ _ _ (4 * b * c) H); ring.
  - apply (eq_mod_unit _ _ _ (4 * a * c) H); ring.
  - apply (eq_mod_unit _ _ _ (4 * b * c) H); ring.
  - apply (eq_mod_unit _ _ _ (4 * c * c) H); ring.
Qed.

Lemma mirror_isometry (n v w : vec3) :
  dot n n == 1 ->
  dot (mulMV (buildMirrorMatrix n) v) (mulMV (buildMirrorMatrix n) w) == dot v w.
Proof.
  destruct n as [a b c], v as [v1 v2 v3], w as [w1 w2 w3]. vunfold. intros H.
  apply (eq_mod_unit _ _ _ (4 * (a * v1 + b * v2 + c * v3) * (a * w1 + b * w2 + c * w3)) H).
  ring.
Qed.

Lemma identity_mulMV (v : vec3) : veq (mulMV mat3_identity v) v.
Proof. destruct v. vunfold. refine (conj _ (conj _ _)); ring. Qed.

End GlslFacts.

(** ** The power heuristic *)

Module PowerHeuristicFacts.

Import PathtraceMiss.

(** C7: [powerHeuristic a b] is [a^2 / (a^2 + b^2)]; it is 1/2 for equal
    positive PDFs, 0 for a vanishing first PDF and 1 for a vanishing second
    one; the two weights of a pair of PDFs add up to 1, and the weight of
    the first strategy is at most [a^2 / b^2], so that it goes to 0 with
    [a] while the weight of the other strategy goes to 1. *)
Theorem powerHeuristic_weight (a b p : Q) (Ha : 0 < a) (Hb : 0 < b) (Hp : 0 < p) :
  powerHeuristic a b == (a * a) / (a * a + b * b)
  /\ powerHeuristic p p == 1 / 2
  /\ powerHeuristic 0 b == 0
  /\ powerHeuristic a 0 == 1
  /\ powerHeuristic a b + powerHeuristic b a == 1
  /\ 0 <= powerHeuristic a b
  /\ powerHeuristic a b <= (a * a) / (b * b).
Proof.
  unfold powerHeuristic; cbv zeta.
  assert (Haa : 0 < a * a) by nra.
  assert (Hbb : 0 < b * b) by nra.
  assert (Hpp : 0 < p * p) by nra.
  refine (conj _ (conj _ (conj _ (conj _ (conj _ (conj _ _)))))).
  - field. nra.
  - field. nra.
  - field. nra.
  - field. nra.
  - field; repeat split; nra.
  - apply Qle_shift_div_l; nra.
  - apply Qle_shift_div_r; [nra|].
    setoid_replace (a * a / (b * b) * (b * b + a * a))
      with (a * a + (a * a) * (a * a) / (b * b)) by (field; nra).
    assert (0 <= (a * a) * (a * a) / (b * b)) by (apply Qle_shift_div_l; nra).
    nra.
Qed.

Lemma powerHeuristic_weight_witness :
  powerHeuristic 3 3 == 1 / 2 /\ powerHeuristic 0 2 == 0 /\ powerHeuristic 1 0 == 1.
Proof.
  assert (H1 : 0 < 1) by reflexivity.
  assert (H2 : 0 < 2) by reflexivity.
  assert (H3 : 0 < 3) by reflexivity.
  destruct (powerHeuristic_weight 1 2 3 H1 H2 H3) as (_ & E1 & E2 & E3 & _).
  exact (conj E1 (conj E2 E3)).
Defined.

End PowerHeuristicFacts.

Module PsrFacts.

Import RayCommon HostDevice Shading Shaders NrdGlsl NrdRgen GlslFacts.

Ltac munfold :=
  cbv beta iota delta [bind ret getPayload setPayload getPayloadNrd setPayloadNrd imageStore
                       logRay fst snd].

Section WithScene.

Context {lib : ShaderLib} {scene : Scene}.
Variable frameInfo : FrameInfo.
Variable pc : RtxPushConstant.
Variable uninit : Uninitialized.

Lemma rand3_payload_effect (s : ShaderState) :
  exists xi sd,
    rand3_payload s
    = (xi, mkShaderState (set_seed sd (payload s)) (payloadNrd s) (stores s) (rays s)).
Proof.
  unfold rand3_payload. munfold. destruct (rand3 (seed (payload s))) as [xi sd].
  exists xi, sd. reflexivity.
Qed.

Lemma trace_primary_effect (l : PsrLocals) (s : ShaderState) :
  let s' := snd (trace frameInfo pc uninit rayFlags SBTOFFSET_NRD MISSINDEX_NRD
                   (origin l) 0.01 (direction l) 1e32 PAYLOAD_NRD s) in
  stores s' = stores s /\ rays s' = rays s ++ [primaryRay l] /\ payload s' = payload s.
Proof.
  unfold trace, traceRayEXT, closestHitTable, nrd_rchit_main, nrd_rmiss_main. munfold.
  simpl. destruct (intersect _ _ _ _ _); simpl; auto.
Qed.

(** One iteration of the PSR loop: what it does to the locals in each of
    its three branches. *)
Lemma psrBody_cases (l : PsrLocals) (s : ShaderState) :
  exists l' step s',
    psrBody frameInfo pc uninit l s = ((l', step), s')
    /\ psrDepth l' = psrDepth l
    /\ stores s' = stores s
    /\ rays s' = rays s ++ [primaryRay l]
    /\ ((step = Break /\ hitSky l' = true
         /\ Qeq_bool (nrdHitT (payloadNrd s')) NRD_INF = true
         /\ psrDirectRadiance l'
            = vadd (psrDirectRadiance l)
                (vmul (psrThroughput l) (normal_envmapRadiance (payloadNrd s')))
         /\ psrThroughput l' = psrThroughput l
         /\ isPsr l' = isPsr l /\ psrMirror l' = psrMirror l
         /\ direction l' = direction l)
        \/ (step = Break /\ hitSky l' = false /\ notMirror (pbrMat l') = true
            /\ isPsr l' = isPsr l /\ psrMirror l' = psrMirror l
            /\ direction l' = direction l)
        \/ (step = Continue /\ hitSky l' = false /\ notMirror (pbrMat l') = false
            /\ isPsr l' = true
            /\ psrMirror l' = mulMM (psrMirror l) (buildMirrorMatrix (matN (pbrMat l')))
            /\ direction l' = reflect (direction l) (matN (pbrMat l'))
            /\ pbrMat l' = fst (buildHitInfo pc (payloadNrd s') (origin l) (direction l)))).
Proof.
  unfold psrBody. munfold.
  pose proof (trace_primary_effect l
    (mkShaderState (payload s)
       (mkHitPayloadNrd (renderNodeIndex (payloadNrd s)) (renderPrimIndex (payloadNrd s)) 0
          (tangent (payloadNrd s)) (normal_envmapRadiance (payloadNrd s))
          (RayCommon.uv (payloadNrd s)) (bitangentSign (payloadNrd s)))
       (stores s) (rays s))) as Ht.
  cbv zeta in Ht.
  destruct (trace frameInfo pc uninit rayFlags SBTOFFSET_NRD MISSINDEX_NRD (origin l) 0.01
              (direction l) 1e32 PAYLOAD_NRD _) as [u s1].
  simpl in Ht. destruct Ht as (Hst & Hr & Hp).
  destruct (Qeq_bool (nrdHitT (payloadNrd s1)) NRD_INF) eqn:Hsky.
  - do 3 eexists. split; [reflexivity|]. simpl.
    repeat (split; [assumption || reflexivity|]). left.
    repeat (split; [assumption || reflexivity|]). reflexivity.
  - destruct (buildHitInfo pc (payloadNrd s1) (origin l) (direction l)) as [m hs] eqn:Hb.
    destruct (notMirror m) eqn:Hm.
    + do 3 eexists. split; [reflexivity|]. simpl.
      repeat (split; [assumption || reflexivity|]). right; left.
      repeat (split; [assumption || reflexivity|]). reflexivity.
    + destruct (rand3_payload_effect s1) as (xi & sd & E). rewrite E.
      do 3 eexists. split; [reflexivity|]. simpl.
      repeat (split; [assumption || reflexivity|]). right; right.
      repeat (split; [assumption || reflexivity|]).
      change (m = fst (buildHitInfo pc (payloadNrd s1) (origin l) (direction l))).
      rewrite Hb. reflexivity.
Qed.

Lemma psrLoop_S (fuel : nat) (l : PsrLocals) (s : ShaderState) :
  psrLoop frameInfo pc uninit (S fuel) l s
  = let '((l1, step), s1) := psrBody frameInfo pc uninit l s in
    match step with
    | Break => (Some l1, s1)
    | Continue =>
        if (psrDepth l1 + 1 <? 5)%Z then psrLoop frameInfo pc uninit fuel (incrDepth l1) s1
        else (Some (incrDepth l1), s1)
    end.
Proof.
  simpl. unfold bind. destruct (psrBody frameInfo pc uninit l s) as [[l1 step] s1].
  destruct step; [reflexivity|].
  destruct (psrDepth l1 + 1 <? 5)%Z; reflexivity.
Qed.

Lemma psrLoop_more_fuel (fuel : nat) :
  forall l s l' s',
    psrLoop frameInfo pc uninit fuel l s = (Some l', s') ->
    psrLoop frameInfo pc uninit (S fuel) l s = (Some l', s').
Proof.
  induction fuel as [|fuel IH]; intros l s l' s' H.
  - discriminate H.
  - rewrite psrLoop_S in H. rewrite psrLoop_S.
    destruct (psrBody frameInfo pc uninit l s) as [[l1 step] s1].
    destruct step; [exact H|].
    destruct (psrDepth l1 + 1 <? 5)%Z; [|exact H].
    apply IH. exact H.
Qed.

Lemma psrLoop_fuel_le (fuel fuel' : nat) l s l' s' :
  (fuel <= fuel')%nat ->
  psrLoop frameInfo pc uninit fuel l s = (Some l', s') ->
  psrLoop frameInfo pc uninit fuel' l s = (Some l', s').
Proof.
  induction 1 as [|n Hle IH]; intros H; [exact H|].
  apply psrLoop_more_fuel, IH, H.
Qed.

Lemma psrLoop_runs (fuel : nat) :
  forall l s,
    (0 <= psrDepth l < 5)%Z -> (5 - psrDepth l <= Z.of_nat fuel)%Z ->
    exists l' s' rs,
      psrLoop frameInfo pc uninit fuel l s = (Some l', s')
      /\ (psrDepth l <= psrDepth l' <= 5)%Z
      /\ stores s' = stores s
      /\ rays s' = rays s ++ rs /\ nrdRays rs
      /\ match psrExit l' with
         | ExitDepthBound =>
             psrDepth l' = 5%Z /\ isPsr l' = true
             /\ Z.of_nat (length rs) = (5 - psrDepth l)%Z
         | _ => (psrDepth l' < 5)%Z
                /\ Z.of_nat (length rs) = (psrDepth l' - psrDepth l + 1)%Z
         end.
Proof.
  induction fuel as [|fuel IH]; intros l s Hd Hf.
  - lia.
  - rewrite psrLoop_S.
    destruct (psrBody_cases l s) as (l1 & step & s1 & E & Hdep & Hst & Hr & Hc).
    rewrite E.
    assert (Hray : nrdRays [primaryRay l]) by (constructor; [reflexivity|constructor]).
    destruct Hc as [(-> & Hsky & _) | [(-> & Hsky & Hm & _) | (-> & Hsky & Hm & Hpsr & _)]].
    + exists l1, s1, [primaryRay l]. unfold psrExit. rewrite Hsky. cbn [length].
      repeat split; try assumption; lia.
    + exists l1, s1, [primaryRay l]. unfold psrExit. rewrite Hsky, Hm. cbn [length].
      repeat split; try assumption; lia.
    + destruct (psrDepth l1 + 1 <? 5)%Z eqn:Hlt.
      * apply Z.ltb_lt in Hlt.
        destruct (IH (incrDepth l1) s1) as (l' & s' & rs & E' & Hd' & Hst' & Hr' & Hn' & Hx).
        { cbn [psrDepth incrDepth]. lia. }
        { cbn [psrDepth incrDepth]. lia. }
        exists l', s', (primaryRay l :: rs). cbn [psrDepth incrDepth] in Hd', Hx.
        split; [exact E'|]. split; [lia|]. split; [congruence|].
        split; [rewrite Hr', Hr, <- app_assoc; reflexivity|].
        split; [constructor; [reflexivity|exact Hn']|].
        destruct (psrExit l'); cbn [length]; rewrite Nat2Z.inj_succ.
        all: repeat split; try tauto; lia.
      * apply Z.ltb_ge in Hlt.
        exists (incrDepth l1), s1, [primaryRay l]. unfold psrExit.
        cbn [psrDepth incrDepth hitSky pbrMat isPsr length].
        rewrite Hsky, Hm.
        repeat split; try assumption; lia.
Qed.

(** A property of the locals that every iteration keeps holds when the
    loop ends. *)
Lemma psrLoop_invariant (I : PsrLocals -> Prop) :
  (forall l s, I l -> I (fst (fst (psrBody frameInfo pc uninit l s)))) ->
  (forall l, I l -> I (incrDepth l)) ->
  forall fuel l s l' s',
    I l -> psrLoop frameInfo pc uninit fuel l s = (Some l', s') -> I l'.
Proof.
  intros Hbody Hincr. induction fuel as [|fuel IH]; intros l s l' s' Hl H.
  - discriminate H.
  - rewrite psrLoop_S in H. specialize (Hbody l s Hl).
    destruct (psrBody frameInfo pc uninit l s) as [[l1 step] s1]. simpl in Hbody.
    destruct step.
    + inversion H; subst. exact Hbody.
    + destruct (psrDepth l1 + 1 <? 5)%Z.
      * eapply IH; [|exact H]. apply Hincr, Hbody.
      * inversion H; subst. apply Hincr, Hbody.
Qed.

(** Without a mirror on the way, [psrMirror] is still the identity. *)
Lemma psrLoop_no_mirror (fuel : nat) l s l' s' :
  (isPsr l = false -> psrMirror l = mat3_identity) ->
  psrLoop frameInfo pc uninit fuel l s = (Some l', s') ->
  isPsr l' = false -> psrMirror l' = mat3_identity.
Proof.
  intros Hl H.
  refine (psrLoop_invariant (fun l => isPsr l = false -> psrMirror l = mat3_identity)
            _ _ fuel l s l' s' Hl H).
  - clear. intros l s Hl.
    destruct (psrBody_cases l s) as (l1 & step & s1 & E & _ & _ & _ & Hc). rewrite E. simpl.
    destruct Hc as [(_ & _ & _ & _ & _ & Hp & Hm & _) | [(_ & _ & _ & Hp & Hm & _) | Hc]].
    + rewrite Hp, Hm. exact Hl.
    + rewrite Hp, Hm. exact Hl.
    + destruct Hc as (_ & _ & _ & Hp & _). rewrite Hp. discriminate.
  - intros l0 Hl0. exact Hl0.
Qed.

(** [psrMirror] carries the virtual world back to the world of the camera
    ray: the product of a vector with the direction the loop has reached
    is the product of its image with the direction the loop started from. *)
Lemma psrLoop_mirror_direction (d0 : vec3) (fuel : nat) l s l' s' :
  (forall v, dot (mulMV (psrMirror l) v) d0 == dot v (direction l)) ->
  psrLoop frameInfo pc uninit fuel l s = (Some l', s') ->
  forall v, dot (mulMV (psrMirror l') v) d0 == dot v (direction l').
Proof.
  intros Hl H.
  refine (psrLoop_invariant
            (fun l => forall v, dot (mulMV (psrMirror l) v) d0 == dot v (direction l))
            _ _ fuel l s l' s' Hl H).
  - clear -d0. intros l s Hl v.
    destruct (psrBody_cases l s) as (l1 & step & s1 & E & _ & _ & _ & Hc). rewrite E. simpl.
    destruct Hc as [(_ & _ & _ & _ & _ & _ & Hm & Hd) | [(_ & _ & _ & _ & Hm & Hd) | Hc]].
    + rewrite Hm, Hd. apply Hl.
    + rewrite Hm, Hd. apply Hl.
    + destruct Hc as (_ & _ & _ & _ & Hm & Hd & _). rewrite Hm, Hd.
      rewrite (dot_compat _ _ d0 d0 (mulMM_assoc_vec _ _ v) (veq_refl d0)).
      rewrite Hl. rewrite mirror_symmetric_dot.
      apply dot_compat; [apply veq_refl|apply mirror_is_reflect].
  - intros l0 Hl0. exact Hl0.
Qed.

Lemma buildHitInfo_normal p o d :
  matN (fst (buildHitInfo pc p o d))
  = matN (evaluateMaterial (materialOf (renderNodeIndex p)) (normal_envmapRadiance p)
            (tangent p) (cross (normal_envmapRadiance p) (tangent p)) (RayCommon.uv p)).
Proof.
  unfold buildHitInfo, overrideMaterial. simpl.
  destruct (Qltb 0 (overrideRoughness pc)), (Qltb 0 (overrideMetallic pc)); reflexivity.
Qed.

(** With unit normals, [psrMirror] keeps the products of vectors. *)
Lemma psrLoop_mirror_isometry (fuel : nat) l s l' s' :
  unitNormals ->
  (forall v w, dot (mulMV (psrMirror l) v) (mulMV (psrMirror l) w) == dot v w) ->
  psrLoop frameInfo pc uninit fuel l s = (Some l', s') ->
  forall v w, dot (mulMV (psrMirror l') v) (mulMV (psrMirror l') w) == dot v w.
Proof.
  intros Hu Hl H.
  refine (psrLoop_invariant
            (fun l => forall v w, dot (mulMV (psrMirror l) v) (mulMV (psrMirror l) w) == dot v w)
            _ _ fuel l s l' s' Hl H).
  - clear -Hu. intros l s Hl v w.
    destruct (psrBody_cases l s) as (l1 & step & s1 & E & _ & _ & _ & Hc). rewrite E. simpl.
    destruct Hc as [(_ & _ & _ & _ & _ & _ & Hm & _) | [(_ & _ & _ & _ & Hm & _) | Hc]].
    + rewrite Hm. apply Hl.
    + rewrite Hm. apply Hl.
    + destruct Hc as (_ & _ & _ & _ & Hm & _ & Hmat). rewrite Hm.
      rewrite (dot_compat _ _ _ _ (mulMM_assoc_vec _ _ v) (mulMM_assoc_vec _ _ w)).
      rewrite Hl. apply mirror_isometry.
      rewrite Hmat, buildHitInfo_normal. apply Hu.
  - intros l0 Hl0. exact Hl0.
Qed.

End WithScene.
End PsrFacts.

(** ** The path-trace segment: hit distance and its sign *)

Module PathFacts.

Import RayCommon HostDevice Shading Shaders NrdGlsl NrdRgen GlslFacts PsrFacts.

Section WithScene.

Context {lib : ShaderLib} {scene : Scene}.
Variable frameInfo : FrameInfo.
Variable pc : RtxPushConstant.
Variable uninit : Uninitialized.

Lemma rand3_payload_hitT (s : ShaderState) :
  hitT (payload (snd (rand3_payload s))) = hitT (payload s)
  /\ stores (snd (rand3_payload s)) = stores s
  /\ rays (snd (rand3_payload s)) = rays s.
Proof.
  destruct (rand3_payload_effect s) as (xi & sd & E). rewrite E. simpl. auto.
Qed.

(** The miss shader of the path tracer ends the trace with the sentinel. *)
Lemma pathtrace_rmiss_hitT (dir : vec3) (s : ShaderState) :
  hitT (payload (snd (pathtrace_rmiss_main frameInfo dir s))) = NRD_INF.
Proof. reflexivity. Qed.

(** [shading] leaves the hit distance as it found it, negated when the
    BSDF sample is an absorption event. *)
Lemma shading_hitT (dir : vec3) (t : Q) (m : PbrMaterial) (hit : HitState) (s : ShaderState) :
  hitT (payload s) = t ->
  exists xi,
    hitT (payload (snd (shading frameInfo uninit dir t m hit s)))
    = if isAbsorb (event_type (bsdfSample (vneg dir) xi m)) then - t else t.
Proof.
  intros Ht. unfold shading. munfold.
  destruct (sampleLights frameInfo (seed (payload s))) as [[[lr dl] lp] sd].
  set (s1 := mkShaderState (set_seed sd (payload s)) (payloadNrd s) (stores s) (rays s)).
  assert (H1 : hitT (payload s1) = t) by exact Ht.
  assert (Hend : forall (res : ShadingResult) (s2 : ShaderState),
             hitT (payload s2) = t ->
             exists xi,
               hitT (payload (snd (
                 (let (xi0, s3) := rand3_payload s2 in
                  (if isAbsorb (event_type (bsdfSample (vneg dir) xi0 m))
                   then fun s4 =>
                     (res, mkShaderState (set_hitT (- hitT (payload s4)) (payload s4))
                             (payloadNrd s4) (stores s4) (rays s4))
                   else fun s4 =>
                     (mkShadingResult (bsdf_over_pdf (bsdfSample (vneg dir) xi0 m))
                        (r_contrib res)
                        (offsetRay (pos hit)
                           (if Qltb 0 (dot (s_k2 (bsdfSample (vneg dir) xi0 m)) (matN m))
                            then geonrm hit else vneg (geonrm hit)))
                        (s_k2 (bsdfSample (vneg dir) xi0 m))
                        (s_pdf (bsdfSample (vneg dir) xi0 m)), s4)) s3))))
               = if isAbsorb (event_type (bsdfSample (vneg dir) xi m)) then - t else t).
  { intros res s2 H2.
    destruct (rand3_payload_effect s2) as (xi & sd2 & E). rewrite E.
    exists xi. destruct (isAbsorb _); simpl; rewrite ?H2; reflexivity. }
  destruct (Qltb 0 (dot dl (matN m)) && Qltb 0 lp).
  - destruct (rand3_payload_effect s1) as (xi1 & sd1 & E1). rewrite E1.
    destruct (Qltb 0 (e_pdf (bsdfEvaluate (vneg dir) dl xi1 m))).
    + match goal with
      | |- context [traceRayEXT ?a ?b ?c ?d ?e ?f ?g ?h ?i ?j ?st] =>
          destruct (traceRayEXT a b c d e f g h i j st) as [u s2]
      end.
      apply Hend. reflexivity.
    + apply Hend. exact H1.
  - apply Hend. exact H1.
Qed.

(** The closest-hit shader of the path tracer reports the hit distance
    of the segment, negated when the path is absorbed at the hit. *)
Lemma pathtrace_rchit_hitT (i : Intersection) (dir : vec3) (s : ShaderState) :
  exists xi,
    hitT (payload (snd (pathtrace_rchit_main frameInfo pc uninit i dir s)))
    = if isAbsorb (event_type (bsdfSample (vneg dir) xi (hitMaterial pc i)))
      then - gl_HitTEXT i else gl_HitTEXT i.
Proof.
  unfold pathtrace_rchit_main. munfold.
  set (s1 := mkShaderState (set_hitT (gl_HitTEXT i) (payload s)) (payloadNrd s) (stores s)
               (rays s)).
  destruct (shading_hitT dir (gl_HitTEXT i) (hitMaterial pc i) (hitGeometry i) s1 eq_refl)
    as (xi & E).
  exists xi.
  destruct (shading frameInfo uninit dir (gl_HitTEXT i) (hitMaterial pc i) (hitGeometry i) s1)
    as [res s2]. simpl in E. simpl. exact E.
Qed.

Lemma segment_hitT (o : vec3) (tmin : Q) (d : vec3) (tmax : Q) (s : ShaderState) :
  match intersect rayFlags o tmin d tmax with
  | None => hitT (payload (segment frameInfo pc uninit o tmin d tmax s)) = NRD_INF
  | Some i =>
      exists xi,
        hitT (payload (segment frameInfo pc uninit o tmin d tmax s))
        = if isAbsorb (event_type (bsdfSample (vneg d) xi (hitMaterial pc i)))
          then - gl_HitTEXT i else gl_HitTEXT i
  end.
Proof.
  unfold segment, trace, traceRayEXT. munfold.
  destruct (intersect rayFlags o tmin d tmax) as [i|].
  - cbn [skipClosestHitShader rayFlags]. unfold closestHitTable.
    change (SBTOFFSET_PATHTRACE =? SBTOFFSET_NRD)%N with false. cbv iota.
    apply pathtrace_rchit_hitT.
  - change (MISSINDEX_PATHTRACE =? MISSINDEX_NRD)%N with false. cbv iota. reflexivity.
Qed.

(** C3: the hit distance an indirect path segment reports.  When the ray
    leaves the scene the miss shader sets it to the sentinel [NRD_INF].
    When the ray hits a surface at distance [gl_HitTEXT] (which is not
    negative) the closest-hit shader reports that distance, negated when the
    BSDF sample [xi] it draws at the hit is an absorption event: the value is
    then not positive, and in both cases its absolute value is the
    distance. *)
Theorem hit_distance_sign_convention (o : vec3) (tmin : Q) (d : vec3) (tmax : Q)
    (s : ShaderState)
    (Hpos : forall i, intersect rayFlags o tmin d tmax = Some i -> 0 <= gl_HitTEXT i) :
  let reported := hitT (payload (segment frameInfo pc uninit o tmin d tmax s)) in
  match intersect rayFlags o tmin d tmax with
  | None => reported = NRD_INF /\ Qabs reported == Qabs NRD_INF
  | Some i =>
      exists xi,
        let event := event_type (bsdfSample (vneg d) xi (hitMaterial pc i)) in
        (isAbsorb event = true -> reported = - gl_HitTEXT i /\ reported <= 0)
        /\ (isAbsorb event = false -> reported = gl_HitTEXT i)
        /\ Qabs reported == gl_HitTEXT i
  end.
Proof.
  cbv zeta. pose proof (segment_hitT o tmin d tmax s) as H.
  destruct (intersect rayFlags o tmin d tmax) as [i|].
  - specialize (Hpos i eq_refl). destruct H as (xi & E). exists xi. rewrite E.
    destruct (isAbsorb _).
    + refine (conj _ (conj _ _)).
      * intros _. split; [reflexivity|lra].
      * discriminate.
      * rewrite Qabs_opp. apply Qabs_pos. exact Hpos.
    + refine (conj _ (conj _ _)).
      * discriminate.
      * reflexivity.
      * apply Qabs_pos. exact Hpos.
  - rewrite H. split; reflexivity.
Qed.

End WithScene.
End PathFacts.

(** ** The indirect loops: hit distance of a lobe *)

Module LobeFacts.

Import RayCommon HostDevice Shading Shaders NrdGlsl NrdRgen GlslFacts PsrFacts PathFacts.

Section WithScene.

Context {lib : ShaderLib} {scene : Scene}.
Variable frameInfo : FrameInfo.
Variable pc : RtxPushConstant.
Variable uninit : Uninitialized.

Local Abbreviation indirectLoop := (NrdRgen.indirectLoop frameInfo pc uninit).
Local Abbreviation segment := (NrdRgen.segment frameInfo pc uninit).

Lemma indirectLoop_S (fuel : nat) (hitTReset : Q) (depth : Z) (accum throughput : vec3)
    (pathLength : Q) (s : ShaderState) :
  indirectLoop (S fuel) hitTReset depth accum throughput pathLength s
  = if (depth <? Z.of_N (maxDepth pc))%Z then
      let s1 := segment (rayOrigin (payload s)) 0.001 (rayDirection (payload s)) NRD_INF
                  (beforeTrace hitTReset s) in
      let p := payload s1 in
      let accum' := vadd accum (vmul (contrib p) throughput) in
      let pathLength' := if (depth =? 1)%Z then Qabs (hitT p) else pathLength in
      if Qltb (hitT p) 0.0 then (Some (accum', pathLength'), s1)
      else indirectLoop fuel hitTReset (depth + 1) accum' (vmul throughput (weight p))
             pathLength' s1
    else (Some (accum, pathLength), s).
Proof.
  cbn [NrdRgen.indirectLoop]. destruct (depth <? Z.of_N (maxDepth pc))%Z; [|reflexivity].
  unfold NrdRgen.segment, beforeTrace. munfold.
  destruct (trace frameInfo pc uninit rayFlags SBTOFFSET_PATHTRACE MISSINDEX_PATHTRACE
              (rayOrigin (payload s)) 0.001 (rayDirection (payload s)) NRD_INF
              PAYLOAD_PATHTRACE _) as [u s1].
  cbv zeta. destruct (Qltb (hitT (payload s1)) 0.0); reflexivity.
Qed.

(** Later bounces never change the path length. *)
Lemma indirectLoop_later (fuel : nat) :
  forall hitTReset depth accum throughput pathLength s a pl s',
    (2 <= depth)%Z ->
    indirectLoop fuel hitTReset depth accum throughput pathLength s = (Some (a, pl), s') ->
    pl = pathLength.
Proof.
  induction fuel as [|fuel IH]; intros r depth accum thr pl0 s a pl s' Hd H.
  - discriminate H.
  - rewrite indirectLoop_S in H.
    destruct (depth <? Z.of_N (maxDepth pc))%Z; [|inversion H; reflexivity].
    cbv zeta in H.
    assert (E : (depth =? 1)%Z = false) by (apply Z.eqb_neq; lia).
    rewrite E in H.
    destruct (Qltb _ 0.0); [inversion H; reflexivity|].
    eapply IH; [|exact H]. lia.
Qed.

(** The loop ends within the fuel that [maxDepth] asks for. *)
Lemma indirectLoop_total (fuel : nat) :
  forall hitTReset depth accum throughput pathLength s,
    (0 < fuel)%nat -> (Z.of_N (maxDepth pc) - depth < Z.of_nat fuel)%Z ->
    exists a pl s',
      indirectLoop fuel hitTReset depth accum throughput pathLength s = (Some (a, pl), s').
Proof.
  induction fuel as [|fuel IH]; intros r depth accum thr pl0 s Hf Hd.
  - lia.
  - rewrite indirectLoop_S.
    destruct (depth <? Z.of_N (maxDepth pc))%Z eqn:Hlt; [|do 3 eexists; reflexivity].
    apply Z.ltb_lt in Hlt. cbv zeta.
    destruct (Qltb _ 0.0); [do 3 eexists; reflexivity|].
    apply IH; lia.
Qed.

(** The path length is the distance of the first bounce. *)
Lemma indirectLoop_first (fuel : nat) hitTReset accum throughput pathLength s a pl s' :
  (1 < maxDepth pc)%N ->
  indirectLoop fuel hitTReset 1 accum throughput pathLength s = (Some (a, pl), s') ->
  pl = Qabs (hitT (payload (segment (rayOrigin (payload s)) 0.001 (rayDirection (payload s))
                              NRD_INF (beforeTrace hitTReset s)))).
Proof.
  intros Hd H. destruct fuel as [|fuel]; [discriminate H|].
  rewrite indirectLoop_S in H.
  assert (E : (1 <? Z.of_N (maxDepth pc))%Z = true) by (apply Z.ltb_lt; lia).
  rewrite E in H. cbv zeta in H. change (1 =? 1)%Z with true in H. cbv iota in H.
  destruct (Qltb _ 0.0); [inversion H; reflexivity|].
  eapply indirectLoop_later in H; [exact H|lia].
Qed.

Lemma indirectLobe_spec (fuel : nat) hitTReset sample org accum0 ratio s :
  (1 < maxDepth pc)%N -> (N.to_nat (maxDepth pc) < fuel)%nat ->
  exists accum pl s',
    indirectLobe frameInfo pc uninit fuel hitTReset sample org accum0 ratio s
    = (Some (accum, pl), s')
    /\ lobeSpec frameInfo pc uninit hitTReset sample org accum0 s accum pl s'.
Proof.
  intros Hd Hf. unfold indirectLobe, lobeSpec.
  destruct (isAbsorb (event_type sample)) eqn:Ha; cbn [negb].
  - exists accum0, 0.0, s. split; [reflexivity|]. split; [auto|discriminate].
  - munfold.
    set (s0 := mkShaderState _ (payloadNrd s) (stores s) (rays s)).
    destruct (indirectLoop_total fuel hitTReset 1 accum0 (vs (bsdf_over_pdf sample) ratio)
                0.0 s0) as (a & pl & s' & E); [lia|lia|].
    rewrite E. exists (removeFireflies (maxLuminance pc) a), pl, s'.
    split; [reflexivity|]. split; [discriminate|]. intros _.
    apply indirectLoop_first in E; [|exact Hd].
    assert (Efirst : pl = Qabs (hitT (payload (firstBounce frameInfo pc uninit hitTReset
                                                sample org s)))) by exact E.
    split; [exact Efirst|]. intros Hmiss. rewrite Efirst.
    unfold firstBounce.
    pose proof (segment_hitT frameInfo pc uninit org 0.001 (s_k2 sample) NRD_INF
                  (mkShaderState
                     (mkHitPayload (seed (payload s)) hitTReset (splat3 0.0) (splat3 1.0) org
                        (s_k2 sample) (s_pdf sample))
                     (payloadNrd s) (stores s) (rays s))) as Hseg.
    rewrite Hmiss in Hseg. cbv zeta. rewrite Hseg. reflexivity.
Qed.

(** With [maxDepth] at most 1 no bounce is traced: the path length stays 0. *)
Lemma indirectLobe_no_bounce (fuel : nat) hitTReset sample org accum0 ratio s :
  (maxDepth pc <= 1)%N -> (0 < fuel)%nat ->
  exists accum s',
    indirectLobe frameInfo pc uninit fuel hitTReset sample org accum0 ratio s
    = (Some (accum, 0.0), s')
    /\ rays s' = rays s.
Proof.
  intros Hd Hf. unfold indirectLobe.
  destruct (isAbsorb (event_type sample)); cbn [negb].
  - exists accum0, s. split; reflexivity.
  - munfold. destruct fuel as [|fuel]; [lia|]. rewrite indirectLoop_S.
    assert (E : (1 <? Z.of_N (maxDepth pc))%Z = false) by (apply Z.ltb_ge; lia).
    rewrite E. do 2 eexists. split; reflexivity.
Qed.

(** The lobe part of [main] returns whenever the fuel exceeds [maxDepth]. *)
Lemma indirectLobe_total (fuel : nat) hitTReset sample org accum0 ratio s :
  (N.to_nat (maxDepth pc) < fuel)%nat ->
  exists accum pl s',
    indirectLobe frameInfo pc uninit fuel hitTReset sample org accum0 ratio s
    = (Some (accum, pl), s').
Proof.
  intros Hf. unfold indirectLobe.
  destruct (isAbsorb (event_type sample)); cbn [negb].
  - do 3 eexists. reflexivity.
  - munfold.
    set (s0 := mkShaderState _ (payloadNrd s) (stores s) (rays s)).
    destruct (indirectLoop_total fuel hitTReset 1 accum0 (vs (bsdf_over_pdf sample) ratio)
                0.0 s0) as (a & pl & s' & E); [lia|lia|].
    rewrite E. do 3 eexists. reflexivity.
Qed.

(** C5: in the diffuse and in the specular lobe the path length is the
    absolute value of [payload.hitT] after the trace of the first bounce;
    it is [|NRD_INF|] when that ray misses; an absorption event of the
    lobe's sample leaves it at 0, the radiance at its initial value (the
    direct light of the environment) and traces nothing; and an iteration
    at depth 2 or more returns the path length it was given.  The first
    bounce exists when [maxDepth] exceeds 1. *)
Theorem hit_distance_proxy (fuel : nat) (m : PbrMaterial)
    (org toEye hdrDiffuseRadiance hdrSpecularRadiance : vec3)
    (diffuseRatio diffuseWeight specularRatio : Q) (s : ShaderState)
    (Hdepth : (1 < maxDepth pc)%N) (Hfuel : (N.to_nat (maxDepth pc) < fuel)%nat) :
  let xi := fst (rand3_payload s) in
  let s0 := snd (rand3_payload s) in
  let diffBsdfSample := brdf_diffuse_sample toEye xi m (baseColor m) in
  let specBsdfSample :=
    bsdfSample toEye (Vec3 (vx xi) (vy xi) ((1.0 - diffuseWeight) * vz xi)) m in
  (exists accum pl s',
     diffuseLobe frameInfo pc uninit fuel m org toEye hdrDiffuseRadiance diffuseRatio s
     = (Some (accum, pl), s')
     /\ lobeSpec frameInfo pc uninit NRD_INF diffBsdfSample org hdrDiffuseRadiance s0
          accum pl s')
  /\ (exists accum pl s',
        specularLobe frameInfo pc uninit fuel m org toEye hdrSpecularRadiance diffuseWeight
          specularRatio s
        = (Some (accum, pl), s')
        /\ lobeSpec frameInfo pc uninit (- NRD_INF) specBsdfSample org hdrSpecularRadiance s0
             accum pl s')
  /\ (forall hitTReset depth accum throughput pathLength s1 a pl s',
        (2 <= depth)%Z ->
        indirectLoop fuel hitTReset depth accum throughput pathLength s1 = (Some (a, pl), s') ->
        pl = pathLength).
Proof.
  cbv zeta. refine (conj _ (conj _ _)).
  - unfold diffuseLobe, bind. destruct (rand3_payload s) as [xi s0]. cbn [fst snd].
    apply indirectLobe_spec; assumption.
  - unfold specularLobe, bind. destruct (rand3_payload s) as [xi s0]. cbn [fst snd].
    apply indirectLobe_spec; assumption.
  - intros r depth accum thr pl0 s1 a pl s'. apply indirectLoop_later.
Qed.

End WithScene.
End LobeFacts.

(** ** The ray-generation shader: PSR loop, early out, lobes *)

Module RgenFacts.

Import RayCommon HostDevice Shading Shaders NrdGlsl NrdRgen GlslFacts PsrFacts PathFacts
  LobeFacts.

Section WithScene.

Context {lib : ShaderLib} {scene : Scene}.
Variable frameInfo : FrameInfo.
Variable pc : RtxPushConstant.
Variable uninit : Uninitialized.

Local Abbreviation psrLoop := (NrdRgen.psrLoop frameInfo pc uninit).
Local Abbreviation psrBody := (NrdRgen.psrBody frameInfo pc uninit).
Local Abbreviation main := (NrdRgen.main frameInfo pc uninit).



(** C4: started at depth 0 with fuel for five iterations or more, the
    PSR loop returns, and the fuel beyond five changes nothing.  It traces
    at most five primary rays and ends on the background or on a surface
    that is not a mirror after fewer than five mirrors, or at depth 5 on
    the last mirror that was hit: the locals are then those of that hit
    and the result is a regular one. *)
Theorem psr_loop_terminates (fuel : nat) (l : PsrLocals) (s : ShaderState)
    (Hfuel : (5 <= fuel)%nat) (Hdepth : psrDepth l = 0%Z) :
  exists l' s' rs,
    psrLoop fuel l s = (Some l', s')
    /\ psrLoop 5 l s = (Some l', s')
    /\ stores s' = stores s
    /\ rays s' = rays s ++ rs /\ nrdRays rs /\ (1 <= length rs <= 5)%nat
    /\ match psrExit l' with
       | ExitDepthBound => psrDepth l' = 5%Z /\ isPsr l' = true /\ length rs = 5%nat
       | _ => (0 <= psrDepth l' < 5)%Z /\ Z.of_nat (length rs) = (psrDepth l' + 1)%Z
       end.
Proof.
  destruct (psrLoop_runs frameInfo pc uninit 5 l s) as (l' & s' & rs & E & Hd & Hst & Hr & Hn & Hx);
    [lia|lia|].
  exists l', s', rs.
  split; [exact (psrLoop_fuel_le frameInfo pc uninit 5 fuel l s l' s' Hfuel E)|].
  split; [exact E|]. split; [exact Hst|]. split; [exact Hr|]. split; [exact Hn|].
  rewrite Hdepth in *.
  destruct (psrExit l'); (split; [lia|]); repeat split; try tauto; lia.
Qed.


(** [main] returns when the fuel covers the five iterations of the PSR
    loop and the bounces of the lobes. *)
Lemma main_completes (fuel : nat) (gl_LaunchIDEXT gl_LaunchSizeEXT : N * N) (s : ShaderState) :
  (5 <= fuel)%nat -> (N.to_nat (maxDepth pc) < fuel)%nat ->
  exists s', main fuel gl_LaunchIDEXT gl_LaunchSizeEXT s = (Some tt, s').
Proof.
  intros H5 Hd. unfold NrdRgen.main, bind, getPayload, setPayload. cbv zeta.
  match goal with
  | |- context [NrdRgen.psrLoop frameInfo pc uninit fuel ?l0 ?st] =>
      destruct (psrLoop_runs frameInfo pc uninit fuel l0 st) as (l & s1 & rs & E & _);
        [cbn [psrDepth primaryLocals]; lia|cbn [psrDepth primaryLocals]; lia|]
  end.
  rewrite E. destruct (hitSky l).
  - eexists. reflexivity.
  - unfold imageStore, ret.
    match goal with
    | |- context [HdrContrib ?a ?b ?c ?d ?st] => destruct (HdrContrib a b c d st) as [hdr s2]
    end.
    unfold diffuseLobe, specularLobe, bind.
    match goal with
    | |- context [rand3_payload ?st] => destruct (rand3_payload st) as [xi s3]
    end.
    match goal with
    | |- context [indirectLobe ?a ?b ?c ?d ?e ?f ?g ?h ?i ?st] =>
        destruct (indirectLobe_total a b c d e f g h i st Hd) as (ad & pd & s4 & Ed)
    end.
    rewrite Ed.
    match goal with
    | |- context [rand3_payload ?st] => destruct (rand3_payload st) as [xi' s5]
    end.
    match goal with
    | |- context [indirectLobe ?a ?b ?c ?d ?e ?f ?g ?h ?i ?st] =>
        destruct (indirectLobe_total a b c d e f g h i st Hd) as (asp & ps & s6 & Es)
    end.
    rewrite Es. eexists. reflexivity.
Qed.

(** C10: [buildMirrorMatrix n] is [I - 2 n n^T]; it is symmetric and maps
    [d] to [d - 2 (d.n) n], the reflection of [d] about [n]; for a normal
    of unit length it is its own inverse and orthogonal.  The matrix the
    PSR loop composes is the identity when no mirror was hit; it relates
    the final direction to the direction of the camera ray, so that the
    world normal [psrMirror * N] is to the camera ray what the normal [N]
    is to the mirrored ray; and with unit normals it keeps the products of
    vectors. *)
Theorem mirror_matrix_householder (n d : vec3) (Hunit : dot n n == 1)
    (fuel : nat) (l : PsrLocals) (s : ShaderState) (l' : PsrLocals) (s' : ShaderState)
    (Hstart : psrMirror l = mat3_identity)
    (Hloop : psrLoop fuel l s = (Some l', s')) :
  let M := buildMirrorMatrix n in
  meq M (Mat3 (Vec3 (1 - 2 * (vx n * vx n)) (- (2) * (vx n * vy n)) (- (2) * (vx n * vz n)))
              (Vec3 (- (2) * (vy n * vx n)) (1 - 2 * (vy n * vy n)) (- (2) * (vy n * vz n)))
              (Vec3 (- (2) * (vz n * vx n)) (- (2) * (vz n * vy n)) (1 - 2 * (vz n * vz n))))
  /\ meq (transpose M) M
  /\ veq (mulMV M d) (vsub d (sv (2 * dot d n) n))
  /\ veq (mulMV M d) (reflect d n)
  /\ meq (mulMM M M) mat3_identity
  /\ meq (mulMM (transpose M) M) mat3_identity
  /\ (isPsr l = false -> isPsr l' = false -> psrMirror l' = mat3_identity)
  /\ (forall v, dot (mulMV (psrMirror l') v) (direction l) == dot v (direction l'))
  /\ (unitNormals ->
      forall v w, dot (mulMV (psrMirror l') v) (mulMV (psrMirror l') w) == dot v w).
Proof.
  cbv zeta.
  assert (Hsym : meq (transpose (buildMirrorMatrix n)) (buildMirrorMatrix n)).
  { destruct n. vunfold.
    refine (conj (conj _ (conj _ _)) (conj (conj _ (conj _ _)) (conj _ (conj _ _)))); ring. }
  refine (conj _ (conj Hsym (conj _ (conj (mirror_is_reflect n d)
           (conj (mirror_involution n Hunit) (conj _ (conj _ (conj _ _)))))))).
  - destruct n. vunfold.
    refine (conj (conj _ (conj _ _)) (conj (conj _ (conj _ _)) (conj _ (conj _ _)))); ring.
  - destruct n, d. vunfold. refine (conj _ (conj _ _)); ring.
  - pose proof (mirror_involution n Hunit) as Hinv. revert Hinv.
    destruct n as [a b c]. vunfold. intros Hinv.
    destruct Hinv as ((H1 & H2 & H3) & (H4 & H5 & H6) & (H7 & H8 & H9)).
    refine (conj (conj _ (conj _ _)) (conj (conj _ (conj _ _)) (conj _ (conj _ _)))).
    + etransitivity; [|exact H1]. ring.
    + etransitivity; [|exact H2]. ring.
    + etransitivity; [|exact H3]. ring.
    + etransitivity; [|exact H4]. ring.
    + etransitivity; [|exact H5]. ring.
    + etransitivity; [|exact H6]. ring.
    + etransitivity; [|exact H7]. ring.
    + etransitivity; [|exact H8]. ring.
    + etransitivity; [|exact H9]. ring.
  - intros Hl. apply (psrLoop_no_mirror frameInfo pc uninit fuel l s l' s'); [|exact Hloop].
    intros _. exact Hstart.
  - apply (psrLoop_mirror_direction frameInfo pc uninit (direction l) fuel l s l' s');
      [|exact Hloop].
    intros v. rewrite Hstart. apply dot_compat; [apply identity_mulMV|apply veq_refl].
  - intros Hu. apply (psrLoop_mirror_isometry frameInfo pc uninit fuel l s l' s' Hu);
      [|exact Hloop].
    intros v w. rewrite Hstart. apply dot_compat; apply identity_mulMV.
Qed.

End WithScene.
End RgenFacts.

(** ** The shader theorems on the example scenes *)

Module ShaderWitnesses.

Import RayCommon HostDevice Shading Shaders NrdGlsl NrdRgen Examples.
Import PsrFacts PathFacts LobeFacts RgenFacts.

Lemma hit_distance_sign_convention_witness :
  let reported :=
    hitT (payload (segment (lib := exampleLib true true)
                     (scene := exampleScene (Some 2) diffuseMaterial)
                     exampleFrame (examplePc 2) exampleUninit
                     (splat3 0) 0.001 (Vec3 0 0 (-1)) 1e6 exampleState)) in
  reported = - gl_HitTEXT (flatHit 2) /\ reported <= 0.
Proof.
  cbv zeta.
  pose proof (hit_distance_sign_convention (lib := exampleLib true true)
                (scene := exampleScene (Some 2) diffuseMaterial)
                exampleFrame (examplePc 2) exampleUninit
                (splat3 0) 0.001 (Vec3 0 0 (-1)) 1e6 exampleState) as H.
  cbv zeta in H.
  change (intersect rayFlags (splat3 0) 0.001 (Vec3 0 0 (-1)) 1e6)
    with (Some (flatHit 2)) in H.
  cbv beta iota in H.
  destruct H as (xi & Habsorb & _).
  - intros i Hi. injection Hi as <-. vm_compute. discriminate.
  - apply Habsorb. reflexivity.
Defined.

(** In a hall of mirrors the loop stops at the depth bound. *)
Lemma psr_loop_terminates_witness :
  psrLoop (lib := exampleLib true false) (scene := exampleScene (Some 2) mirrorMaterial)
    exampleFrame (examplePc 2) exampleUninit 7 startLocals exampleState
  = psrLoop (lib := exampleLib true false) (scene := exampleScene (Some 2) mirrorMaterial)
      exampleFrame (examplePc 2) exampleUninit 5 startLocals exampleState.
Proof.
  destruct (psr_loop_terminates (lib := exampleLib true false)
              (scene := exampleScene (Some 2) mirrorMaterial)
              exampleFrame (examplePc 2) exampleUninit 7 startLocals exampleState)
    as (l' & s' & rs & E7 & E5 & _).
  - repeat constructor.
  - reflexivity.
  - rewrite E7, E5. reflexivity.
Defined.

(** On a diffuse floor at distance 2 the diffuse lobe reports 2. *)
Lemma hit_distance_proxy_witness :
  exists accum pl s',
    diffuseLobe (lib := exampleLib true false) (scene := exampleScene (Some 2) diffuseMaterial)
      exampleFrame (examplePc 2) exampleUninit 3 diffuseMaterial (splat3 0) (Vec3 0 0 1)
      (splat3 0) (1 # 2) exampleState
    = (Some (accum, pl), s')
    /\ pl == 2.
Proof.
  destruct (hit_distance_proxy (lib := exampleLib true false)
              (scene := exampleScene (Some 2) diffuseMaterial)
              exampleFrame (examplePc 2) exampleUninit 3 diffuseMaterial (splat3 0) (Vec3 0 0 1)
              (splat3 0) (splat3 0) (1 # 2) (1 # 2) (1 # 2) exampleState)
    as ((accum & pl & s' & E & _ & Hscatter) & _).
  - reflexivity.
  - repeat constructor.
  - exists accum, pl, s'. split; [exact E|].
    destruct (Hscatter eq_refl) as (Hpl & _). rewrite Hpl. vm_compute. reflexivity.
Defined.


(** The mirror about the unit normal (3/5, 4/5, 0), and the matrix the
    loop composes in the hall of mirrors. *)
Lemma mirror_matrix_householder_witness :
  let M := buildMirrorMatrix (Vec3 (3 # 5) (4 # 5) 0) in
  let r := psrLoop (lib := exampleLib true false) (scene := exampleScene (Some 2) mirrorMaterial)
             exampleFrame (examplePc 2) exampleUninit 5 startLocals exampleState in
  let l' := match fst r with Some l => l | None => startLocals end in
  meq (mulMM M M) mat3_identity
  /\ veq (mulMV M (Vec3 1 2 3)) (reflect (Vec3 1 2 3) (Vec3 (3 # 5) (4 # 5) 0))
  /\ dot (mulMV (psrMirror l') (Vec3 1 2 3)) (mulMV (psrMirror l') (Vec3 4 5 6))
     == dot (Vec3 1 2 3) (Vec3 4 5 6).
Proof.
  cbv zeta.
  pose (r := psrLoop (lib := exampleLib true false) (scene := exampleScene (Some 2) mirrorMaterial)
               exampleFrame (examplePc 2) exampleUninit 5 startLocals exampleState).
  destruct (mirror_matrix_householder (lib := exampleLib true false)
              (scene := exampleScene (Some 2) mirrorMaterial)
              exampleFrame (examplePc 2) exampleUninit
              (Vec3 (3 # 5) (4 # 5) 0) (Vec3 1 2 3) eq_refl
              5 startLocals exampleState
              (match fst r with Some l => l | None => startLocals end) (snd r)
              eq_refl)
    as (_ & _ & _ & Hrefl & Hinv & _ & _ & _ & Hiso).
  - vm_compute. reflexivity.
  - refine (conj Hinv (conj Hrefl _)). apply Hiso.
    intros mat n t b uv. reflexivity.
Defined.

End ShaderWitnesses.

(** ** De-modulation in the path tracer, re-modulation in the compositor *)

Module DemodulationFacts.

Import RayCommon HostDevice Shading Shaders NrdGlsl Examples GlslFacts.

Lemma saturate_bounds (x : Q) : 0 <= saturate x /\ saturate x <= 1.
Proof.
  unfold saturate. split.
  - apply Q.min_glb; [apply Q.le_max_r|lra].
  - apply Q.le_min_r.
Qed.

(** Multiplying by the factor undoes the division by it, for a factor
    whose affine form does not vanish. *)
Lemma remodulate_demodulate (x f : vec3) :
  ~ vx f * 0.99 + 0.01 == 0 -> ~ vy f * 0.99 + 0.01 == 0 -> ~ vz f * 0.99 + 0.01 == 0 ->
  veq (Compositing.remodulate (NrdRgen.demodulate x f) f) x.
Proof.
  intros Hx Hy Hz. unfold Compositing.remodulate, NrdRgen.demodulate.
  destruct x, f. vunfold. cbn [vx vy vz] in Hx, Hy, Hz.
  refine (conj _ (conj _ _)); field; assumption.
Qed.

(** The diffuse signal of a colour without negative components survives
    the round trip. *)
Lemma diffuse_round_trip (x baseColor : vec3) :
  0 <= vx baseColor -> 0 <= vy baseColor -> 0 <= vz baseColor ->
  veq (Compositing.remodulate (NrdRgen.demodulate x baseColor) baseColor) x.
Proof.
  intros Hx Hy Hz. apply remodulate_demodulate; lra.
Qed.

Lemma Qmax_nonneg (v : Q) : 0.0 <= v -> Qmax v 0.0 = v.
Proof.
  intros H. unfold Qmax, GenericMinMax.gmax.
  destruct (Qcompare_spec v 0.0) as [E|L|G]; try reflexivity. lra.
Qed.

(** When the normal faces the viewer, the two stages compute the same
    specular factor and the specular signal survives the round trip. *)
Lemma specular_round_trip {lib : ShaderLib} (x : vec3) (m : PbrMaterial) (VdotN : Q) :
  0.0 <= VdotN ->
  NrdRgen.specularFenv m VdotN
  = Compositing.specularFenv (baseColor m) (metallic m) VdotN (fsqrt (x2 (roughness m)))
  /\ veq (Compositing.remodulate
            (NrdRgen.demodulate x (NrdRgen.specularFenv m VdotN))
            (Compositing.specularFenv (baseColor m) (metallic m) VdotN
               (fsqrt (x2 (roughness m))))) x.
Proof.
  intros H.
  assert (E : NrdRgen.specularFenv m VdotN
              = Compositing.specularFenv (baseColor m) (metallic m) VdotN
                  (fsqrt (x2 (roughness m)))).
  { unfold NrdRgen.specularFenv, Compositing.specularFenv.
    rewrite (Qmax_nonneg VdotN H). reflexivity. }
  split; [exact E|]. rewrite <- E.
  unfold NrdRgen.specularFenv.
  destruct (ConvertBaseColorMetalnessToAlbedoRf0 (baseColor m) (metallic m)) as [albedo Rf0].
  unfold EnvironmentTerm_Rtg. cbv zeta.
  apply remodulate_demodulate; unfold saturate3; cbn [vx vy vz];
    match goal with
    | |- ~ saturate ?e * _ + _ == 0 => pose proof (saturate_bounds e); lra
    end.
Qed.

(** C1, at an input that breaks it: a material whose shading normal faces
    away from the viewer ([VdotN = NoV = -1/2]), base colour 1/2, metalness
    0, roughness 1/4.  The ray-generation shader clamps [VdotN] to 0 before
    it evaluates the environment term, the compositor evaluates it at
    [NoV] itself: the re-modulated specular signal is more than three times
    the signal that was de-modulated, whichever of the two products [mul]
    stands for. *)
Theorem remodulation_misses_clamp (mulGlsl : bool) :
  let lib := exampleLib mulGlsl false in
  let m := diffuseMaterial in
  let VdotN := - (1 # 2) in
  let specularAccum := splat3 1 in
  let stored :=
    NrdRgen.demodulate specularAccum (NrdRgen.specularFenv (lib := lib) m VdotN) in
  let composed :=
    Compositing.remodulate stored
      (Compositing.specularFenv (lib := lib) (baseColor m) (metallic m) VdotN
         (fsqrt (x2 (roughness m)))) in
  ~ veq composed specularAccum /\ 3 < vx composed.
Proof.
  destruct mulGlsl; vm_compute; split; (discriminate || reflexivity || (intros (H & _); discriminate H)).
Qed.

End DemodulationFacts.

(** ** NRDWrapper: the texture pools *)

Module PoolFacts.

Import NRDWrapper.
Local Open Scope Z_scope.

Lemma DivideRoundUp_ceil (x f : Z) :
  0 <= x < 2 ^ 16 -> 0 < f < 2 ^ 16 ->
  exists q, DivideRoundUp x f = Done q /\ isCeilDiv x f q /\ 0 <= q < 2 ^ 16.
Proof.
  intros Hx Hf. unfold isCeilDiv, DivideRoundUp, u16, u32.
  assert (E0 : (f =? 0) = false) by (apply Z.eqb_neq; lia).
  rewrite E0. eexists. split; [reflexivity|].
  assert (E32 : (x + f - 1) mod 2 ^ 32 = x + f - 1) by (apply Z.mod_small; lia).
  rewrite E32.
  pose proof (Z.div_mod (x + f - 1) f ltac:(lia)) as Hdm.
  pose proof (Z.mod_pos_bound (x + f - 1) f ltac:(lia)) as Hm.
  assert (Hq : 0 <= (x + f - 1) / f <= x) by (split; [apply Z.div_pos; lia|nia]).
  rewrite (Z.mod_small ((x + f - 1) / f) (2 ^ 16)) by lia.
  split; [nia|lia].
Qed.

(** Outside the 16-bit range of [createTexture]'s arguments the result is
    cut to 16 bits, and the sum wraps at 32 bits. *)
Example DivideRoundUp_wide :
  DivideRoundUp 70000 1 = Done 4464 /\ DivideRoundUp (2 ^ 32 - 1) 2 = Done 0.
Proof. split; reflexivity. Qed.

Lemma lookupImage_app (l l' : list (N * ImageCreateInfo)) (h : N) (info : ImageCreateInfo) :
  lookupImage l h = Some info -> lookupImage (l ++ l') h = Some info.
Proof.
  induction l as [|[h0 i0] l IH]; simpl; [discriminate|].
  destruct (h0 =? h)%N; [auto|exact IH].
Qed.

Lemma lookupImage_new (l : list (N * ImageCreateInfo)) (h : N) (info : ImageCreateInfo) :
  Forall (fun r => (fst r < h)%N) l -> lookupImage (l ++ [(h, info)]) h = Some info.
Proof.
  induction 1 as [|[h0 i0] l Hlt _ IH]; simpl.
  - rewrite N.eqb_refl. reflexivity.
  - simpl in Hlt. destruct (N.eqb_spec h0 h); [lia|exact IH].
Qed.

Lemma textureMatches_extend width height a a' ext d t :
  created a' = created a ++ ext ->
  textureMatches width height a d t -> textureMatches width height a' d t.
Proof.
  intros E (info & Hl & H). exists info. split; [|exact H].
  rewrite E. apply lookupImage_app, Hl.
Qed.

Lemma createTexture_done (d : TextureDesc) (width height : Z) (a : Allocator) :
  0 <= width < 2 ^ 16 -> 0 <= height < 2 ^ 16 -> allocatorOk a -> validDesc d ->
  exists t a',
    createTexture d width height a = Done (t, a')
    /\ allocatorOk a'
    /\ (exists ext, created a' = created a ++ ext)
    /\ textureMatches width height a' d t.
Proof.
  intros Hw Hh (Hpos & Hall) (Hf & Hfmt).
  destruct (DivideRoundUp_ceil width (downsampleFactor d) Hw Hf) as (qw & Eqw & Hqw & _).
  destruct (DivideRoundUp_ceil height (downsampleFactor d) Hh Hf) as (qh & Eqh & Hqh & _).
  unfold createTexture, NRDtoVKFormat. rewrite Eqw, Eqh.
  destruct (nth_error g_NRDFormatToVkFormat (N.to_nat (format d))) as [fmt|] eqn:En;
    [|apply nth_error_None in En; lia].
  cbn [obind createImage createImageView nextHandle created].
  assert (E0 : (nextHandle a =? 0)%N = false) by (apply N.eqb_neq; lia).
  assert (E1 : (nextHandle a + 1 =? 0)%N = false) by (apply N.eqb_neq; lia).
  rewrite E0, E1. cbn [negb andb assert obind].
  do 2 eexists. split; [reflexivity|]. cbn [created nextHandle image].
  refine (conj _ (conj _ _)).
  - unfold allocatorOk. cbn [created nextHandle]. split; [lia|]. apply Forall_app. split.
    + eapply Forall_impl; [|exact Hall]. intros r Hr. cbv beta in Hr. lia.
    + constructor; [cbn [fst]; lia|constructor].
  - eexists. reflexivity.
  - eexists. split; [apply lookupImage_new, Hall|].
    cbn [extentWidth extentHeight imageFormat].
    split; [exact Hqw|]. split; [exact Hqh|exact En].
Qed.

Lemma createPool_done (pool : list TextureDesc) (width height : Z) :
  0 <= width < 2 ^ 16 -> 0 <= height < 2 ^ 16 -> Forall validDesc pool ->
  forall a, allocatorOk a ->
  exists ts a',
    createPool pool width height a = Done (ts, a')
    /\ allocatorOk a'
    /\ (exists ext, created a' = created a ++ ext)
    /\ Forall2 (textureMatches width height a') pool ts.
Proof.
  intros Hw Hh. induction 1 as [|d pool Hd _ IH]; intros a Ha.
  - exists [], a. split; [reflexivity|]. split; [exact Ha|].
    split; [exists []; rewrite app_nil_r; reflexivity|constructor].
  - destruct (createTexture_done d width height a Hw Hh Ha Hd) as (t & a1 & E & Ha1 & (e1 & X1) & Ht).
    destruct (IH a1 Ha1) as (ts & a2 & E2 & Ha2 & (e2 & X2) & Hts).
    exists (t :: ts), a2. cbn [createPool]. rewrite E. cbn [obind]. rewrite E2. cbn [obind].
    split; [reflexivity|]. split; [exact Ha2|].
    split; [exists (e1 ++ e2); rewrite X2, X1, app_assoc; reflexivity|].
    constructor; [|exact Hts]. eapply textureMatches_extend; eassumption.
Qed.

Lemma cleared_in (ts : list Texture) (t : Texture) :
  In t ts -> clearedToZero (flat_map (fun t => transitionTexture (image t)) ts) t.
Proof.
  intros H. unfold clearedToZero. apply in_flat_map. exists t. split; [exact H|].
  right. left. reflexivity.
Qed.

(** C8: for a base resolution of 16 bits and pool descriptors with a
    downsample factor that is not 0, the constructor returns; the image of
    each permanent and each transient texture was created with the width
    and the height of the base resolution divided by the factor, rounded
    up, and with the Vulkan format the table gives for the descriptor's
    format; and the commands it submits clear each of these images to
    zero.  [DivideRoundUp x f] is [x / f] rounded up on these ranges. *)
Theorem pool_textures_sized_and_cleared (iDesc : InstanceDesc) (width height : Z)
    (userTexturePool : N -> Texture) (a : Allocator)
    (Hw : 0 <= width < 2 ^ 16) (Hh : 0 <= height < 2 ^ 16) (Ha : allocatorOk a)
    (Hperm : Forall validDesc (permanentPool iDesc))
    (Htrans : Forall validDesc (transientPool iDesc)) :
  (exists w a' cmds,
     construct iDesc width height userTexturePool a = Done (w, a', cmds)
     /\ Forall2 (textureMatches width height a') (permanentPool iDesc) (m_permanentTextures w)
     /\ Forall2 (textureMatches width height a') (transientPool iDesc) (m_transientTextures w)
     /\ Forall (clearedToZero cmds) (m_permanentTextures w ++ m_transientTextures w))
  /\ (forall x f, 0 <= x < 2 ^ 16 -> 0 < f < 2 ^ 16 ->
        exists q, DivideRoundUp x f = Done q /\ isCeilDiv x f q).
Proof.
  split; [|intros x f Hx Hf; destruct (DivideRoundUp_ceil x f Hx Hf) as (q & E & Hq & _);
           exists q; split; assumption].
  destruct (createPool_done _ width height Hw Hh Hperm a Ha)
    as (perm & a1 & E1 & Ha1 & (e1 & X1) & Hp).
  destruct (createPool_done _ width height Hw Hh Htrans a1 Ha1)
    as (trans & a2 & E2 & Ha2 & (e2 & X2) & Ht).
  unfold construct. rewrite E1. cbn [obind]. rewrite E2. cbn [obind].
  destruct (createPipelines iDesc (nextHandle a2 + 1)%N) as [[[cb ss] rs] ps] eqn:Ep.
  cbn [created nextHandle]. rewrite Ep.
  do 3 eexists. split; [reflexivity|].
  cbn [m_permanentTextures m_transientTextures].
  refine (conj _ (conj _ _)).
  - eapply Forall2_impl; [|exact Hp]. intros d t Hm.
    apply (textureMatches_extend width height a1 _ e2 d t); [exact X2|exact Hm].
  - exact Ht.
  - apply Forall_forall. intros t Hin. unfold clearedToZero.
    apply in_app_or in Hin. apply in_or_app. destruct Hin as [Hin|Hin].
    + right. apply cleared_in, Hin.
    + left. apply cleared_in, Hin.
Qed.

End PoolFacts.

(** ** NRDWrapper: dispatch *)

Module DispatchFacts.

Import NRDWrapper.

(** Take a successful step of a computation apart. *)
Ltac step H :=
  match type of H with
  | obind ?c _ = Done _ =>
      let E := fresh "E" in
      destruct c eqn:E; cbn [obind] in H; [|discriminate H ..]
  end.

Lemma index_not_assert {A} (l : list A) (i : nat) (x : Assertion) :
  index l i <> AssertionFailed x.
Proof. unfold index. destruct (nth_error l i); discriminate. Qed.

Lemma assign_not_assert {A} (l : list A) :
  forall i a x, assign l i a <> AssertionFailed x.
Proof.
  induction l as [|h t IH]; intros i a x; [discriminate|].
  destruct i; [discriminate|]. cbn [assign]. specialize (IH i a x).
  destruct (assign t i a); cbn [obind];
    [discriminate|intros H; apply IH; inversion H; reflexivity|discriminate ..].
Qed.

Lemma assign_done {A} (l : list A) :
  forall i a l', assign l i a = Done l' ->
    length l' = length l /\ nth_error l' i = Some a.
Proof.
  induction l as [|h t IH]; intros i a l' H; [discriminate|].
  destruct i; cbn [assign] in H.
  - inversion H; subst. split; reflexivity.
  - step H. inversion H; subst. destruct (IH _ _ _ E) as (Hl & Hn).
    split; [cbn [length]; congruence|exact Hn].
Qed.

Lemma nth_error_repeat_lt {A} (a : A) (n j : nat) :
  (j < n)%nat -> nth_error (repeat a n) j = Some a.
Proof.
  revert j. induction n as [|n IH]; intros j H; [lia|].
  destruct j; [reflexivity|]. cbn. apply IH. lia.
Qed.

Lemma obind_no_assert {A B} (c : Outcome A) (k : A -> Outcome B) (x : Assertion) :
  c <> AssertionFailed x -> (forall a, c = Done a -> k a <> AssertionFailed x) ->
  obind c k <> AssertionFailed x.
Proof.
  intros Hc Hk. destruct c; cbn [obind]; [apply Hk; reflexivity| |discriminate ..].
  intros H. apply Hc. inversion H. reflexivity.
Qed.

Lemma assign_in_range {A} (l : list A) :
  forall i a, (i < length l)%nat -> exists l', assign l i a = Done l'.
Proof.
  induction l as [|h t IH]; intros i a Hi; [cbn [length] in Hi; lia|].
  destruct i; [eexists; reflexivity|]. cbn [assign].
  destruct (IH i a) as (l' & E); [cbn [length] in Hi; lia|].
  rewrite E. eexists. reflexivity.
Qed.

Section Dispatch.

Variable w : Wrapper.
Variable iDesc : InstanceDesc.
Variable lDesc : SPIRVBindingOffsets.
Variable dispatchDesc : DispatchDesc.

(** A resource whose kind differs from its range trips the assertion, and
    nothing is recorded for it. *)
Lemma bindResource_mismatch (r : ResourceRangeDesc) (d : nat) (l : DispatchLocals)
    (res : ResourceDesc) :
  nth_error (resources dispatchDesc) (numResourceUpdates l) = Some res ->
  (numResourceUpdates l < length (descriptorUpdates l))%nat ->
  descriptorType res <> rangeDescriptorType r ->
  bindResource w lDesc dispatchDesc r d l = AssertionFailed AssertResourceKind.
Proof.
  intros Hres Hlen Hne. unfold bindResource, index. rewrite Hres. cbn [obind].
  destruct (assign_in_range (descriptorUpdates l) (numResourceUpdates l)
              (mkWriteDescriptorSet
                 (u32N ((if isStorage r then storageTextureAndBufferOffset lDesc
                         else textureOffset lDesc) + N.of_nat d)) 1
                 (NRDDescriptorTypeToVulkan (descriptorType res))
                 (Some (numResourceUpdates l)) None) Hlen) as (l' & E).
  rewrite E. cbn [obind].
  destruct (descriptorType res), (rangeDescriptorType r);
    try (exfalso; apply Hne; reflexivity); reflexivity.
Qed.

Lemma bindResource_done (r : ResourceRangeDesc) (d : nat) (l l' : DispatchLocals) :
  bindResource w lDesc dispatchDesc r d l = Done l' ->
  numResourceUpdates l' = S (numResourceUpdates l)
  /\ exists res, nth_error (resources dispatchDesc) (numResourceUpdates l) = Some res
                 /\ descriptorType res = rangeDescriptorType r.
Proof.
  unfold bindResource. intros H.
  step H. step H. step H. step H. step H. inversion H; subst. cbn [numResourceUpdates].
  split; [reflexivity|]. unfold index in E.
  destruct (nth_error (resources dispatchDesc) (numResourceUpdates l)) as [res|];
    [|discriminate E].
  inversion E; subst. exists a. split; [reflexivity|].
  unfold assert in E1.
  destruct (descriptorType a), (rangeDescriptorType r); try discriminate E1; reflexivity.
Qed.

Lemma bindResource_no_assert (r : ResourceRangeDesc) (d : nat) (l : DispatchLocals) :
  (forall res, nth_error (resources dispatchDesc) (numResourceUpdates l) = Some res ->
               descriptorType res = rangeDescriptorType r) ->
  bindResource w lDesc dispatchDesc r d l <> AssertionFailed AssertResourceKind.
Proof.
  intros Hk. unfold bindResource.
  apply obind_no_assert; [apply index_not_assert|]. intros res Hres.
  apply obind_no_assert; [apply assign_not_assert|]. intros updates _.
  unfold index in Hres.
  destruct (nth_error (resources dispatchDesc) (numResourceUpdates l)) as [res'|] eqn:En;
    [|discriminate Hres].
  inversion Hres; subst res'. rewrite (Hk res eq_refl).
  assert (Eq : DescriptorType_eqb (rangeDescriptorType r) (rangeDescriptorType r) = true)
    by (destruct (rangeDescriptorType r); reflexivity).
  rewrite Eq. cbn [assert obind].
  apply obind_no_assert.
  - unfold lookupTexture. destruct (type res); [discriminate| |]; apply index_not_assert.
  - intros texture _. apply obind_no_assert; [apply assign_not_assert|]. discriminate.
Qed.

(** The loop over the descriptors of one range. *)
Lemma descriptors_done (r : ResourceRangeDesc) (ds : list nat) :
  forall l l',
    forEach (bindResource w lDesc dispatchDesc r) ds l = Done l' ->
    numResourceUpdates l' = (numResourceUpdates l + length ds)%nat
    /\ forall j, (j < length ds)%nat ->
         exists res, nth_error (resources dispatchDesc) (numResourceUpdates l + j) = Some res
                     /\ descriptorType res = rangeDescriptorType r.
Proof.
  induction ds as [|d ds IH]; intros l l' H.
  - inversion H; subst. split; [cbn [length]; lia|]. intros j Hj. cbn [length] in Hj. lia.
  - cbn [forEach] in H. step H.
    destruct (bindResource_done _ _ _ _ E) as (Hn & res & Hres & Hk).
    destruct (IH _ _ H) as (Hn' & Hall).
    split; [cbn [length]; lia|]. intros j Hj. destruct j as [|j].
    + exists res. rewrite Nat.add_0_r. auto.
    + destruct (Hall j) as (res' & Hres' & Hk'); [cbn [length] in Hj; lia|].
      exists res'. rewrite Hn in Hres'.
      replace (numResourceUpdates l + S j)%nat with (S (numResourceUpdates l) + j)%nat by lia.
      auto.
Qed.

Lemma descriptors_no_assert (r : ResourceRangeDesc) (ds : list nat) :
  forall l,
    (forall j res, (j < length ds)%nat ->
       nth_error (resources dispatchDesc) (numResourceUpdates l + j) = Some res ->
       descriptorType res = rangeDescriptorType r) ->
    forEach (bindResource w lDesc dispatchDesc r) ds l <> AssertionFailed AssertResourceKind.
Proof.
  induction ds as [|d ds IH]; intros l Hk; [discriminate|].
  cbn [forEach]. apply obind_no_assert.
  - apply bindResource_no_assert. intros res Hres.
    apply (Hk 0%nat res); [cbn [length]; lia|rewrite Nat.add_0_r; exact Hres].
  - intros l1 E. destruct (bindResource_done _ _ _ _ E) as (Hn & _).
    apply IH. intros j res Hj Hres. apply (Hk (S j) res); [cbn [length]; lia|].
    rewrite Hn in Hres.
    replace (numResourceUpdates l + S j)%nat with (S (numResourceUpdates l) + j)%nat by lia.
    exact Hres.
Qed.

Lemma nth_error_repeat {A} (a b : A) (n j : nat) :
  nth_error (repeat a n) j = Some b -> b = a /\ (j < n)%nat.
Proof.
  revert j. induction n as [|n IH]; intros j H; [destruct j; discriminate H|].
  destruct j; cbn in H; [inversion H; split; [reflexivity|lia]|].
  destruct (IH _ H). split; [assumption|lia].
Qed.

(** The loop over the ranges of the pipeline. *)
Lemma ranges_done (ranges : list ResourceRangeDesc) :
  forall l l',
    forEach (bindRange w lDesc dispatchDesc) ranges l = Done l' ->
    numResourceUpdates l' = (numResourceUpdates l + length (rangeKinds ranges))%nat
    /\ forall i k, nth_error (rangeKinds ranges) i = Some k ->
         exists res, nth_error (resources dispatchDesc) (numResourceUpdates l + i) = Some res
                     /\ descriptorType res = k.
Proof.
  induction ranges as [|r ranges IH]; intros l l' H.
  - inversion H; subst. split; [cbn; lia|]. intros i k Hi. destruct i; discriminate Hi.
  - cbn [forEach] in H. step H. unfold bindRange in E.
    destruct (descriptors_done _ _ _ _ E) as (Hn & Hall).
    rewrite length_seq in Hn, Hall.
    destruct (IH _ _ H) as (Hn' & Hall').
    unfold rangeKinds in *. cbn [flat_map]. rewrite length_app, repeat_length.
    split; [lia|]. intros i k Hi.
    destruct (Nat.lt_ge_cases i (N.to_nat (descriptorsNum r))) as [Hlt|Hge].
    + rewrite nth_error_app1 in Hi by (rewrite repeat_length; exact Hlt).
      apply nth_error_repeat in Hi. destruct Hi as (-> & _). apply Hall, Hlt.
    + rewrite nth_error_app2 in Hi by (rewrite repeat_length; exact Hge).
      rewrite repeat_length in Hi.
      destruct (Hall' _ _ Hi) as (res & Hres & Hk). exists res. split; [|exact Hk].
      rewrite Hn in Hres.
      replace (numResourceUpdates l + i)%nat
        with (numResourceUpdates l + N.to_nat (descriptorsNum r)
              + (i - N.to_nat (descriptorsNum r)))%nat by lia.
      exact Hres.
Qed.

Lemma ranges_no_assert (ranges : list ResourceRangeDesc) :
  forall l,
    (forall i k res, nth_error (rangeKinds ranges) i = Some k ->
       nth_error (resources dispatchDesc) (numResourceUpdates l + i) = Some res ->
       descriptorType res = k) ->
    forEach (bindRange w lDesc dispatchDesc) ranges l <> AssertionFailed AssertResourceKind.
Proof.
  induction ranges as [|r ranges IH]; intros l Hk; [discriminate|].
  cbn [forEach]. apply obind_no_assert.
  - unfold bindRange. apply descriptors_no_assert. rewrite length_seq.
    intros j res Hj Hres. apply (Hk j (rangeDescriptorType r) res); [|exact Hres].
    unfold rangeKinds. cbn [flat_map].
    rewrite nth_error_app1 by (rewrite repeat_length; exact Hj).
    apply nth_error_repeat_lt. exact Hj.
  - intros l1 E. unfold bindRange in E.
    destruct (descriptors_done _ _ _ _ E) as (Hn & _). rewrite length_seq in Hn.
    apply IH. intros i k res Hi Hres.
    apply (Hk (N.to_nat (descriptorsNum r) + i)%nat k res).
    + unfold rangeKinds in *. cbn [flat_map].
      rewrite nth_error_app2 by (rewrite repeat_length; lia).
      rewrite repeat_length.
      replace (N.to_nat (descriptorsNum r) + i - N.to_nat (descriptorsNum r))%nat with i by lia.
      exact Hi.
    + rewrite Hn in Hres.
      replace (numResourceUpdates l + (N.to_nat (descriptorsNum r) + i))%nat
        with (numResourceUpdates l + N.to_nat (descriptorsNum r) + i)%nat by lia.
      exact Hres.
Qed.

Lemma samplers_no_assert (ss : list nat) (x : Assertion) :
  forall l, forEach (bindSampler iDesc lDesc) ss l <> AssertionFailed x.
Proof.
  induction ss as [|s0 ss IH]; intros l; [discriminate|].
  cbn [forEach]. apply obind_no_assert; [|intros l1 _; apply IH].
  unfold bindSampler. apply obind_no_assert; [apply index_not_assert|]. intros _ _.
  apply obind_no_assert; [apply assign_not_assert|]. discriminate.
Qed.

Lemma in_firstn_nth {A} (l : list A) :
  forall n a, nth_error l n = Some a -> In a (firstn (S n) l).
Proof.
  induction l as [|h t IH]; intros n a H; [destruct n; discriminate H|].
  destruct n; cbn in H.
  - inversion H; subst. left. reflexivity.
  - right. apply IH, H.
Qed.

(** C2: the assertion on the kinds.  When every resource entry of a
    dispatch reports the kind its range declares, the assertion does not
    fail.  A dispatch that records its commands had matching kinds on every
    entry the pipeline declares (so a mismatch leaves nothing recorded),
    and a resource whose kind differs from its range's makes the loop
    body fail with the assertion, before the texture is looked up and
    before any barrier or descriptor is recorded for it. *)
Theorem resource_kind_invariant (pDesc : PipelineDesc)
    (Hpipe : nth_error (pipelines iDesc) (N.to_nat (pipelineIndex dispatchDesc))
             = Some pDesc) :
  (kindsMatch pDesc dispatchDesc ->
   dispatch w iDesc lDesc dispatchDesc <> AssertionFailed AssertResourceKind)
  /\ (forall cmds,
        dispatch w iDesc lDesc dispatchDesc = Done cmds ->
        kindsMatch pDesc dispatchDesc
        /\ (length (expectedKinds pDesc) <= length (resources dispatchDesc))%nat)
  /\ (forall r d l res,
        nth_error (resources dispatchDesc) (numResourceUpdates l) = Some res ->
        (numResourceUpdates l < length (descriptorUpdates l))%nat ->
        descriptorType res <> rangeDescriptorType r ->
        bindResource w lDesc dispatchDesc r d l = AssertionFailed AssertResourceKind).
Proof.
  assert (Hidx : index (pipelines iDesc) (N.to_nat (pipelineIndex dispatchDesc)) = Done pDesc)
    by (unfold index; rewrite Hpipe; reflexivity).
  refine (conj _ (conj _ _)).
  - intros Hk. unfold dispatch. rewrite Hidx. cbn [obind].
    apply obind_no_assert; [apply index_not_assert|]. intros pipe _.
    apply obind_no_assert.
    { unfold assert. destruct (_ && _); discriminate. }
    intros _ _. apply obind_no_assert.
    { apply ranges_no_assert. cbn [numResourceUpdates]. exact Hk. }
    intros l1 _. apply obind_no_assert; [apply samplers_no_assert|]. intros l2 _.
    apply obind_no_assert.
    { destruct (hasConstantData pDesc); [|discriminate].
      apply obind_no_assert; [apply assign_not_assert|]. discriminate. }
    intros [l3 up] _. discriminate.
  - intros cmds H. unfold dispatch in H. rewrite Hidx in H. cbn [obind] in H.
    step H. step H. step H.
    destruct (ranges_done _ _ _ E1) as (_ & Hall). cbn [numResourceUpdates] in Hall.
    split.
    + intros i k res Hi Hres. destruct (Hall i k Hi) as (res' & Hres' & Hk').
      rewrite Nat.add_0_l in Hres'. congruence.
    + destruct (Nat.le_gt_cases (length (expectedKinds pDesc))
                  (length (resources dispatchDesc))) as [Hle|Hgt]; [exact Hle|exfalso].
      destruct (nth_error (expectedKinds pDesc) (length (resources dispatchDesc)))
        as [k|] eqn:En; [|apply nth_error_None in En; lia].
      destruct (Hall _ _ En) as (res & Hres & _). rewrite Nat.add_0_l in Hres.
      assert (Hnone : nth_error (resources dispatchDesc) (length (resources dispatchDesc))
                      = None) by (apply nth_error_None; lia).
      congruence.
  - intros r d l res. apply bindResource_mismatch.
Qed.

(** C9: a dispatch that records its commands uploads the constant data
    if and only if its pipeline has constant data and the flag does not
    say that the data matches the previous dispatch.  The upload comes
    first and is the buffer barrier from shader read to transfer write, the
    update of the buffer and the buffer barrier from transfer write to
    shader read; no other command touches the buffer, and without an upload
    no buffer barrier is recorded and the contents of the buffer stay as
    they are.  A pipeline with constant data gets the constant buffer bound
    by the pushed descriptor writes in both cases. *)
Theorem constant_buffer_upload (pDesc : PipelineDesc) (cmds : list Cmd) (contents : list N)
    (Hpipe : nth_error (pipelines iDesc) (N.to_nat (pipelineIndex dispatchDesc))
             = Some pDesc)
    (Hdone : dispatch w iDesc lDesc dispatchDesc = Done cmds) :
  let upload :=
    if uploads pDesc dispatchDesc
    then [CmdBufferBarrier VK_PIPELINE_STAGE_COMPUTE_SHADER_BIT VK_PIPELINE_STAGE_TRANSFER_BIT
         (mkBufferMemoryBarrier VK_ACCESS_SHADER_READ_BIT VK_ACCESS_TRANSFER_WRITE_BIT
            (m_constantBuffer w));
       CmdUpdateBuffer (m_constantBuffer w) 0 (constantBufferData dispatchDesc);
       CmdBufferBarrier VK_PIPELINE_STAGE_TRANSFER_BIT VK_PIPELINE_STAGE_COMPUTE_SHADER_BIT
         (mkBufferMemoryBarrier VK_ACCESS_TRANSFER_WRITE_BIT VK_ACCESS_SHADER_READ_BIT
            (m_constantBuffer w))]
    else [] in
  exists rest,
    cmds = upload ++ rest
    /\ filter isBufferCmd rest = []
    /\ filter isBufferCmd cmds = upload
    /\ execCmds (m_constantBuffer w) contents cmds
       = (if uploads pDesc dispatchDesc
          then updateBuffer contents (constantBufferData dispatchDesc) else contents)
    /\ (hasConstantData pDesc = true ->
        exists layout set writes infos,
          In (CmdPushDescriptorSet layout set writes infos) rest
          /\ In (constantBufferWrite w lDesc) writes).
Proof.
  assert (Hidx : index (pipelines iDesc) (N.to_nat (pipelineIndex dispatchDesc)) = Done pDesc)
    by (unfold index; rewrite Hpipe; reflexivity).
  cbv zeta. unfold dispatch in Hdone. rewrite Hidx in Hdone. cbn [obind] in Hdone.
  step Hdone. step Hdone. step Hdone. step Hdone. step Hdone.
  destruct a3 as [l3 up]. inversion Hdone; subst cmds. clear Hdone.
  unfold uploads.
  destruct (hasConstantData pDesc) eqn:Hc.
  - step E3. inversion E3; subst l3 up. clear E3.
    destruct (assign_done _ _ _ _ E4) as (_ & Hnth).
    cbn [andb numResourceUpdates descriptorUpdates descriptorImageInfos imageBarriers].
    assert (Hpush : exists layout set writes infos,
                In (CmdPushDescriptorSet layout set writes infos)
                   [CmdImageBarriers VK_PIPELINE_STAGE_COMPUTE_SHADER_BIT
                      VK_PIPELINE_STAGE_COMPUTE_SHADER_BIT (imageBarriers a2);
                    CmdPushDescriptorSet (pipelineLayout a) (m_resourcesSetIndex w)
                      (firstn (S (numResourceUpdates a2)) a3) (descriptorImageInfos a2);
                    CmdBindPipeline (pipeline a);
                    CmdDispatch (gridWidth dispatchDesc) (gridHeight dispatchDesc) 1]
                /\ In (constantBufferWrite w lDesc) writes).
    { do 4 eexists. split; [right; left; reflexivity|].
      apply in_firstn_nth. exact Hnth. }
    destruct (constantBufferDataMatchesPreviousDispatch dispatchDesc); cbn [negb];
      eexists; (split; [reflexivity|]).
    + refine (conj eq_refl (conj eq_refl (conj eq_refl (fun _ => Hpush)))).
    + refine (conj eq_refl (conj eq_refl (conj _ (fun _ => Hpush)))).
      unfold execCmds, uploadConstants. cbn [app fold_left execCmd].
      rewrite N.eqb_refl. reflexivity.
  - inversion E3; subst l3 up. clear E3. cbn [andb].
    eexists. split; [reflexivity|].
    refine (conj eq_refl (conj eq_refl (conj eq_refl _))). discriminate.
Qed.

End Dispatch.
End DispatchFacts.

(** ** The wrapper theorems on the example instance *)

Module WrapperWitnesses.

Import NRDWrapper Examples PoolFacts DispatchFacts.

Lemma pool_textures_sized_and_cleared_witness :
  exists w a' cmds,
    construct exampleInstance 1921 1080 exampleUserPool exampleAllocator = Done (w, a', cmds)
    /\ Forall2 (textureMatches 1921 1080 a') (transientPool exampleInstance)
         (m_transientTextures w)
    /\ Forall (clearedToZero cmds) (m_permanentTextures w ++ m_transientTextures w).
Proof.
  destruct (pool_textures_sized_and_cleared exampleInstance 1921 1080 exampleUserPool
              exampleAllocator) as ((w & a' & cmds & E & _ & Ht & Hc) & _).
  - split; [discriminate|reflexivity].
  - split; [discriminate|reflexivity].
  - split; [reflexivity|constructor].
  - repeat constructor; cbn; try discriminate; lia.
  - repeat constructor; cbn; try discriminate; lia.
  - exists w, a', cmds. auto.
Defined.

Lemma resource_kind_invariant_witness :
  dispatch exampleWrapper exampleInstance exampleOffsets (exampleDispatch TEXTURE false)
  <> AssertionFailed AssertResourceKind
  /\ dispatch exampleWrapper exampleInstance exampleOffsets
       (exampleDispatch STORAGE_TEXTURE false)
     = AssertionFailed AssertResourceKind.
Proof.
  split.
  - refine (proj1 (resource_kind_invariant exampleWrapper exampleInstance exampleOffsets
                     (exampleDispatch TEXTURE false)
                     (mkPipelineDesc [mkResourceRangeDesc TEXTURE 0 2;
                                      mkResourceRangeDesc STORAGE_TEXTURE 0 1] true)
                     eq_refl) _).
    intros i k res Hi Hres.
    destruct i as [|[|[|i]]]; cbn in Hi, Hres;
      try (destruct i; discriminate Hres); inversion Hi; inversion Hres; reflexivity.
  - reflexivity.
Defined.

Lemma constant_buffer_upload_witness :
  let cmds :=
    match dispatch exampleWrapper exampleInstance exampleOffsets (exampleDispatch TEXTURE false)
    with
    | Done c => c
    | _ => []
    end in
  filter isBufferCmd cmds
  = [CmdBufferBarrier VK_PIPELINE_STAGE_COMPUTE_SHADER_BIT VK_PIPELINE_STAGE_TRANSFER_BIT
       (mkBufferMemoryBarrier VK_ACCESS_SHADER_READ_BIT VK_ACCESS_TRANSFER_WRITE_BIT
          (m_constantBuffer exampleWrapper));
     CmdUpdateBuffer (m_constantBuffer exampleWrapper) 0 [1; 2; 3; 4]%N;
     CmdBufferBarrier VK_PIPELINE_STAGE_TRANSFER_BIT VK_PIPELINE_STAGE_COMPUTE_SHADER_BIT
       (mkBufferMemoryBarrier VK_ACCESS_TRANSFER_WRITE_BIT VK_ACCESS_SHADER_READ_BIT
          (m_constantBuffer exampleWrapper))]
  /\ execCmds (m_constantBuffer exampleWrapper) [0; 0; 0; 0; 0; 0]%N cmds
     = [1; 2; 3; 4; 0; 0]%N.
Proof.
  cbv zeta.
  destruct (constant_buffer_upload exampleWrapper exampleInstance exampleOffsets
              (exampleDispatch TEXTURE false)
              (mkPipelineDesc [mkResourceRangeDesc TEXTURE 0 2;
                               mkResourceRangeDesc STORAGE_TEXTURE 0 1] true)
              (match dispatch exampleWrapper exampleInstance exampleOffsets
                       (exampleDispatch TEXTURE false)
               with
               | Done c => c
               | _ => []
               end)
              [0; 0; 0; 0; 0; 0]%N eq_refl)
    as (rest & _ & _ & Hf & He & _).
  - vm_compute. reflexivity.
  - split; [exact Hf|exact He].
Defined.

End WrapperWitnesses.

(** ** The signals: fireflies and the (de-)modulation factors *)

Module SignalFacts.

Import RayCommon HostDevice Shading Shaders NrdGlsl NrdRgen GlslFacts PsrFacts LobeFacts
  DemodulationFacts Signal.

Lemma Qltb_true (a b : Q) : Qltb a b = true -> a < b.
Proof.
  unfold Qltb. intros H. apply negb_true_iff in H.
  apply Qnot_le_lt. intros Hle. apply Qle_bool_iff in Hle. congruence.
Qed.

Lemma Qltb_false (a b : Q) : Qltb a b = false -> b <= a.
Proof.
  unfold Qltb. intros H. apply negb_false_iff in H. apply Qle_bool_iff. exact H.
Qed.

Lemma luminance_scaled (v : vec3) (k : Q) : luminance (vs v k) == k * luminance v.
Proof. unfold luminance, dot, vs. cbn [vx vy vz]. ring. Qed.

Lemma removeFireflies_cases (maxLum : Q) (accum : vec3) :
  0 <= maxLum ->
  (luminance accum <= maxLum /\ removeFireflies maxLum accum = accum)
  \/ (maxLum < luminance accum
      /\ removeFireflies maxLum accum = vs accum (maxLum / luminance accum)
      /\ luminance (removeFireflies maxLum accum) == maxLum
      /\ 0 <= maxLum / luminance accum <= 1).
Proof.
  intros Hmax. unfold removeFireflies. fold (luminance accum).
  destruct (Qltb maxLum (luminance accum)) eqn:E.
  - right. apply Qltb_true in E. split; [exact E|]. split; [reflexivity|].
    assert (Hl : 0 < luminance accum) by lra.
    split.
    + rewrite luminance_scaled. field. lra.
    + split.
      * apply Qle_shift_div_l; [exact Hl|]. lra.
      * apply Qle_shift_div_r; [exact Hl|]. lra.
  - left. apply Qltb_false in E. split; [exact E|reflexivity].
Qed.

Section WithScene.

Context {lib : ShaderLib} {scene : Scene}.
Variable frameInfo : FrameInfo.
Variable pc : RtxPushConstant.
Variable uninit : Uninitialized.

(** X1: the removal of fireflies.  With a [maxLuminance] that is not
    negative, the luminance of the result is the smaller of the luminance
    of the radiance and [maxLuminance]; radiance below the bound is returned
    as it is, radiance above it is scaled by a factor between 0 and 1, so its
    colour is kept.  A lobe whose sample is not an absorption event returns
    radiance whose luminance is at most [pc.maxLuminance]. *)
Theorem fireflies_bounded (maxLum : Q) (accum : vec3) (Hmax : 0 <= maxLum) :
  luminance (removeFireflies maxLum accum) == Qmin (luminance accum) maxLum
  /\ (luminance accum <= maxLum -> removeFireflies maxLum accum = accum)
  /\ (exists k, 0 <= k <= 1 /\ veq (removeFireflies maxLum accum) (vs accum k))
  /\ (forall fuel hitTReset sample org accum0 ratio s a pl s',
        maxLum = maxLuminance pc ->
        isAbsorb (event_type sample) = false ->
        indirectLobe frameInfo pc uninit fuel hitTReset sample org accum0 ratio s
        = (Some (a, pl), s') ->
        luminance a <= maxLuminance pc).
Proof.
  refine (conj _ (conj _ (conj _ _))).
  - destruct (removeFireflies_cases maxLum accum Hmax) as [(Hle & ->)|(Hlt & _ & Hl & _)].
    + rewrite Q.min_l by exact Hle. reflexivity.
    + rewrite Hl. rewrite Q.min_r by (apply Qlt_le_weak; exact Hlt). reflexivity.
  - intros Hle. unfold removeFireflies. fold (luminance accum).
    destruct (Qltb maxLum (luminance accum)) eqn:E; [|reflexivity].
    apply Qltb_true in E. lra.
  - destruct (removeFireflies_cases maxLum accum Hmax) as [(Hle & ->)|(Hlt & -> & _ & Hk)].
    + exists 1. split; [lra|]. unfold veq, vs. cbn [vx vy vz].
      refine (conj _ (conj _ _)); ring.
    + exists (maxLum / luminance accum). split; [exact Hk|apply veq_refl].
  - intros fuel r sample org accum0 ratio s a pl s' -> Ha H.
    unfold indirectLobe in H. rewrite Ha in H. cbn [negb] in H.
    unfold bind, getPayload, setPayload in H.
    match type of H with
    | context [NrdRgen.indirectLoop ?a ?b ?c ?d ?e ?f ?g ?h ?i ?st] =>
        destruct (NrdRgen.indirectLoop a b c d e f g h i st) as [[[a1 pl1]|] s1]
    end; [|discriminate H].
    inversion H; subst.
    destruct (removeFireflies_cases (maxLuminance pc) a1 Hmax) as [(Hle & ->)|(_ & _ & Hl & _)].
    + exact Hle.
    + rewrite Hl. apply Qle_refl.
Qed.

End WithScene.

Lemma saturate3_within (v : vec3) : within 0 1 (saturate3 v).
Proof.
  unfold within, saturate3. cbn [vx vy vz].
  pose proof (saturate_bounds (vx v)). pose proof (saturate_bounds (vy v)).
  pose proof (saturate_bounds (vz v)). tauto.
Qed.

Lemma modulation_within (f : vec3) : within 0 1 f -> within 0.01 1 (modulation f).
Proof.
  unfold within, modulation, vadds, vs. cbn [vx vy vz].
  intros ((? & ?) & (? & ?) & (? & ?)). repeat split; lra.
Qed.

Lemma EnvironmentTerm_within m2 m3 (Rf0 : vec3) (NoV r : Q) :
  within 0 1 (EnvironmentTerm_Rtg m2 m3 Rf0 NoV r).
Proof. unfold EnvironmentTerm_Rtg. cbv zeta. apply saturate3_within. Qed.

Lemma modulation_round_trip (x f : vec3) :
  within 0.01 1 (modulation f) ->
  veq (Compositing.remodulate (demodulate x f) f) x.
Proof.
  unfold within, modulation, vadds, vs. cbn [vx vy vz].
  intros ((? & ?) & (? & ?) & (? & ?)).
  apply remodulate_demodulate; intros E; rewrite E in *; lra.
Qed.

(** X2: the specular factor.  For every material, angle and roughness,
    and for either product the macro [mul] may stand for, the environment
    term has its components in [0, 1] and [PositiveRcp] is positive; so the
    factor [Fenv * 0.99 + 0.01] lies in [0.01, 1] in nrd.rgen and in the
    compositing shader: the de-modulation never divides by zero, and
    multiplying the de-modulated signal with the same factor gives the signal
    back. *)
Theorem specular_factor_range {lib : ShaderLib} (m : PbrMaterial) (VdotN : Q)
    (baseColor : vec3) (metalness NoV linearRoughness : Q) (x : vec3) :
  within 0.01 1 (modulation (NrdRgen.specularFenv m VdotN))
  /\ within 0.01 1
       (modulation (Compositing.specularFenv baseColor metalness NoV linearRoughness))
  /\ veq (Compositing.remodulate (demodulate x (NrdRgen.specularFenv m VdotN))
            (NrdRgen.specularFenv m VdotN)) x
  /\ (forall y, 0 < PositiveRcp y /\ PositiveRcp y <= 1e15).
Proof.
  assert (H1 : within 0.01 1 (modulation (NrdRgen.specularFenv m VdotN))).
  { apply modulation_within. unfold NrdRgen.specularFenv.
    cbn [ConvertBaseColorMetalnessToAlbedoRf0]. apply EnvironmentTerm_within. }
  refine (conj H1 (conj _ (conj _ _))).
  - apply modulation_within. unfold Compositing.specularFenv.
    cbn [ConvertBaseColorMetalnessToAlbedoRf0]. apply EnvironmentTerm_within.
  - apply modulation_round_trip, H1.
  - intros y. unfold PositiveRcp, FLT_MIN.
    assert (Hm : 1e-15 <= Qmax y 1e-15) by apply Q.le_max_r.
    assert (Hp : 0 < Qmax y 1e-15) by (eapply Qlt_le_trans; [|exact Hm]; reflexivity).
    split.
    + apply Qlt_shift_div_l; [exact Hp|]. lra.
    + apply Qle_shift_div_r; [exact Hp|].
      setoid_replace 1 with (1e15 * 1e-15) at 1 by reflexivity.
      apply Qmult_le_l; [reflexivity|exact Hm].
Qed.

(** X3: the diffuse signal.  For a base colour without negative
    components the factor [baseColor * 0.99 + 0.01] is at least 0.01, and the
    re-modulation of the compositing shader undoes the de-modulation of
    nrd.rgen. *)
Theorem diffuse_signal_restored (x baseColor : vec3)
    (Hx : 0 <= vx baseColor) (Hy : 0 <= vy baseColor) (Hz : 0 <= vz baseColor) :
  veq (Compositing.remodulate (demodulate x baseColor) baseColor) x
  /\ 0.01 <= vx (modulation baseColor)
  /\ 0.01 <= vy (modulation baseColor)
  /\ 0.01 <= vz (modulation baseColor).
Proof.
  split; [apply diffuse_round_trip; assumption|].
  unfold modulation, vadds, vs. cbn [vx vy vz]. repeat split; lra.
Qed.

Lemma diffuse_signal_restored_witness :
  veq (Compositing.remodulate (demodulate (Vec3 1 2 3) (Vec3 0 (1 # 2) 1)) (Vec3 0 (1 # 2) 1))
    (Vec3 1 2 3).
Proof.
  apply (diffuse_signal_restored (Vec3 1 2 3) (Vec3 0 (1 # 2) 1)); cbn [vx vy vz]; lra.
Defined.

(** X4: the specular signal.  When the angle term [VdotN] is not
    negative, the factor of the compositing shader, computed from the same
    base colour, metalness, angle and linear roughness, is the factor nrd.rgen
    divided by, and the re-modulation gives the signal back. *)
Theorem specular_signal_restored {lib : ShaderLib} (x : vec3) (m : PbrMaterial) (VdotN : Q)
    (Hpos : 0.0 <= VdotN) :
  NrdRgen.specularFenv m VdotN
  = Compositing.specularFenv (baseColor m) (metallic m) VdotN (fsqrt (x2 (roughness m)))
  /\ veq (Compositing.remodulate
            (demodulate x (NrdRgen.specularFenv m VdotN))
            (Compositing.specularFenv (baseColor m) (metallic m) VdotN
               (fsqrt (x2 (roughness m))))) x.
Proof. apply specular_round_trip. exact Hpos. Qed.

Lemma specular_signal_restored_witness :
  veq (Compositing.remodulate
         (demodulate (Vec3 1 2 3)
            (NrdRgen.specularFenv (lib := Examples.exampleLib true false)
               Examples.diffuseMaterial (1 # 2)))
         (Compositing.specularFenv (lib := Examples.exampleLib true false)
            (splat3 (1 # 2)) 0 (1 # 2) (1 # 2))) (Vec3 1 2 3).
Proof.
  apply (specular_signal_restored (lib := Examples.exampleLib true false) (Vec3 1 2 3)
           Examples.diffuseMaterial (1 # 2)).
  discriminate.
Defined.

Lemma saturate_id (x : Q) : 0 <= x <= 1 -> saturate x == x.
Proof.
  intros (H0 & H1). unfold saturate. rewrite Q.max_l by exact H0.
  rewrite Q.min_l by exact H1. reflexivity.
Qed.

Lemma saturate_low (x : Q) : x <= 0 -> saturate x == 0.
Proof.
  intros H. unfold saturate. rewrite Q.max_r by exact H.
  rewrite Q.min_l by lra. reflexivity.
Qed.

Lemma mix_between (a b t : Q) :
  0 <= t <= 1 -> Qmin a b <= a * (1 - t) + b * t <= Qmax a b.
Proof.
  intros (H0 & H1).
  destruct (Q.min_spec a b) as [(Hlt & ->)|(Hle & ->)];
    destruct (Q.max_spec a b) as [(Hlt' & ->)|(Hle' & ->)]; split; nra.
Qed.

(** X5: albedo and reflectance.  For a metalness in [0, 1] the albedo is
    the base colour scaled by [1 - metalness] and [Rf0] is the mix of 0.04
    and the base colour, which lies between the two; a dielectric
    (metalness 0) keeps its base colour as albedo and reflects 0.04, a metal
    (metalness 1) has no albedo and reflects its base colour; a metalness
    above 1 still gives the albedo 0. *)
Theorem albedo_and_reflectance (baseColor : vec3) (metalness : Q) :
  let (albedo, Rf0) := ConvertBaseColorMetalnessToAlbedoRf0 baseColor metalness in
  (0 <= metalness <= 1 ->
     veq albedo (vs baseColor (1 - metalness))
     /\ Qmin 0.04 (vx baseColor) <= vx Rf0 <= Qmax 0.04 (vx baseColor)
     /\ Qmin 0.04 (vy baseColor) <= vy Rf0 <= Qmax 0.04 (vy baseColor)
     /\ Qmin 0.04 (vz baseColor) <= vz Rf0 <= Qmax 0.04 (vz baseColor))
  /\ (metalness == 0 -> veq albedo baseColor /\ veq Rf0 (splat3 0.04))
  /\ (metalness == 1 -> veq albedo (splat3 0) /\ veq Rf0 baseColor)
  /\ (1 <= metalness -> veq albedo (splat3 0)).
Proof.
  cbn [ConvertBaseColorMetalnessToAlbedoRf0].
  unfold STL_RF0_DIELECTRICS, mix3, veq, vs, vadd, splat3. cbn [vx vy vz].
  refine (conj _ (conj _ (conj _ _))).
  - intros (H0 & H1).
    rewrite (saturate_id (1.0 - metalness)) by (split; lra).
    split; [refine (conj _ (conj _ _)); ring|].
    refine (conj _ (conj _ _)); apply mix_between; split; assumption.
  - intros E. rewrite (saturate_id (1.0 - metalness)) by (rewrite E; split; lra).
    rewrite E. split; refine (conj _ (conj _ _)); ring.
  - intros E. rewrite (saturate_id (1.0 - metalness)) by (rewrite E; split; lra).
    rewrite E. split; refine (conj _ (conj _ _)); ring.
  - intros H1. rewrite (saturate_low (1.0 - metalness)) by lra.
    refine (conj _ (conj _ _)); ring.
Qed.

End SignalFacts.

(** ** get_hit.glsl: the normals after the back-face flip *)

Module GetHitFacts.

Import GetHit SignalFacts.

Lemma Qltb_ge (a b : Q) : b <= a -> Qltb a b = false.
Proof.
  intros H. unfold Qltb. apply negb_false_iff. apply Qle_bool_iff. exact H.
Qed.

Lemma dot_vneg_l (a b : vec3) : dot (vneg a) b == - dot a b.
Proof. unfold dot, vneg. cbn [vx vy vz]. ring. Qed.

Lemma dot_vneg_r (a b : vec3) : dot a (vneg b) == - dot a b.
Proof. unfold dot, vneg. cbn [vx vy vz]. ring. Qed.

(** X6: the back-face flip.  After [adjustShadingNormalToRayDir] the
    geometric normal does not face away from the viewer, and the shading
    normal is on the side of the geometric normal; each of the two is the
    given vector or its negation, so the lengths are kept; and the
    function changes nothing when it is applied again.  The shading normal
    itself may still face away from the viewer. *)
Theorem normals_after_flip :
  (forall d N G : vec3,
     let (N', G') := adjustShadingNormalToRayDir d N G in
     0 <= dot G' (vneg d)
     /\ 0 <= dot G' N'
     /\ (G' = G \/ G' = vneg G)
     /\ (N' = N \/ N' = vneg N)
     /\ dot N' N' == dot N N
     /\ dot G' G' == dot G G
     /\ adjustShadingNormalToRayDir d N' G' = (N', G'))
  /\ exists d N G : vec3,
       dot (fst (adjustShadingNormalToRayDir d N G)) (vneg d) < 0.
Proof.
  split.
  - intros d N G. unfold adjustShadingNormalToRayDir. cbv zeta.
    destruct (Qltb (dot G (vneg d)) 0) eqn:EG.
    + apply Qltb_true in EG.
      assert (HG : 0 <= dot (vneg G) (vneg d)) by (rewrite dot_vneg_l; lra).
      destruct (Qltb (dot (vneg G) N) 0) eqn:EN.
      * apply Qltb_true in EN.
        assert (HN : 0 <= dot (vneg G) (vneg N)) by (rewrite dot_vneg_r; lra).
        refine (conj HG (conj HN (conj (or_intror eq_refl) (conj (or_intror eq_refl) _)))).
        refine (conj _ (conj _ _)).
        -- rewrite dot_vneg_l, dot_vneg_r. ring.
        -- rewrite dot_vneg_l, dot_vneg_r. ring.
        -- rewrite (Qltb_ge _ _ HG), (Qltb_ge _ _ HN). reflexivity.
      * apply Qltb_false in EN.
        refine (conj HG (conj EN (conj (or_intror eq_refl) (conj (or_introl eq_refl) _)))).
        refine (conj _ (conj _ _)).
        -- reflexivity.
        -- rewrite dot_vneg_l, dot_vneg_r. ring.
        -- rewrite (Qltb_ge _ _ HG), (Qltb_ge _ _ EN). reflexivity.
    + apply Qltb_false in EG.
      destruct (Qltb (dot G N) 0) eqn:EN.
      * apply Qltb_true in EN.
        assert (HN : 0 <= dot G (vneg N)) by (rewrite dot_vneg_r; lra).
        refine (conj EG (conj HN (conj (or_introl eq_refl) (conj (or_intror eq_refl) _)))).
        refine (conj _ (conj _ _)).
        -- rewrite dot_vneg_l, dot_vneg_r. ring.
        -- reflexivity.
        -- rewrite (Qltb_ge _ _ EG), (Qltb_ge _ _ HN). reflexivity.
      * apply Qltb_false in EN.
        refine (conj EG (conj EN (conj (or_introl eq_refl) (conj (or_introl eq_refl) _)))).
        refine (conj _ (conj _ _)); try reflexivity.
        rewrite (Qltb_ge _ _ EG), (Qltb_ge _ _ EN). reflexivity.
  - exists (Vec3 0 0 (-1)), (Vec3 2 0 (-1)), (Vec3 1 0 1). reflexivity.
Qed.

End GetHitFacts.

(** ** The temporal anti-aliasing shader *)

Module TaaFacts.

Import Signal Taa SignalFacts.

Lemma Qmin_within (lo hi a b : Q) :
  lo <= a <= hi -> lo <= b <= hi -> lo <= Qmin a b <= hi.
Proof.
  intros (? & ?) (? & ?).
  destruct (Q.min_spec a b) as [(? & E)|(? & E)]; rewrite E; split; assumption.
Qed.

Lemma Qmax_within (lo hi a b : Q) :
  lo <= a <= hi -> lo <= b <= hi -> lo <= Qmax a b <= hi.
Proof.
  intros (? & ?) (? & ?).
  destruct (Q.max_spec a b) as [(? & E)|(? & E)]; rewrite E; split; assumption.
Qed.

Lemma clamp_within (lo hi v a b : Q) :
  lo <= a <= hi -> lo <= b <= hi -> lo <= Qmin (Qmax v a) b <= hi.
Proof.
  intros (? & ?) (? & ?). split.
  - apply Q.min_glb; [|assumption]. eapply Qle_trans; [|apply Q.le_max_r]. assumption.
  - eapply Qle_trans; [apply Q.le_min_r|assumption].
Qed.

Lemma vmin_within lo hi a b : within lo hi a -> within lo hi b -> within lo hi (vmin a b).
Proof.
  unfold within, vmin. cbn [vx vy vz]. intros (? & ? & ?) (? & ? & ?).
  refine (conj _ (conj _ _)); apply Qmin_within; assumption.
Qed.

Lemma vmax_within lo hi a b : within lo hi a -> within lo hi b -> within lo hi (vmax a b).
Proof.
  unfold within, vmax. cbn [vx vy vz]. intros (? & ? & ?) (? & ? & ?).
  refine (conj _ (conj _ _)); apply Qmax_within; assumption.
Qed.

Lemma vclamp_within lo hi v a b : within lo hi a -> within lo hi b -> within lo hi (vclamp v a b).
Proof.
  unfold within, vclamp, vmin, vmax. cbn [vx vy vz]. intros (? & ? & ?) (? & ? & ?).
  refine (conj _ (conj _ _)); apply clamp_within; assumption.
Qed.

Lemma mix3_within lo hi a b t :
  0 <= t <= 1 -> within lo hi a -> within lo hi b -> within lo hi (mix3 a b t).
Proof.
  unfold within, mix3, vadd, vs. cbn [vx vy vz].
  intros (? & ?) ((? & ?) & (? & ?) & (? & ?)) ((? & ?) & (? & ?) & (? & ?)).
  repeat split; nra.
Qed.

Section WithImages.

Variable iImage0 : Image2D.
Variable oImage : Image2D.
Variable alpha : Q.
Variable fragCoord : Z * Z.

Lemma neighbour_within lo hi iy ix acc :
  within lo hi (rgb (iImage0 (fst fragCoord + ix, snd fragCoord + iy)%Z)) ->
  within lo hi (fst acc) /\ within lo hi (snd acc) ->
  within lo hi (fst (neighbour iImage0 fragCoord iy ix acc))
  /\ within lo hi (snd (neighbour iImage0 fragCoord iy ix acc)).
Proof.
  intros Hc (H1 & H2). unfold neighbour.
  destruct ((ix =? 0) && (iy =? 0))%Z; [split; assumption|].
  cbn [fst snd]. split; [apply vmin_within|apply vmax_within]; assumption.
Qed.

(** X7: the anti-ghosting clamp.  When the components of this frame's
    render lie between [lo] and [hi] on the pixel and its eight neighbours
    and [alpha] is in [0, 1], the colour [TAA] returns lies between [lo] and
    [hi] whatever last frame's pixel holds; with [alpha] 1 it is this frame's
    pixel.  An invocation outside the image stores nothing, one inside
    stores the colour with alpha 0. *)
Theorem taa_keeps_neighbourhood_range (lo hi : Q)
    (Halpha : 0 <= alpha <= 1)
    (Hn : forall ix iy, (-1 <= ix <= 1)%Z -> (-1 <= iy <= 1)%Z ->
            within lo hi (rgb (iImage0 (fst fragCoord + ix, snd fragCoord + iy)%Z))) :
  within lo hi (TAA iImage0 oImage alpha fragCoord)
  /\ (alpha == 1 -> veq (TAA iImage0 oImage alpha fragCoord) (rgb (iImage0 fragCoord)))
  /\ (forall imgSize,
        Taa.main iImage0 oImage alpha imgSize fragCoord
        = if ((fst fragCoord <? fst imgSize) && (snd fragCoord <? snd imgSize))%Z
          then Some (vec4_of (TAA iImage0 oImage alpha fragCoord) 0)
          else None).
Proof.
  assert (Hcenter : within lo hi (rgb (iImage0 fragCoord))).
  { specialize (Hn 0%Z 0%Z ltac:(lia) ltac:(lia)).
    rewrite !Z.add_0_r in Hn. destruct fragCoord. exact Hn. }
  assert (Hnb : within lo hi (fst (neighbourhood iImage0 fragCoord))
                /\ within lo hi (snd (neighbourhood iImage0 fragCoord))).
  { unfold neighbourhood. cbn [fold_left].
    repeat (apply neighbour_within; [apply Hn; lia|]).
    split; exact Hcenter. }
  refine (conj _ (conj _ _)).
  - unfold TAA. destruct (neighbourhood iImage0 fragCoord) as [mn mx].
    cbn [fst snd] in Hnb. destruct Hnb as (Hmn & Hmx).
    apply mix3_within; [exact Halpha| |exact Hcenter].
    apply vclamp_within; assumption.
  - intros E. unfold TAA. destruct (neighbourhood iImage0 fragCoord) as [mn mx].
    unfold veq, mix3, vadd, vs. cbn [vx vy vz]. rewrite E.
    refine (conj _ (conj _ _)); ring.
  - intros imgSize. unfold Taa.main.
    destruct (Z.leb_spec (fst imgSize) (fst fragCoord));
      destruct (Z.leb_spec (snd imgSize) (snd fragCoord));
      destruct (Z.ltb_spec (fst fragCoord) (fst imgSize));
      destruct (Z.ltb_spec (snd fragCoord) (snd imgSize)); try lia; reflexivity.
Qed.

End WithImages.

Lemma taa_keeps_neighbourhood_range_witness :
  within 0 1
    (TAA (fun p => if (fst p =? 3)%Z then Vec4 0 (1 # 2) 1 1 else Vec4 1 (1 # 4) 0 1)
       (fun _ => Vec4 7 (-3) 5 0) (1 # 10) (3, 4)%Z).
Proof.
  refine (proj1 (taa_keeps_neighbourhood_range
                   (fun p => if (fst p =? 3)%Z then Vec4 0 (1 # 2) 1 1 else Vec4 1 (1 # 4) 0 1)
                   (fun _ => Vec4 7 (-3) 5 0) (1 # 10) (3, 4)%Z 0 1 _ _)).
  - split; discriminate.
  - intros ix iy _ _. cbn [fst snd]. destruct (3 + ix =? 3)%Z; repeat split; discriminate.
Defined.

End TaaFacts.

(** ** The host: grid and jitter *)

Module HostFacts.

Import Host SignalFacts.
Import NRDWrapper.

(** X8: the compute grid.  For an image of up to [2^32 - 16] pixels a
    side, [getGridSize] is the size divided by 16, rounded up: the groups of
    16 x 16 invocations cover every pixel, and a group less would not.  From
    [2^32 - 15] pixels on the 32-bit sum wraps and the grid is empty. *)
Theorem grid_covers_image (w h : Z)
    (Hw : (0 <= w <= 2 ^ 32 - 16)%Z) (Hh : (0 <= h <= 2 ^ 32 - 16)%Z) :
  (let (gw, gh) := getGridSize (w, h) in
   ((gw - 1) * 16 < w <= gw * 16)%Z
   /\ ((gh - 1) * 16 < h <= gh * 16)%Z
   /\ forall x y, (0 <= x < w)%Z -> (0 <= y < h)%Z ->
        (0 <= x / 16 < gw)%Z /\ (0 <= y / 16 < gh)%Z)
  /\ forall w', (2 ^ 32 - 16 < w' < 2 ^ 32)%Z -> fst (getGridSize (w', h)) = 0%Z.
Proof.
  unfold getGridSize, GRID_SIZE, u32. cbn [fst snd]. split.
  - rewrite (Z.mod_small (w + (16 - 1))) by lia.
    rewrite (Z.mod_small (h + (16 - 1))) by lia.
    pose proof (Z.div_mod (w + 15) 16 ltac:(lia)) as Dw.
    pose proof (Z.mod_pos_bound (w + 15) 16 ltac:(lia)) as Mw.
    pose proof (Z.div_mod (h + 15) 16 ltac:(lia)) as Dh.
    pose proof (Z.mod_pos_bound (h + 15) 16 ltac:(lia)) as Mh.
    replace (w + (16 - 1))%Z with (w + 15)%Z by lia.
    replace (h + (16 - 1))%Z with (h + 15)%Z by lia.
    refine (conj _ (conj _ _)); [lia|lia|].
    intros x y Hx Hy.
    pose proof (Z.div_mod x 16 ltac:(lia)) as Dx.
    pose proof (Z.mod_pos_bound x 16 ltac:(lia)) as Mx.
    pose proof (Z.div_mod y 16 ltac:(lia)) as Dy.
    pose proof (Z.mod_pos_bound y 16 ltac:(lia)) as My.
    lia.
  - intros w' Hw'.
    replace (w' + (16 - 1))%Z with (w' - 2 ^ 32 + 15 + 1 * 2 ^ 32)%Z by lia.
    rewrite Z.mod_add by lia. rewrite Z.mod_small by lia.
    apply Z.div_small. lia.
Qed.

Lemma grid_covers_image_witness :
  getGridSize (1921, 1080)%Z = (121, 68)%Z
  /\ ((121 - 1) * 16 < 1921 <= 121 * 16)%Z.
Proof.
  pose proof (proj1 (grid_covers_image 1921 1080 ltac:(lia) ltac:(lia))) as H.
  split; [reflexivity|]. apply H.
Defined.

End HostFacts.

Module JitterFacts.

Import Host SignalFacts GetHitFacts.

Lemma inject_Z_nonneg (m : Z) : (0 <= m)%Z -> 0 <= inject_Z m.
Proof. intros H. change 0 with (inject_Z 0). rewrite <- Zle_Qle. exact H. Qed.

(** The quotient and the remainder of a number that is not negative. *)
Lemma floor_fmod (m c : Z) (cq : Q) :
  cq == inject_Z c -> (0 < c)%Z -> (0 <= m)%Z ->
  let q := Qfloor (inject_Z m / cq) in
  (0 <= q)%Z /\ (m = c * q + (m - c * q))%Z /\ (0 <= m - c * q <= c - 1)%Z
  /\ fmod (inject_Z m) cq == inject_Z (m - c * q).
Proof.
  intros Ec Hc Hm q.
  assert (Hcq : 0 < cq).
  { rewrite Ec. change 0 with (inject_Z 0). rewrite <- Zlt_Qlt. exact Hc. }
  assert (Hx : 0 <= inject_Z m) by (apply inject_Z_nonneg; exact Hm).
  assert (Hd : 0 <= inject_Z m / cq).
  { apply Qle_shift_div_l; [exact Hcq|]. lra. }
  assert (Hq0 : (0 <= q)%Z).
  { change 0%Z with (Qfloor 0). apply Qfloor_resp_le. exact Hd. }
  pose proof (Qfloor_le (inject_Z m / cq)) as Hlo.
  pose proof (Qlt_floor (inject_Z m / cq)) as Hhi.
  fold q in Hlo, Hhi.
  assert (Ed : inject_Z m / cq * cq == inject_Z m) by (field; lra).
  rewrite inject_Z_plus in Hhi.
  assert (H1 : inject_Z q * cq <= inject_Z m) by nra.
  assert (H2 : inject_Z m < (inject_Z q + inject_Z 1) * cq) by nra.
  rewrite Ec in H1, H2.
  rewrite <- inject_Z_mult, <- Zle_Qle in H1.
  rewrite <- inject_Z_plus, <- inject_Z_mult, <- Zlt_Qlt in H2.
  refine (conj Hq0 (conj _ (conj _ _))); [lia|lia|].
  unfold fmod, Qtrunc.
  assert (Eb : Qle_bool 0 (inject_Z m / cq) = true) by (apply Qle_bool_iff; exact Hd).
  rewrite Eb. fold q. rewrite Ec.
  unfold Zminus. rewrite inject_Z_plus, inject_Z_opp, inject_Z_mult. ring.
Qed.

Lemma haltonLoop_bounds (fuel : nat) :
  forall m n a,
    (0 <= m)%Z -> (0 <= n)%Z -> (Z.to_nat n < fuel)%nat ->
    0 < wx a -> 0 < wy a -> 0 <= wz a -> wz a + wx a <= 1 -> 0 <= ww a -> ww a + wy a <= 1 ->
    exists a',
      haltonLoop fuel (Vec2 2.0 3.0) (Vec2 (inject_Z m) (inject_Z n)) a = Some a'
      /\ 0 <= wz a' < 1 /\ 0 <= ww a' < 1.
Proof.
  induction fuel as [|fuel IH]; intros m n a Hm Hn Hf Hax Hay Haz Hzx Haw Hwy; [lia|].
  cbn [haltonLoop x2 y2].
  destruct (Qltb 0 (inject_Z m) && Qltb 0 (inject_Z n)) eqn:Ec.
  - apply andb_true_iff in Ec. destruct Ec as (Em & En).
    apply Qltb_true in Em, En.
    change 0 with (inject_Z 0) in Em, En. rewrite <- Zlt_Qlt in Em, En.
    destruct (floor_fmod m 2 2.0 ltac:(reflexivity) ltac:(lia) Hm) as (Hq2 & _ & Hr2 & Ef2).
    destruct (floor_fmod n 3 3.0 ltac:(reflexivity) ltac:(lia) Hn) as (Hq3 & Hd3 & Hr3 & Ef3).
    cbv zeta in Hq2, Hr2, Ef2, Hq3, Hd3, Hr3, Ef3.
    unfold floorf.
    set (q2 := Qfloor (inject_Z m / 2.0)) in *.
    set (q3 := Qfloor (inject_Z n / 3.0)) in *.
    assert (B2 : 0 <= fmod (inject_Z m) 2.0 <= 1).
    { rewrite Ef2. change 0 with (inject_Z 0). change 1 with (inject_Z 1).
      rewrite <- !Zle_Qle. lia. }
    assert (B3 : 0 <= fmod (inject_Z n) 3.0 <= 2).
    { rewrite Ef3. change 0 with (inject_Z 0). change 2 with (inject_Z 2).
      rewrite <- !Zle_Qle. lia. }
    assert (Ex : wx a / 2.0 * 2 == wx a) by (field).
    assert (Ey : wy a / 3.0 * 3 == wy a) by (field).
    apply IH; cbn [wx wy wz ww]; try assumption; try lia; try nra.
  - exists a. split; [reflexivity|]. split; split; lra.
Qed.

(** X9: the jitter.  For a frame number that is not negative and fuel
    above it, the loop of [halton] ends and both coordinates of the result
    lie in [0, 1), so each coordinate of the jitter of the frame lies in
    [-0.5, 0.5): the jittered centre of a pixel stays inside the pixel.
    Frame 0 (and any index that is not positive) gives the point (0, 0), that
    is, the jitter (-0.5, -0.5). *)
Theorem jitter_within_pixel (fuel : nat) (index : Z)
    (Hindex : (0 <= index)%Z) (Hfuel : (Z.to_nat index < fuel)%nat) :
  (exists h j,
     halton fuel index = Some h
     /\ 0 <= x2 h < 1 /\ 0 <= y2 h < 1
     /\ frameJitter fuel index = Some j
     /\ - (1 # 2) <= x2 j < 1 # 2 /\ - (1 # 2) <= y2 j < 1 # 2
     /\ forall px : Z, inject_Z px <= inject_Z px + 0.5 + x2 j < inject_Z px + 1)
  /\ forall i, (i <= 0)%Z -> halton fuel i = Some (Vec2 0 0).
Proof.
  split.
  - destruct (haltonLoop_bounds fuel index index (Vec4 1 1 0 0) Hindex Hindex Hfuel)
      as (a & E & Hz & Hw); cbn [wx wy wz ww]; try lra.
    exists (Vec2 (wz a) (ww a)), (Vec2 (wz a - 0.5) (ww a - 0.5)).
    unfold frameJitter, halton. rewrite E. cbn [x2 y2].
    refine (conj eq_refl (conj Hz (conj Hw (conj eq_refl _)))).
    repeat split; try lra.
  - intros i Hi. unfold halton. destruct fuel as [|fuel]; [lia|].
    cbn [haltonLoop x2 y2].
    assert (E : Qltb 0 (inject_Z i) = false).
    { apply Qltb_ge. change 0 with (inject_Z 0). rewrite <- Zle_Qle. exact Hi. }
    rewrite E. reflexivity.
Qed.

Lemma jitter_within_pixel_witness :
  exists h, halton 8 5 = Some h /\ 0 <= x2 h < 1 /\ 0 <= y2 h < 1.
Proof.
  destruct (proj1 (jitter_within_pixel 8 5 ltac:(lia) ltac:(lia)))
    as (h & j & E & Hx & Hy & _).
  exists h. auto.
Defined.

End JitterFacts.

(** ** nrd.rgen: the rays and the stores of a pixel *)

Module BudgetFacts.

Import RayCommon HostDevice Shading Shaders NrdGlsl NrdRgen GlslFacts PsrFacts PathFacts
  LobeFacts RgenFacts Effects SignalFacts.

Lemma traces_mono {A} (k k' : nat) (c : M A) : (k <= k')%nat -> traces k c -> traces k' c.
Proof.
  intros Hk H s. destruct (H s) as (Hst & rs & Hr & Hl).
  split; [exact Hst|]. exists rs. split; [exact Hr|lia].
Qed.

Lemma traces_ret {A} (k : nat) (a : A) : traces k (ret a).
Proof.
  intros s. split; [reflexivity|]. exists []. rewrite app_nil_r. split; [reflexivity|cbn; lia].
Qed.

Lemma traces_bind {A B} (k1 k2 : nat) (c : M A) (f : A -> M B) :
  traces k1 c -> (forall a, traces k2 (f a)) -> traces (k1 + k2) (bind c f).
Proof.
  intros Hc Hf s. unfold bind. destruct (Hc s) as (Hst & rs & Hr & Hl).
  destruct (c s) as [a s1]. cbn [snd] in *.
  destruct (Hf a s1) as (Hst' & rs' & Hr' & Hl').
  split; [congruence|]. exists (rs ++ rs').
  split; [rewrite Hr', Hr, app_assoc; reflexivity|rewrite length_app; lia].
Qed.

Lemma traces_bind_l {A B} (k : nat) (c : M A) (f : A -> M B) :
  traces 0 c -> (forall a, traces k (f a)) -> traces k (bind c f).
Proof. intros Hc Hf. exact (traces_bind 0 k c f Hc Hf). Qed.

Lemma traces_bind_r {A B} (k : nat) (c : M A) (f : A -> M B) :
  traces k c -> (forall a, traces 0 (f a)) -> traces k (bind c f).
Proof.
  intros Hc Hf. apply (traces_mono (k + 0)); [lia|]. exact (traces_bind k 0 c f Hc Hf).
Qed.

Lemma traces_state {A} (k : nat) (c : M A) :
  (forall s, stores (snd (c s)) = stores s /\ rays (snd (c s)) = rays s) -> traces k c.
Proof.
  intros H s. destruct (H s) as (Hst & Hr). split; [exact Hst|].
  exists []. rewrite app_nil_r. split; [exact Hr|cbn; lia].
Qed.

Lemma traces_getPayload k : traces k getPayload.
Proof. apply traces_state. intros s. split; reflexivity. Qed.
Lemma traces_setPayload k p : traces k (setPayload p).
Proof. apply traces_state. intros s. split; reflexivity. Qed.
Lemma traces_getPayloadNrd k : traces k getPayloadNrd.
Proof. apply traces_state. intros s. split; reflexivity. Qed.
Lemma traces_setPayloadNrd k p : traces k (setPayloadNrd p).
Proof. apply traces_state. intros s. split; reflexivity. Qed.

Lemma traces_logRay r : traces 1 (logRay r).
Proof.
  intros s. split; [reflexivity|]. exists [r]. split; [reflexivity|cbn; lia].
Qed.

Section WithScene.

Context {lib : ShaderLib} {scene : Scene}.
Variable frameInfo : FrameInfo.
Variable pc : RtxPushConstant.
Variable uninit : Uninitialized.

Lemma traces_rand3_payload k : traces k rand3_payload.
Proof.
  apply traces_state. intros s. destruct (rand3_payload_hitT s) as (_ & H1 & H2). auto.
Qed.

Lemma traces_pathtrace_rmiss k dir : traces k (pathtrace_rmiss_main frameInfo dir).
Proof. apply traces_state. intros s. split; reflexivity. Qed.

Lemma traces_nrd_rmiss k dir : traces k (nrd_rmiss_main frameInfo dir).
Proof. apply traces_state. intros s. split; reflexivity. Qed.

Lemma traces_nrd_rchit k i : traces k (nrd_rchit_main i).
Proof. apply traces_state. intros s. split; reflexivity. Qed.

(** A solver for the straight-line parts of the shaders. *)
Ltac quiet :=
  repeat first
    [ apply traces_ret | apply traces_getPayload | apply traces_setPayload
    | apply traces_getPayloadNrd | apply traces_setPayloadNrd | apply traces_rand3_payload
    | apply traces_pathtrace_rmiss | apply traces_nrd_rmiss | apply traces_nrd_rchit
    | apply traces_bind_l; [|intro]
    | match goal with
      | |- traces _ (if ?b then _ else _) => destruct b
      | |- traces _ (let (_, _) := ?x in _) => destruct x
      end ].

(** [traceRayEXT] logs its ray; a closest-hit shader runs only when the
    flags do not skip it. *)
Lemma traces_traceRayEXT (k : nat) closestHit flags sbt miss o tmin d tmax loc :
  (skipClosestHitShader flags = false -> forall i, traces k (closestHit sbt i d)) ->
  traces (1 + k) (traceRayEXT frameInfo closestHit flags sbt miss o tmin d tmax loc).
Proof.
  intros Hc. unfold traceRayEXT. apply traces_bind; [apply traces_logRay|]. intros _.
  destruct (intersect flags o tmin d tmax) as [i|].
  - destruct (skipClosestHitShader flags) eqn:E; [apply traces_ret|]. apply Hc. reflexivity.
  - destruct (miss =? MISSINDEX_NRD)%N; quiet.
Qed.

Lemma traces_shadow_ray closestHit sbt miss o tmin d tmax loc :
  traces 1 (traceRayEXT frameInfo closestHit shadowRayFlags sbt miss o tmin d tmax loc).
Proof.
  apply (traces_traceRayEXT 0). intros H. discriminate H.
Qed.

Lemma traces_shading dir t m hit : traces 1 (shading frameInfo uninit dir t m hit).
Proof.
  unfold shading. cbv zeta.
  apply traces_bind_l; [quiet|]. intros p.
  destruct (sampleLights frameInfo (seed p)) as [[[lr dl] lp] sd].
  apply traces_bind_l; [quiet|]. intros _.
  apply traces_bind_r.
  - destruct (Qltb 0 (dot dl (matN m)) && Qltb 0 lp); [|quiet].
    apply traces_bind_l; [quiet|]. intros xi.
    destruct (Qltb 0 (e_pdf (bsdfEvaluate (vneg dir) dl xi m))); [|quiet].
    apply traces_bind_l; [quiet|]. intros p1.
    apply traces_bind_l; [quiet|]. intros _.
    apply traces_bind_r; [apply traces_shadow_ray|]. intros _. quiet.
  - intros res. quiet.
Qed.

Lemma traces_pathtrace_rchit i dir : traces 1 (pathtrace_rchit_main frameInfo pc uninit i dir).
Proof.
  unfold pathtrace_rchit_main. cbv zeta.
  apply traces_bind_l; [quiet|]. intros p.
  apply traces_bind_l; [quiet|]. intros _.
  apply traces_bind_r; [apply traces_shading|]. intros res. quiet.
Qed.

Lemma traces_closestHitTable sbt i dir :
  traces 1 (closestHitTable frameInfo pc uninit sbt i dir).
Proof.
  unfold closestHitTable. destruct (sbt =? SBTOFFSET_NRD)%N; [quiet|].
  apply traces_pathtrace_rchit.
Qed.

(** A segment of a path: its ray and, at a hit, the shadow ray of the
    light sample. *)
Lemma traces_trace flags sbt miss o tmin d tmax loc :
  traces 2 (trace frameInfo pc uninit flags sbt miss o tmin d tmax loc).
Proof.
  unfold trace. apply (traces_traceRayEXT 1). intros _ i. apply traces_closestHitTable.
Qed.

Lemma traces_HdrContrib m startPos toEye :
  traces 1 (HdrContrib frameInfo pc uninit m startPos toEye).
Proof.
  unfold HdrContrib.
  apply traces_bind_l; [quiet|]. intros randVal.
  destruct (environmentSample randVal) as [rp ld]. cbv zeta.
  destruct (Qltb 0 _ && Qltb 0 _); [|quiet].
  destruct (Qltb 0 _); [|quiet].
  apply traces_bind_l; [quiet|]. intros p.
  apply traces_bind_l; [quiet|]. intros _.
  apply traces_bind_r; [apply traces_shadow_ray|]. intros _. quiet.
Qed.

Lemma traces_indirectLoop (fuel : nat) :
  forall hitTReset depth accum throughput pathLength,
    traces (2 * Z.to_nat (Z.of_N (maxDepth pc) - depth))
      (indirectLoop frameInfo pc uninit fuel hitTReset depth accum throughput pathLength).
Proof.
  induction fuel as [|fuel IH]; intros r depth accum thr pl; [apply traces_ret|].
  cbn [indirectLoop].
  destruct (depth <? Z.of_N (maxDepth pc))%Z eqn:E; [|apply traces_ret].
  apply Z.ltb_lt in E.
  apply traces_bind_l; [quiet|]. intros p.
  apply traces_bind_l; [quiet|]. intros _.
  apply (traces_mono (2 + 2 * Z.to_nat (Z.of_N (maxDepth pc) - (depth + 1)))); [lia|].
  apply traces_bind; [apply traces_trace|]. intros _.
  apply traces_bind_l; [quiet|]. intros p1. cbv zeta.
  destruct (Qltb (hitT p1) 0.0); [apply traces_ret|]. apply IH.
Qed.

Lemma traces_indirectLobe fuel hitTReset sample org accum0 ratio :
  traces (2 * (N.to_nat (maxDepth pc) - 1))
    (indirectLobe frameInfo pc uninit fuel hitTReset sample org accum0 ratio).
Proof.
  unfold indirectLobe. cbv zeta.
  destruct (negb (isAbsorb (event_type sample))); [|apply traces_ret].
  apply traces_bind_l; [quiet|]. intros p.
  apply traces_bind_l; [quiet|]. intros _.
  apply traces_bind_r.
  - apply (traces_mono (2 * Z.to_nat (Z.of_N (maxDepth pc) - 1))); [lia|].
    apply traces_indirectLoop.
  - intros [[a pl]|]; apply traces_ret.
Qed.

Lemma traces_diffuseLobe fuel m org toEye hdr ratio :
  traces (2 * (N.to_nat (maxDepth pc) - 1))
    (diffuseLobe frameInfo pc uninit fuel m org toEye hdr ratio).
Proof.
  unfold diffuseLobe. apply traces_bind_l; [quiet|]. intros xi. cbv zeta.
  apply traces_indirectLobe.
Qed.

Lemma traces_specularLobe fuel m org toEye hdr dw ratio :
  traces (2 * (N.to_nat (maxDepth pc) - 1))
    (specularLobe frameInfo pc uninit fuel m org toEye hdr dw ratio).
Proof.
  unfold specularLobe. apply traces_bind_l; [quiet|]. intros xi. cbv zeta.
  apply traces_indirectLobe.
Qed.

(** The PSR loop traces at most five rays from depth 0, whatever the fuel. *)
Lemma traces_psrLoop (fuel : nat) :
  forall l, (0 <= psrDepth l)%Z ->
    traces (Z.to_nat (Z.max 1 (5 - psrDepth l))) (psrLoop frameInfo pc uninit fuel l).
Proof.
  induction fuel as [|fuel IH]; intros l Hd; [apply traces_ret|].
  intros s. rewrite psrLoop_S.
  destruct (psrBody_cases frameInfo pc uninit l s)
    as (l1 & step & s1 & E & Hdep & Hst & Hr & _).
  rewrite E.
  assert (Hone : stores s1 = stores s
                 /\ exists rs, rays s1 = rays s ++ rs
                               /\ (length rs <= Z.to_nat (Z.max 1 (5 - psrDepth l)))%nat).
  { split; [exact Hst|]. exists [primaryRay l]. split; [exact Hr|cbn [length]; lia]. }
  destruct step; [exact Hone|].
  destruct (psrDepth l1 + 1 <? 5)%Z eqn:Hlt; [|exact Hone].
  apply Z.ltb_lt in Hlt.
  destruct (IH (incrDepth l1) ltac:(cbn [psrDepth incrDepth]; lia) s1)
    as (Hst' & rs & Hr' & Hl').
  cbn [psrDepth incrDepth] in Hl'.
  split; [congruence|]. exists (primaryRay l :: rs).
  split; [rewrite Hr', Hr, <- app_assoc; reflexivity|]. cbn [length]. lia.
Qed.

End WithScene.

End BudgetFacts.

Module PixelFacts.

Import RayCommon HostDevice Shading Shaders NrdGlsl NrdRgen GlslFacts PsrFacts PathFacts
  LobeFacts RgenFacts Effects SignalFacts BudgetFacts.

Section WithScene.

Context {lib : ShaderLib} {scene : Scene}.
Variable frameInfo : FrameInfo.
Variable pc : RtxPushConstant.
Variable uninit : Uninitialized.

Local Abbreviation psrLoop := (NrdRgen.psrLoop frameInfo pc uninit).
Local Abbreviation main := (NrdRgen.main frameInfo pc uninit).

(** The rays and the stores of [main], in each of its three outcomes. *)
Lemma main_effects (fuel : nat) (gl_LaunchIDEXT gl_LaunchSizeEXT : N * N) (s : ShaderState) :
  let l0 := primaryLocals frameInfo uninit gl_LaunchIDEXT gl_LaunchSizeEXT in
  let r := main fuel gl_LaunchIDEXT gl_LaunchSizeEXT s in
  (exists rs, rays (snd r) = rays s ++ rs /\ (length rs <= rayBudget pc)%nat)
  /\ (fst r = Some tt ->
      exists l s1 st,
        psrLoop fuel l0 (seeded pc gl_LaunchIDEXT s) = (Some l, s1)
        /\ stores (snd r) = stores s ++ st
        /\ ((hitSky l = true /\ st = skyStores l)
            \/ (hitSky l = false
                /\ exists ud us,
                     st = surfaceStores frameInfo l0 l ++ [(nrdUDiff, ud); (nrdUSpec, us)]))).
Proof.
  cbv zeta. unfold NrdRgen.main, bind, getPayload, setPayload. cbv zeta.
  fold (seeded pc gl_LaunchIDEXT s).
  set (l0 := primaryLocals frameInfo uninit gl_LaunchIDEXT gl_LaunchSizeEXT).
  destruct (traces_psrLoop frameInfo pc uninit fuel l0 ltac:(cbn; lia)
              (seeded pc gl_LaunchIDEXT s)) as (Hst1 & rs1 & Hr1 & Hl1).
  change (Z.to_nat (Z.max 1 (5 - psrDepth l0))) with 5%nat in Hl1.
  cbn [stores rays seeded] in Hst1, Hr1.
  destruct (NrdRgen.psrLoop frameInfo pc uninit fuel l0 (seeded pc gl_LaunchIDEXT s))
    as [[l|] s1]; cbn [snd fst] in *.
  2:{ split; [|discriminate]. exists rs1. split; [exact Hr1|unfold rayBudget; lia]. }
  destruct (hitSky l) eqn:Hsky.
  - unfold imageStore, ret. cbn [fst snd rays stores payload payloadNrd]. split.
    + exists rs1. split; [exact Hr1|unfold rayBudget; lia].
    + intros _. exists l, s1, (skyStores l). split; [reflexivity|].
      split; [|left; split; [exact Hsky|reflexivity]].
      rewrite Hst1. unfold skyStores. rewrite <- !app_assoc. reflexivity.
  - unfold imageStore, ret.
    match goal with
    | |- context [HdrContrib ?a ?b ?c ?d ?e ?f ?st] =>
        destruct (traces_HdrContrib a b c d e f st) as (Hst2 & rs2 & Hr2 & Hl2);
        destruct (HdrContrib a b c d e f st) as [hdr s2]
    end.
    cbn [snd stores rays payload payloadNrd] in Hst2, Hr2.
    match goal with
    | |- context [diffuseLobe ?a ?b ?c ?d ?e ?f ?g ?h ?i ?st] =>
        destruct (traces_diffuseLobe a b c d e f g h i st) as (Hst3 & rs3 & Hr3 & Hl3);
        destruct (diffuseLobe a b c d e f g h i st) as [[[ad pd]|] s3]
    end; cbn [snd fst stores rays payload payloadNrd] in *.
    2:{ split; [|discriminate]. exists (rs1 ++ rs2 ++ rs3).
        split; [rewrite Hr3, Hr2, Hr1, <- !app_assoc; reflexivity|].
        rewrite !length_app. unfold rayBudget. lia. }
    match goal with
    | |- context [specularLobe ?a ?b ?c ?d ?e ?f ?g ?h ?i ?j ?st] =>
        destruct (traces_specularLobe a b c d e f g h i j st) as (Hst4 & rs4 & Hr4 & Hl4);
        destruct (specularLobe a b c d e f g h i j st) as [[[asp ps]|] s4]
    end; cbn [snd fst stores rays payload payloadNrd] in *.
    2:{ split; [|discriminate]. exists (rs1 ++ rs2 ++ rs3 ++ rs4).
        split; [rewrite Hr4, Hr3, Hr2, Hr1, <- !app_assoc; reflexivity|].
        rewrite !length_app. unfold rayBudget. lia. }
    split.
    + exists (rs1 ++ rs2 ++ rs3 ++ rs4).
      split; [rewrite Hr4, Hr3, Hr2, Hr1, <- !app_assoc; reflexivity|].
      rewrite !length_app. unfold rayBudget. lia.
    + intros _. exists l, s1. eexists. split; [reflexivity|].
      split; [|right; split; [exact Hsky|]; do 2 eexists; reflexivity].
      rewrite Hst4, Hst3, Hst2, Hst1. rewrite <- !app_assoc. reflexivity.
Qed.

(** X10: the rays of a pixel.  Whatever the scene, the materials and the
    fuel, one invocation of [main] traces at most
    [6 + 4 * (maxDepth - 1)] rays: at most five primary rays, one shadow ray
    for the sample of the environment, and for each of the two lobes at most
    two rays (the segment and the shadow ray of its hit) per bounce.  The
    helpers store nothing. *)
Theorem ray_budget (fuel : nat) (gl_LaunchIDEXT gl_LaunchSizeEXT : N * N) (s : ShaderState) :
  (exists rs,
     rays (snd (main fuel gl_LaunchIDEXT gl_LaunchSizeEXT s)) = rays s ++ rs
     /\ (length rs <= 6 + 4 * (N.to_nat (maxDepth pc) - 1))%nat)
  /\ (forall l, psrDepth l = 0%Z -> traces 5 (psrLoop fuel l))
  /\ (forall m startPos toEye, traces 1 (HdrContrib frameInfo pc uninit m startPos toEye))
  /\ (forall m org toEye hdr ratio,
        traces (2 * (N.to_nat (maxDepth pc) - 1))
          (diffuseLobe frameInfo pc uninit fuel m org toEye hdr ratio))
  /\ (forall m org toEye hdr dw ratio,
        traces (2 * (N.to_nat (maxDepth pc) - 1))
          (specularLobe frameInfo pc uninit fuel m org toEye hdr dw ratio)).
Proof.
  refine (conj _ (conj _ (conj _ (conj _ _)))).
  - destruct (main_effects fuel gl_LaunchIDEXT gl_LaunchSizeEXT s) as ((rs & Hr & Hl) & _).
    exists rs. split; [exact Hr|]. unfold rayBudget in Hl. lia.
  - intros l Hd.
    pose proof (traces_psrLoop frameInfo pc uninit fuel l ltac:(lia)) as H.
    rewrite Hd in H. exact H.
  - apply traces_HdrContrib.
  - apply traces_diffuseLobe.
  - apply traces_specularLobe.
Qed.

(** The stores of an invocation that returns. *)
Lemma main_store_layout (fuel : nat) (gl_LaunchIDEXT gl_LaunchSizeEXT : N * N)
    (s s' : ShaderState)
    (Hmain : main fuel gl_LaunchIDEXT gl_LaunchSizeEXT s = (Some tt, s')) :
  exists l s1 st,
    psrLoop fuel (primaryLocals frameInfo uninit gl_LaunchIDEXT gl_LaunchSizeEXT)
      (seeded pc gl_LaunchIDEXT s) = (Some l, s1)
    /\ stores s' = stores s ++ st
    /\ if hitSky l
       then map fst st = skyImages
            /\ lastStore nrdDirectLighting st = Some (vec4_of (psrDirectRadiance l) 0.0)
            /\ lastStore nrdObjectMotion st = None
            /\ lastStore nrdBaseColorMetalness st = None
       else map fst st = surfaceImages
            /\ (exists dl, lastStore nrdDirectLighting st = Some (vec4_of dl 1))
            /\ lastStore nrdObjectMotion st = Some (splat4 0).
Proof.
  destruct (main_effects fuel gl_LaunchIDEXT gl_LaunchSizeEXT s) as (_ & H).
  cbv zeta in H. rewrite Hmain in H. cbn [fst snd] in H.
  destruct (H eq_refl) as (l & s1 & st & E & Hst & Hc).
  exists l, s1, st. split; [exact E|]. split; [exact Hst|].
  destruct Hc as [(Hsky & ->)|(Hsky & ud & us & ->)]; rewrite Hsky.
  - repeat split.
  - split; [reflexivity|]. split; [eexists; reflexivity|reflexivity].
Qed.

(** X11: the stores of a pixel.  An invocation of [main] that returns
    stores, in this order, either the five images of the early out of a
    background pixel, with alpha 0 in the direct lighting, or ViewZ,
    normal/roughness, object motion, base colour/metalness, direct lighting,
    unfiltered diffuse and unfiltered specular, each once, with alpha 1 in
    the direct lighting and zero motion.  A background pixel leaves the
    object-motion and the base-colour images unwritten. *)
Theorem pixel_stores (fuel : nat) (gl_LaunchIDEXT gl_LaunchSizeEXT : N * N)
    (s s' : ShaderState)
    (Hmain : main fuel gl_LaunchIDEXT gl_LaunchSizeEXT s = (Some tt, s')) :
  exists l s1 st,
    psrLoop fuel (primaryLocals frameInfo uninit gl_LaunchIDEXT gl_LaunchSizeEXT)
      (seeded pc gl_LaunchIDEXT s) = (Some l, s1)
    /\ stores s' = stores s ++ st
    /\ if hitSky l
       then map fst st = skyImages
            /\ lastStore nrdDirectLighting st = Some (vec4_of (psrDirectRadiance l) 0.0)
            /\ lastStore nrdObjectMotion st = None
            /\ lastStore nrdBaseColorMetalness st = None
       else map fst st = surfaceImages
            /\ (exists dl, lastStore nrdDirectLighting st = Some (vec4_of dl 1))
            /\ lastStore nrdObjectMotion st = Some (splat4 0).
Proof. exact (main_store_layout fuel gl_LaunchIDEXT gl_LaunchSizeEXT s s' Hmain). Qed.

End WithScene.

End PixelFacts.

(** ** nrd.rgen and the compositing shader: background pixels, mirrors,
    escaped paths, the environment sample and the material overrides *)

Module SurfaceFacts.

Import RayCommon HostDevice Shading Shaders NrdGlsl NrdRgen GlslFacts PsrFacts PathFacts
  LobeFacts RgenFacts Effects SignalFacts GetHitFacts BudgetFacts PixelFacts.

Section WithScene.

Context {lib : ShaderLib} {scene : Scene}.
Variable frameInfo : FrameInfo.
Variable pc : RtxPushConstant.
Variable uninit : Uninitialized.

Local Abbreviation psrLoop := (NrdRgen.psrLoop frameInfo pc uninit).
Local Abbreviation psrBody := (NrdRgen.psrBody frameInfo pc uninit).
Local Abbreviation main := (NrdRgen.main frameInfo pc uninit).
Local Abbreviation indirectLoop := (NrdRgen.indirectLoop frameInfo pc uninit).
Local Abbreviation segment := (NrdRgen.segment frameInfo pc uninit).

(** X12: from nrd.rgen to the compositing shader.  The alpha that [main]
    stores to the direct-lighting image selects the branch of the
    compositing shader: for a background pixel (alpha 0) the composed colour
    is the radiance of the environment that the PSR loop accumulated, with
    alpha 1, whatever the other images hold; for a surface pixel (alpha 1)
    the branch that adds the re-modulated signals is taken.  An invocation
    outside the image stores nothing. *)
Theorem alpha_selects_composition (fuel : nat) (gl_LaunchIDEXT gl_LaunchSizeEXT : N * N)
    (s s' : ShaderState) (t : Compositing.Texels) (imgSize fragCoord : Z * Z)
    (Hmain : main fuel gl_LaunchIDEXT gl_LaunchSizeEXT s = (Some tt, s'))
    (Hfresh : stores s = [])
    (Ht : lastStore nrdDirectLighting (stores s') = Some (Compositing.iDirect t))
    (Hin : (fst fragCoord < fst imgSize)%Z /\ (snd fragCoord < snd imgSize)%Z) :
  (exists l s1,
     psrLoop fuel (primaryLocals frameInfo uninit gl_LaunchIDEXT gl_LaunchSizeEXT)
       (seeded pc gl_LaunchIDEXT s) = (Some l, s1)
     /\ if hitSky l
        then Compositing.main frameInfo pc imgSize fragCoord t
             = Some (vec4_of (psrDirectRadiance l) 1.0)
        else Qltb 0 (ww (Compositing.iDirect t)) = true
             /\ exists R, Compositing.main frameInfo pc imgSize fragCoord t
                          = Some (vec4_of R 1.0))
  /\ forall size coord t',
       ((fst size <= fst coord)%Z \/ (snd size <= snd coord)%Z) ->
       Compositing.main frameInfo pc size coord t' = None.
Proof.
  split.
  - destruct (main_store_layout frameInfo pc uninit fuel _ _ s s' Hmain)
      as (l & s1 & st & E & Hst & Hc).
    exists l, s1. split; [exact E|].
    rewrite Hst, Hfresh in Ht. cbn [app] in Ht.
    assert (Hb : ((fst imgSize <=? fst fragCoord) || (snd imgSize <=? snd fragCoord))%Z = false).
    { apply orb_false_iff. split; apply Z.leb_gt; tauto. }
    unfold Compositing.main. rewrite Hb.
    destruct (hitSky l).
    + destruct Hc as (_ & Hd & _). rewrite Hd in Ht. inversion Ht as [Ht'].
      reflexivity.
    + destruct Hc as (_ & (dl & Hd) & _). rewrite Hd in Ht. inversion Ht as [Ht'].
      cbn [ww vec4_of]. split; [reflexivity|]. eexists. reflexivity.
  - intros size coord t' Hout. unfold Compositing.main.
    assert (Hb : ((fst size <=? fst coord) || (snd size <=? snd coord))%Z = true).
    { apply orb_true_iff. destruct Hout; [left|right]; apply Z.leb_le; assumption. }
    rewrite Hb. reflexivity.
Qed.

(** One iteration of the PSR loop and what it accumulates. *)
Lemma psrBody_accumulates (l : PsrLocals) (s : ShaderState) :
  exists l' step s',
    psrBody l s = ((l', step), s')
    /\ psrDepth l' = psrDepth l
    /\ rays s' = rays s ++ [primaryRay l]
    /\ ((step = Break /\ isPsr l' = isPsr l /\ psrThroughput l' = psrThroughput l
         /\ direction l' = direction l /\ psrMirror l' = psrMirror l
         /\ (hitSky l' = false ->
             psrDirectRadiance l' = psrDirectRadiance l
             /\ pbrMat l' = fst (buildHitInfo pc (payloadNrd s') (origin l) (direction l))
             /\ notMirror (pbrMat l') = true))
        \/ (step = Continue /\ isPsr l' = true /\ hitSky l' = false
            /\ pbrMat l' = fst (buildHitInfo pc (payloadNrd s') (origin l) (direction l))
            /\ notMirror (pbrMat l') = false)).
Proof.
  destruct (psrBody_cases frameInfo pc uninit l s) as (l0 & st0 & s0 & E0 & _ & _ & Hr & _).
  revert E0. unfold NrdRgen.psrBody. munfold.
  destruct (trace frameInfo pc uninit rayFlags SBTOFFSET_NRD MISSINDEX_NRD (origin l) 0.01
              (direction l) 1e32 PAYLOAD_NRD _) as [u s1].
  destruct (Qeq_bool (nrdHitT (payloadNrd s1)) NRD_INF) eqn:Hsky.
  - intros E0. inversion E0; subst.
    do 3 eexists. split; [reflexivity|]. cbn [psrDepth isPsr psrThroughput hitSky].
    split; [reflexivity|]. split; [exact Hr|]. left.
    repeat split; try reflexivity; discriminate.
  - destruct (buildHitInfo pc (payloadNrd s1) (origin l) (direction l)) as [m hs] eqn:Hb.
    destruct (notMirror m) eqn:Hm.
    + intros E0. inversion E0; subst.
      do 3 eexists. split; [reflexivity|].
      cbn [psrDepth isPsr psrThroughput hitSky psrDirectRadiance pbrMat].
      split; [reflexivity|]. split; [exact Hr|]. left.
      rewrite Hb. repeat split; try reflexivity; assumption.
    + destruct (rand3_payload_effect s1) as (xi & sd & E). rewrite E.
      intros E0. inversion E0; subst.
      do 3 eexists. split; [reflexivity|].
      cbn [psrDepth isPsr psrThroughput hitSky psrDirectRadiance pbrMat].
      split; [reflexivity|]. split; [exact Hr|]. right.
      cbn [payloadNrd]. rewrite Hb. repeat split; try reflexivity; assumption.
Qed.

Lemma psrLoop_mirrors (fuel : nat) :
  forall l s l' s',
    (0 <= psrDepth l)%Z ->
    (isPsr l = true <-> (0 < psrDepth l)%Z) ->
    psrLoop fuel l s = (Some l', s') ->
    (isPsr l' = true <-> (0 < psrDepth l')%Z)
    /\ (psrDepth l <= psrDepth l')%Z
    /\ (isPsr l' = false ->
        psrDepth l' = psrDepth l /\ psrThroughput l' = psrThroughput l
        /\ direction l' = direction l /\ psrMirror l' = psrMirror l
        /\ rays s' = rays s ++ [primaryRay l]
        /\ (hitSky l' = false -> psrDirectRadiance l' = psrDirectRadiance l)).
Proof.
  induction fuel as [|fuel IH]; intros l s l' s' Hd Hinv H; [discriminate H|].
  rewrite psrLoop_S in H.
  destruct (psrBody_accumulates l s) as (l1 & step & s1 & E & Hdep & Hr & Hc).
  rewrite E in H.
  destruct Hc as [(-> & Hp & Ht & Hdir & Hmir & Hns)|(-> & Hp & Hsk & Hm)].
  - inversion H; subst l' s'. rewrite Hp, Hdep.
    split; [exact Hinv|]. split; [lia|].
    intros _. repeat split; try assumption. intros Hs. apply Hns, Hs.
  - destruct (psrDepth l1 + 1 <? 5)%Z eqn:Hlt.
    + destruct (IH (incrDepth l1) s1 l' s') as (Hi & Hle & Hf); try exact H.
      * cbn [psrDepth incrDepth]. lia.
      * cbn [psrDepth incrDepth isPsr]. rewrite Hp. split; [lia|reflexivity].
      * cbn [psrDepth incrDepth] in Hle.
        split; [exact Hi|]. split; [lia|].
        intros Hfalse. assert (isPsr l' = true) by (apply Hi; lia). congruence.
    + inversion H; subst l' s'.
      cbn [psrDepth incrDepth isPsr hitSky pbrMat]. rewrite Hp.
      split; [split; [lia|reflexivity]|]. split; [lia|discriminate].
Qed.

(** X13: mirrors and the primary surface.  After the PSR loop of a pixel,
    [isPsr] is set exactly when at least one mirror was followed
    ([psrDepth] counts them, up to five).  When none was, one ray was traced,
    the throughput is still (1, 1, 1), the mirror matrix is the identity and
    the direction is that of the camera ray, so the tint and the world normal
    [main] stores are those of the surface itself, and on a surface the
    radiance carried over from the loop is zero. *)
Theorem mirrors_mark_the_surface (fuel : nat) (gl_LaunchIDEXT gl_LaunchSizeEXT : N * N)
    (s : ShaderState) (l : PsrLocals) (s1 : ShaderState)
    (Hloop : psrLoop fuel (primaryLocals frameInfo uninit gl_LaunchIDEXT gl_LaunchSizeEXT)
               (seeded pc gl_LaunchIDEXT s) = (Some l, s1)) :
  let l0 := primaryLocals frameInfo uninit gl_LaunchIDEXT gl_LaunchSizeEXT in
  (isPsr l = true <-> (0 < psrDepth l)%Z)
  /\ (0 <= psrDepth l <= 5)%Z
  /\ (isPsr l = false ->
      psrDepth l = 0%Z
      /\ psrThroughput l = splat3 1.0
      /\ psrMirror l = mat3_identity
      /\ direction l = direction l0
      /\ rays s1 = rays s ++ [primaryRay l0]
      /\ (hitSky l = false -> psrDirectRadiance l = splat3 0.0)
      /\ veq (vmul (baseColor (pbrMat l)) (psrThroughput l)) (baseColor (pbrMat l))
      /\ veq (mulMV (psrMirror l) (matN (pbrMat l))) (matN (pbrMat l))).
Proof.
  cbv zeta.
  set (l0 := primaryLocals frameInfo uninit gl_LaunchIDEXT gl_LaunchSizeEXT) in *.
  destruct (psrLoop_mirrors fuel l0 _ l s1 ltac:(cbn; lia)
              ltac:(cbn; split; [discriminate|lia]) Hloop) as (Hi & Hle & Hf).
  assert (Hfuel : (0 < fuel)%nat) by (destruct fuel; [discriminate Hloop|lia]).
  assert (Hup : (psrDepth l <= 5)%Z).
  { destruct (Nat.le_gt_cases 5 fuel) as [H5|H5].
    - destruct (psrLoop_runs frameInfo pc uninit fuel l0 (seeded pc gl_LaunchIDEXT s))
        as (l2 & s2 & rs & E2 & Hd2 & _); [cbn; lia|cbn [psrDepth l0 primaryLocals]; lia|].
      rewrite E2 in Hloop. inversion Hloop; subst. lia.
    - destruct (psrLoop_runs frameInfo pc uninit 5 l0 (seeded pc gl_LaunchIDEXT s))
        as (l2 & s2 & rs & E2 & Hd2 & _); [cbn; lia|cbn [psrDepth l0 primaryLocals]; lia|].
      pose proof (psrLoop_fuel_le frameInfo pc uninit fuel 5 _ _ _ _ ltac:(lia) Hloop) as E5.
      rewrite E2 in E5. inversion E5; subst. lia. }
  split; [exact Hi|]. split; [cbn [psrDepth l0 primaryLocals] in Hle; lia|].
  intros Hfalse. destruct (Hf Hfalse) as (Hd & Ht & Hdir & Hm & Hr & Hrad).
  cbn [psrDepth psrThroughput direction psrMirror l0 primaryLocals psrDirectRadiance]
    in Hd, Ht, Hm, Hrad.
  cbn [rays seeded] in Hr.
  refine (conj Hd (conj Ht (conj Hm (conj Hdir (conj Hr (conj Hrad _)))))).
  rewrite Ht, Hm. split.
  - unfold veq, vmul, splat3. cbn [vx vy vz]. refine (conj _ (conj _ _)); ring.
  - apply identity_mulMV.
Qed.

Lemma segment_miss (o : vec3) (tmin : Q) (d : vec3) (tmax : Q) (s : ShaderState) :
  intersect rayFlags o tmin d tmax = None ->
  segment o tmin d tmax s
  = mkShaderState
      (mkHitPayload (seed (payload s)) NRD_INF (missContrib frameInfo (bsdfPDF (payload s)) d)
         (weight (payload s)) (rayOrigin (payload s)) (rayDirection (payload s))
         (bsdfPDF (payload s)))
      (payloadNrd s) (stores s)
      (rays s ++ [mkRayCall PAYLOAD_PATHTRACE rayFlags o tmin d tmax]).
Proof.
  intros H. unfold NrdRgen.segment, trace, traceRayEXT. munfold. rewrite H.
  change (MISSINDEX_PATHTRACE =? MISSINDEX_NRD)%N with false. cbv iota.
  reflexivity.
Qed.

Lemma indirectLoop_escaped (fuel : nat) :
  forall hitTReset depth accum thr pl s,
    intersect rayFlags (rayOrigin (payload s)) 0.001 (rayDirection (payload s)) NRD_INF = None ->
    0 <= NRD_INF ->
    (Z.of_N (maxDepth pc) - depth < Z.of_nat fuel)%Z -> (0 < fuel)%nat ->
    exists pl' s',
      indirectLoop fuel hitTReset depth accum thr pl s
      = (Some (accumulate (Z.to_nat (Z.of_N (maxDepth pc) - depth))
                 (missContrib frameInfo (bsdfPDF (payload s)) (rayDirection (payload s)))
                 (weight (payload s)) accum thr, pl'), s')
      /\ rays s'
         = rays s ++ repeat (mkRayCall PAYLOAD_PATHTRACE rayFlags (rayOrigin (payload s)) 0.001
                               (rayDirection (payload s)) NRD_INF)
                       (Z.to_nat (Z.of_N (maxDepth pc) - depth)).
Proof.
  induction fuel as [|fuel IH]; intros r depth accum thr pl s Hmiss Hinf Hf H0; [lia|].
  rewrite indirectLoop_S.
  destruct (depth <? Z.of_N (maxDepth pc))%Z eqn:Hlt.
  - apply Z.ltb_lt in Hlt. cbv zeta.
    pose proof (segment_miss (rayOrigin (payload s)) 0.001 (rayDirection (payload s)) NRD_INF
                  (beforeTrace r s) Hmiss) as Es.
    cbn [beforeTrace payload payloadNrd stores rays set_hitT seed weight rayOrigin
         rayDirection bsdfPDF] in Es.
    rewrite Es. cbn [payload hitT contrib weight].
    assert (Eb : Qltb NRD_INF 0.0 = false) by (apply Qltb_ge; lra).
    rewrite Eb.
    replace (Z.to_nat (Z.of_N (maxDepth pc) - depth))
      with (S (Z.to_nat (Z.of_N (maxDepth pc) - (depth + 1)))) by lia.
    cbn [accumulate repeat].
    match goal with
    | |- context [NrdRgen.indirectLoop _ _ _ fuel r (depth + 1)%Z ?a ?t ?p ?st] =>
        destruct (IH r (depth + 1)%Z a t p st) as (pl' & s' & E & Hr)
    end; cbn [payload rayOrigin rayDirection]; try assumption; try lia.
    cbn [payload rayOrigin rayDirection bsdfPDF weight rays] in E, Hr.
    exists pl', s'. split; [exact E|].
    rewrite Hr, <- app_assoc. reflexivity.
  - apply Z.ltb_ge in Hlt.
    replace (Z.to_nat (Z.of_N (maxDepth pc) - depth)) with 0%nat by lia.
    cbn [accumulate repeat]. rewrite app_nil_r. do 2 eexists. split; reflexivity.
Qed.

Lemma accumulate_compat (n : nat) (c w : vec3) :
  forall a a' t t', veq a a' -> veq t t' -> veq (accumulate n c w a t) (accumulate n c w a' t').
Proof.
  induction n as [|n IH]; intros a a' t t' Ha Ht; [exact Ha|].
  cbn [accumulate]. apply IH.
  - destruct Ha as (A1 & A2 & A3), Ht as (T1 & T2 & T3).
    unfold veq, vadd, vmul. cbn [vx vy vz]. rewrite A1, A2, A3, T1, T2, T3.
    refine (conj _ (conj _ _)); reflexivity.
  - destruct Ht as (T1 & T2 & T3).
    unfold veq, vmul. cbn [vx vy vz]. rewrite T1, T2, T3.
    refine (conj _ (conj _ _)); reflexivity.
Qed.

Lemma veq_trans (a b c : vec3) : veq a b -> veq b c -> veq a c.
Proof.
  intros (A1 & A2 & A3) (B1 & B2 & B3). unfold veq.
  rewrite A1, A2, A3. auto.
Qed.

(** With the weight (1, 1, 1) every iteration adds the same radiance. *)
Lemma accumulate_unit_weight (n : nat) (c : vec3) :
  forall a t,
    veq (accumulate n c (splat3 1.0) a t) (vadd a (sv (inject_Z (Z.of_nat n)) (vmul c t))).
Proof.
  induction n as [|n IH]; intros a t.
  - cbn [accumulate]. unfold veq, vadd, sv, vmul. cbn [vx vy vz Z.of_nat].
    refine (conj _ (conj _ _)); ring.
  - cbn [accumulate].
    eapply veq_trans.
    + apply (accumulate_compat n c (splat3 1.0) _ (vadd a (vmul c t)) _ t).
      * apply veq_refl.
      * unfold veq, vmul, splat3. cbn [vx vy vz]. refine (conj _ (conj _ _)); ring.
    + eapply veq_trans; [apply IH|].
      rewrite Nat2Z.inj_succ. unfold Z.succ. rewrite inject_Z_plus.
      unfold veq, vadd, sv, vmul. cbn [vx vy vz].
      refine (conj _ (conj _ _)); ring.
Qed.

(** X14: a path that leaves the scene.  The miss shader reports the
    sentinel [NRD_INF], which is not negative, so the test that ends the loop
    of a lobe does not fire, and the payload still holds the origin and the
    direction of the ray that missed: when the first bounce of a lobe leaves
    the scene, every remaining iteration traces the same ray again and adds
    the contribution of the environment again.  The lobe traces that ray
    [maxDepth - 1] times and returns the initial radiance plus [maxDepth - 1]
    times the contribution of the environment times the throughput (before
    the removal of fireflies). *)
Theorem escaped_path_is_retraced (fuel : nat) (hitTReset : Q) (sample : BsdfSampleData)
    (org accum0 : vec3) (ratio : Q) (s : ShaderState)
    (Hinf : 0 <= NRD_INF)
    (Hmiss : intersect rayFlags org 0.001 (s_k2 sample) NRD_INF = None)
    (Hscatter : isAbsorb (event_type sample) = false)
    (Hfuel : (N.to_nat (maxDepth pc) < fuel)%nat) :
  let n := (N.to_nat (maxDepth pc) - 1)%nat in
  let c := missContrib frameInfo (s_pdf sample) (s_k2 sample) in
  let throughput := vs (bsdf_over_pdf sample) ratio in
  let escaped := accumulate n c (splat3 1.0) accum0 throughput in
  exists pl s',
    indirectLobe frameInfo pc uninit fuel hitTReset sample org accum0 ratio s
    = (Some (removeFireflies (maxLuminance pc) escaped, pl), s')
    /\ rays s'
       = rays s ++ repeat (mkRayCall PAYLOAD_PATHTRACE rayFlags org 0.001 (s_k2 sample) NRD_INF) n
    /\ veq escaped (vadd accum0 (sv (inject_Z (Z.of_nat n)) (vmul c throughput))).
Proof.
  cbv zeta. unfold indirectLobe. rewrite Hscatter. cbn [negb]. munfold.
  match goal with
  | |- context [NrdRgen.indirectLoop _ _ _ fuel hitTReset 1%Z ?a ?t ?p ?st] =>
      destruct (indirectLoop_escaped fuel hitTReset 1%Z a t p st) as (pl' & s' & E & Hr)
  end; cbn [payload rayOrigin rayDirection]; try assumption; try lia.
  cbn [payload rayOrigin rayDirection bsdfPDF weight rays] in E, Hr.
  replace (Z.to_nat (Z.of_N (maxDepth pc) - 1)) with (N.to_nat (maxDepth pc) - 1)%nat
    in E, Hr by lia.
  rewrite E. exists pl', s'. split; [reflexivity|]. split; [exact Hr|].
  apply accumulate_unit_weight.
Qed.

(** X15: the sample of the environment (STEP 2).  [HdrContrib] returns
    zero radiance when the sampled direction is below the surface, when the
    density of the light or of the BSDF is not positive, and when the shadow
    ray finds an occluder; when the shadow ray leaves the scene it returns the
    diffuse and the glossy BSDF values times the radiance of the environment,
    weighted by the power heuristic and divided by the density of the light.
    It traces at most the shadow ray and stores nothing. *)
Theorem environment_sample_visibility (m : PbrMaterial) (startPos toEye : vec3)
    (s : ShaderState) (Hinf : 0 < NRD_INF) :
  let randVal := fst (rand3_payload s) in
  let lightDir := rotate (snd (environmentSample randVal)) (Vec3 0 1 0) (envRotation frameInfo) in
  let radiance_pdf := fst (environmentSample randVal) in
  let lightPdf := ww radiance_pdf in
  let bsdfEval := bsdfEvaluate toEye lightDir randVal m in
  let lit := Qltb 0 (dot lightDir (matN m)) && Qltb 0 lightPdf && Qltb 0 (e_pdf bsdfEval) in
  let lightRadiance :=
    vdivs (sv (PathtraceMiss.powerHeuristic lightPdf (e_pdf bsdfEval))
             (vmul (rgb radiance_pdf) (rgb (clearColor frameInfo)))) lightPdf in
  let result := fst (HdrContrib frameInfo pc uninit m startPos toEye s) in
  (lit = false -> result = (splat3 0, splat3 0))
  /\ (lit = true ->
      match intersect shadowRayFlags startPos 0.001 lightDir NRD_INF with
      | Some _ => result = (splat3 0, splat3 0)
      | None => result = (vmul (bsdf_diffuse bsdfEval) lightRadiance,
                          vmul (bsdf_glossy bsdfEval) lightRadiance)
      end)
  /\ traces 1 (HdrContrib frameInfo pc uninit m startPos toEye).
Proof.
  cbv zeta. refine (conj _ (conj _ (traces_HdrContrib frameInfo pc uninit m startPos toEye))).
  - unfold HdrContrib. munfold.
    destruct (rand3_payload s) as [xi s0]. cbn [fst snd].
    destruct (environmentSample xi) as [rp ld]. cbn [fst snd]. cbv zeta.
    destruct (Qltb 0 (dot (rotate ld (Vec3 0 1 0) (envRotation frameInfo)) (matN m))
              && Qltb 0 (ww rp)); cbn [andb]; [|reflexivity].
    intros E. rewrite E. reflexivity.
  - unfold HdrContrib. munfold.
    destruct (rand3_payload s) as [xi s0]. cbn [fst snd].
    destruct (environmentSample xi) as [rp ld]. cbn [fst snd]. cbv zeta.
    destruct (Qltb 0 (dot (rotate ld (Vec3 0 1 0) (envRotation frameInfo)) (matN m))
              && Qltb 0 (ww rp)); cbn [andb]; [|discriminate].
    intros E. rewrite E.
    unfold trace, traceRayEXT. munfold.
    destruct (intersect shadowRayFlags startPos 0.001
                (rotate ld (Vec3 0 1 0) (envRotation frameInfo)) NRD_INF) as [i|].
    + cbn [skipClosestHitShader shadowRayFlags payload hitT set_hitT].
      assert (Ez : Qeq_bool (Qabs 0) NRD_INF = false).
      { destruct (Qeq_bool (Qabs 0) NRD_INF) eqn:Eq; [|reflexivity].
        apply Qeq_bool_eq in Eq. change (Qabs 0) with 0 in Eq. lra. }
      rewrite Ez. reflexivity.
    + change (MISSINDEX_PATHTRACE =? MISSINDEX_NRD)%N with false. cbv iota.
      unfold pathtrace_rmiss_main. munfold. cbn [payload hitT set_hitT set_contrib].
      assert (Ei : Qeq_bool (Qabs NRD_INF) NRD_INF = true).
      { apply Qeq_eq_bool. apply Qabs_pos. lra. }
      rewrite Ei. reflexivity.
Qed.

(** X16: the material overrides.  The overrides of the push constants
    touch the roughness and the metalness only; an override that is not
    positive (the default is -1) leaves the value of the material.  A
    positive roughness override is clamped to [minRoughness, 1] and squared,
    so for a [minRoughness] in [0, 1] the roughness lies between
    [minRoughness^2] and 1.  With a metalness override strictly between 0 and
    1 no surface passes for a mirror: the PSR loop ends with its first ray. *)
Theorem material_override (minRoughness : Q) (m : PbrMaterial) :
  let m' := overrideMaterial pc minRoughness m in
  (baseColor m' = baseColor m /\ emissive m' = emissive m /\ matN m' = matN m
   /\ matNg m' = matNg m /\ specularColor m' = specularColor m)
  /\ (overrideRoughness pc <= 0 -> roughness m' = roughness m)
  /\ (overrideMetallic pc <= 0 -> metallic m' = metallic m)
  /\ (0 < overrideMetallic pc -> metallic m' = overrideMetallic pc)
  /\ (0 < overrideRoughness pc -> 0 <= minRoughness <= 1 ->
      x2 (roughness m') = y2 (roughness m')
      /\ minRoughness * minRoughness <= x2 (roughness m') <= 1
      /\ (minRoughness <= overrideRoughness pc <= 1 ->
          x2 (roughness m') == overrideRoughness pc * overrideRoughness pc))
  /\ (0 < overrideMetallic pc < 1 ->
      forall fuel l s, (0 < fuel)%nat ->
        exists l' s',
          psrLoop fuel l s = (Some l', s')
          /\ rays s' = rays s ++ [primaryRay l]
          /\ psrDepth l' = psrDepth l /\ isPsr l' = isPsr l).
Proof.
  cbv zeta. unfold overrideMaterial.
  refine (conj _ (conj _ (conj _ (conj _ (conj _ _))))).
  - destruct (Qltb 0 (overrideRoughness pc)), (Qltb 0 (overrideMetallic pc));
      repeat split; reflexivity.
  - intros H. rewrite (Qltb_ge _ _ H).
    destruct (Qltb 0 (overrideMetallic pc)); reflexivity.
  - intros H. rewrite (Qltb_ge _ _ H).
    destruct (Qltb 0 (overrideRoughness pc)); reflexivity.
  - intros H.
    assert (E : Qltb 0 (overrideMetallic pc) = true).
    { destruct (Qltb 0 (overrideMetallic pc)) eqn:E; [reflexivity|].
      apply Qltb_false in E. lra. }
    rewrite E. reflexivity.
  - intros H (Hm0 & Hm1).
    assert (E : Qltb 0 (overrideRoughness pc) = true).
    { destruct (Qltb 0 (overrideRoughness pc)) eqn:E; [reflexivity|].
      apply Qltb_false in E. lra. }
    rewrite E.
    assert (Hr : roughness
                   (if Qltb 0 (overrideMetallic pc)
                    then mkPbrMaterial (baseColor m)
                           (Vec2 (clamp (overrideRoughness pc) minRoughness 1.0
                                  * clamp (overrideRoughness pc) minRoughness 1.0)
                                 (clamp (overrideRoughness pc) minRoughness 1.0
                                  * clamp (overrideRoughness pc) minRoughness 1.0))
                           (overrideMetallic pc) (emissive m) (matN m) (matNg m)
                           (specularColor m)
                    else mkPbrMaterial (baseColor m)
                           (Vec2 (clamp (overrideRoughness pc) minRoughness 1.0
                                  * clamp (overrideRoughness pc) minRoughness 1.0)
                                 (clamp (overrideRoughness pc) minRoughness 1.0
                                  * clamp (overrideRoughness pc) minRoughness 1.0))
                           (metallic m) (emissive m) (matN m) (matNg m) (specularColor m))
                 = Vec2 (clamp (overrideRoughness pc) minRoughness 1.0
                         * clamp (overrideRoughness pc) minRoughness 1.0)
                        (clamp (overrideRoughness pc) minRoughness 1.0
                         * clamp (overrideRoughness pc) minRoughness 1.0)).
    { destruct (Qltb 0 (overrideMetallic pc)); reflexivity. }
    cbv zeta. cbn [baseColor roughness metallic emissive matN matNg specularColor].
    rewrite Hr. cbn [x2 y2]. split; [reflexivity|].
    assert (Hc : minRoughness <= clamp (overrideRoughness pc) minRoughness 1.0 <= 1).
    { unfold clamp. split.
      - apply Q.min_glb; [apply Q.le_max_r|lra].
      - eapply Qle_trans; [apply Q.le_min_r|lra]. }
    split; [split; nra|].
    intros (Ho0 & Ho1).
    assert (Ec : clamp (overrideRoughness pc) minRoughness 1.0 == overrideRoughness pc).
    { unfold clamp. rewrite Q.max_l by exact Ho0. rewrite Q.min_l by lra. reflexivity. }
    rewrite Ec. reflexivity.
  - intros (Hlo & Hhi) fuel l s Hfuel.
    destruct fuel as [|fuel]; [lia|]. rewrite psrLoop_S.
    destruct (psrBody_accumulates l s) as (l1 & step & s1 & E & Hdep & Hr & Hc).
    rewrite E.
    destruct Hc as [(-> & Hp & _)|(-> & _ & _ & Hmat & Hm)].
    + exists l1, s1. repeat split; assumption.
    + exfalso. rewrite Hmat in Hm. unfold buildHitInfo in Hm. cbn [fst] in Hm.
      unfold notMirror in Hm. apply orb_false_iff in Hm. destruct Hm as (_ & Hm).
      apply Qltb_false in Hm.
      unfold overrideMaterial in Hm.
      assert (E1 : Qltb 0 (overrideMetallic pc) = true).
      { destruct (Qltb 0 (overrideMetallic pc)) eqn:E1; [reflexivity|].
        apply Qltb_false in E1. lra. }
      rewrite E1 in Hm. cbn [metallic] in Hm. lra.
Qed.

(** X22: the direct lighting of a surface pixel.  For a pixel that shows
    a surface, [main] stores ViewZ, normal/roughness, zero motion, the tinted
    base colour and the direct lighting before it samples the lobes; the
    direct lighting is the emission of the surface, tinted by the throughput
    of the mirrors, plus twice the radiance collected at the mirrors (once
    through the emission of the tinted material and once directly), with
    alpha 1.  The direct light of the environment is not part of it: it is
    the initial value of the diffuse and the specular signal.  Without
    mirrors the direct lighting is the emission of the surface. *)
Theorem surface_direct_lighting (fuel : nat) (gl_LaunchIDEXT gl_LaunchSizeEXT : N * N)
    (s s' : ShaderState) (l : PsrLocals) (s1 : ShaderState)
    (Hmain : main fuel gl_LaunchIDEXT gl_LaunchSizeEXT s = (Some tt, s'))
    (Hloop : psrLoop fuel (primaryLocals frameInfo uninit gl_LaunchIDEXT gl_LaunchSizeEXT)
               (seeded pc gl_LaunchIDEXT s) = (Some l, s1))
    (Hsurface : hitSky l = false) :
  let l0 := primaryLocals frameInfo uninit gl_LaunchIDEXT gl_LaunchSizeEXT in
  exists ud us dl,
    stores s' = stores s ++ surfaceStores frameInfo l0 l ++ [(nrdUDiff, ud); (nrdUSpec, us)]
    /\ lastStore nrdDirectLighting (surfaceStores frameInfo l0 l) = Some (vec4_of dl 1)
    /\ veq dl (vadd (sv 2 (psrDirectRadiance l))
                 (vmul (emissive (pbrMat l)) (psrThroughput l)))
    /\ (isPsr l = false -> veq dl (emissive (pbrMat l))).
Proof.
  cbv zeta.
  destruct (main_effects frameInfo pc uninit fuel gl_LaunchIDEXT gl_LaunchSizeEXT s) as (_ & H).
  cbv zeta in H. rewrite Hmain in H. cbn [fst snd] in H.
  destruct (H eq_refl) as (l' & s1' & st & E & Hst & Hc). clear H.
  rewrite Hloop in E. inversion E; subst l' s1'. clear E.
  destruct Hc as [(Hsky & _)|(_ & ud & us & ->)]; [congruence|].
  exists ud, us. eexists. split; [exact Hst|]. split; [reflexivity|].
  split.
  - unfold veq, vadd, sv, vmul, splat3. cbn [vx vy vz].
    refine (conj _ (conj _ _)); ring.
  - intros Hp.
    destruct (psrLoop_mirrors fuel
                (primaryLocals frameInfo uninit gl_LaunchIDEXT gl_LaunchSizeEXT) _ l s1
                ltac:(cbn; lia) ltac:(cbn; split; [discriminate|lia]) Hloop) as (_ & _ & Hf).
    destruct (Hf Hp) as (_ & Ht & _ & _ & _ & Hrad).
    rewrite (Hrad Hsurface), Ht.
    cbn [psrThroughput psrDirectRadiance primaryLocals].
    unfold veq, vadd, sv, vmul, splat3. cbn [vx vy vz].
    refine (conj _ (conj _ _)); ring.
Qed.

End WithScene.

End SurfaceFacts.

(** ** The compositing shader: the reconstructed position *)

Module CompositingFacts.

Import HostDevice Shading Signal SignalFacts.

Lemma mulM4V_compat (M : mat4) (a b : vec4) : veq4 a b -> veq4 (mulM4V M a) (mulM4V M b).
Proof.
  intros (H1 & H2 & H3 & H4). unfold veq4, mulM4V, v4add, sv4. cbn [wx wy wz ww].
  rewrite H1, H2, H3, H4. refine (conj _ (conj _ (conj _ _))); reflexivity.
Qed.

(** X23: the reconstructed position.  When [viewInv] is the inverse of
    [view] and keeps the fourth component (an affine camera transform), and
    the un-projected pixel has a depth and a fourth component that are not
    0, the world position the compositing shader reconstructs from the
    stored ViewZ has that ViewZ as its depth in camera space: it lies at the
    depth nrd.rgen stored for the primary surface. *)
Theorem reconstructed_depth (frameInfo : FrameInfo) (uv : vec2) (viewZ : Q)
    (Hinv : forall v, veq4 (mulM4V (view frameInfo) (mulM4V (viewInv frameInfo) v)) v)
    (Haffine : forall v, ww (mulM4V (viewInv frameInfo) v) == ww v)
    (Hw : ~ ww (mulM4V (projInv frameInfo)
                  (Vec4 (x2 uv * 2.0 - 1.0) (y2 uv * 2.0 - 1.0) 0.0 1.0)) == 0)
    (Hz : ~ wz (mulM4V (projInv frameInfo)
                  (Vec4 (x2 uv * 2.0 - 1.0) (y2 uv * 2.0 - 1.0) 0.0 1.0)) == 0) :
  wz (mulM4V (view frameInfo)
        (vec4_of (Compositing.ReconstructViewPosition frameInfo uv viewZ) 1.0))
  == viewZ.
Proof.
  unfold Compositing.ReconstructViewPosition. cbv zeta.
  set (p := mulM4V (projInv frameInfo) _) in *.
  set (p2 := Vec4 _ _ _ _).
  assert (Hq : veq4 (vec4_of (rgb (mulM4V (viewInv frameInfo) p2)) 1.0)
                 (mulM4V (viewInv frameInfo) p2)).
  { unfold veq4, vec4_of, rgb. cbn [wx wy wz ww vx vy vz].
    refine (conj _ (conj _ (conj _ _))); try reflexivity.
    rewrite Haffine. unfold p2. cbn [ww]. field. exact Hw. }
  destruct (mulM4V_compat (view frameInfo) _ _ Hq) as (_ & _ & E & _).
  rewrite E. destruct (Hinv p2) as (_ & _ & E2 & _). rewrite E2.
  unfold p2. cbn [wz ww]. field. split; assumption.
Qed.

End CompositingFacts.

(** ** NRDWrapper: what a dispatch records *)

Module RecordFacts.

Import NRDWrapper NRDLayout PoolFacts DispatchFacts.
Local Open Scope nat_scope.

Lemma assign_fill {A} (U : list A) (d a : A) (k : nat) :
  assign (U ++ repeat d (S k)) (length U) a = Done ((U ++ [a]) ++ repeat d k).
Proof.
  induction U as [|h U IH]; [reflexivity|].
  cbn [app length assign]. rewrite IH. reflexivity.
Qed.

Lemma index_fill {A} (U : list A) (d : A) (k : nat) :
  index (U ++ repeat d (S k)) (length U) = Done d.
Proof.
  unfold index. rewrite nth_error_app2 by lia. rewrite Nat.sub_diag. reflexivity.
Qed.

Lemma repeat_add {A} (d : A) (a b : nat) : repeat d (a + b) = repeat d a ++ repeat d b.
Proof. apply repeat_app. Qed.

Section Dispatch.

Variable w : Wrapper.
Variable iDesc : InstanceDesc.
Variable lDesc : SPIRVBindingOffsets.
Variable dispatchDesc : DispatchDesc.

(** The write of descriptor [d] of range [r], the [n]-th update. *)
Local Abbreviation resourceWrite r d n :=
  (mkWriteDescriptorSet (u32N (rangeBaseBindingIndex lDesc r + N.of_nat d)) 1
     (NRDDescriptorTypeToVulkan (rangeDescriptorType r)) (Some n) None).

Lemma bindResource_ok (r : ResourceRangeDesc) (d k : nat) (U : list WriteDescriptorSet)
    (I : list DescriptorImageInfo) (B : list ImageMemoryBarrier) (res : ResourceDesc)
    (t : Texture) :
  length I = length U ->
  nth_error (resources dispatchDesc) (length U) = Some res ->
  descriptorType res = rangeDescriptorType r ->
  lookupTexture w res = Done t ->
  bindResource w lDesc dispatchDesc r d
    (mkDispatchLocals (length U) (U ++ repeat defaultWrite (S k))
       (I ++ repeat defaultImageInfo (S k)) B)
  = Done (mkDispatchLocals (S (length U))
            ((U ++ [resourceWrite r d (length U)]) ++ repeat defaultWrite k)
            ((I ++ [imageInfoOf t]) ++ repeat defaultImageInfo k)
            (B ++ [barrierOf (rangeDescriptorType r) t])).
Proof.
  intros HI Hres Hk Ht. unfold bindResource.
  cbn [numResourceUpdates descriptorUpdates descriptorImageInfos imageBarriers].
  unfold index. rewrite Hres. cbn [obind]. rewrite assign_fill. cbn [obind].
  rewrite Hk.
  assert (Eq : DescriptorType_eqb (rangeDescriptorType r) (rangeDescriptorType r) = true)
    by (destruct (rangeDescriptorType r); reflexivity).
  rewrite Eq. cbn [assert obind]. rewrite Ht. cbn [obind].
  rewrite <- HI. rewrite assign_fill. cbn [obind]. rewrite HI.
  unfold rangeBaseBindingIndex, barrierOf, imageInfoOf, isStorage.
  destruct (rangeDescriptorType r); reflexivity.
Qed.

(** The loop over the descriptors of one range, on the resources [rs]
    that follow the ones bound so far. *)
Lemma descriptors_ok (r : ResourceRangeDesc) (n0 : nat) :
  forall (rs : list ResourceDesc) (a k : nat) (U : list WriteDescriptorSet)
         (I : list DescriptorImageInfo) (B : list ImageMemoryBarrier)
         (pre post : list ResourceDesc) (texs : list Texture),
    length I = length U -> length U = n0 + a ->
    resources dispatchDesc = pre ++ rs ++ post -> length pre = length U ->
    Forall (fun res => descriptorType res = rangeDescriptorType r) rs ->
    lookupTextures w rs = Done texs ->
    forEach (bindResource w lDesc dispatchDesc r) (seq a (length rs))
      (mkDispatchLocals (length U) (U ++ repeat defaultWrite (length rs + k))
         (I ++ repeat defaultImageInfo (length rs + k)) B)
    = Done (mkDispatchLocals (length U + length rs)
              ((U ++ map (fun d => resourceWrite r d (n0 + d)) (seq a (length rs)))
               ++ repeat defaultWrite k)
              ((I ++ map imageInfoOf texs) ++ repeat defaultImageInfo k)
              (B ++ map (barrierOf (rangeDescriptorType r)) texs)).
Proof.
  induction rs as [|res rs IH]; intros a k U I B pre post texs HI HU Hres Hpre Hk Hl.
  - cbn [lookupTextures] in Hl. inversion Hl; subst texs.
    cbn [length seq forEach map Nat.add]. rewrite !app_nil_r, Nat.add_0_r. reflexivity.
  - cbn [lookupTextures] in Hl. step Hl. step Hl. inversion Hl; subst texs. clear Hl.
    inversion Hk as [|? ? Hk1 Hk2]; subst.
    cbn [length seq forEach Nat.add].
    rewrite (bindResource_ok r a (length rs + k) U I B res a0); try assumption.
    2:{ rewrite Hres, nth_error_app2 by lia.
        replace (length U - length pre) with 0 by lia. reflexivity. }
    cbn [obind].
    replace (S (length U)) with (length (U ++ [resourceWrite r a (length U)]))
      by (rewrite length_app; cbn [length]; lia).
    rewrite (IH (S a) k (U ++ [resourceWrite r a (length U)]) (I ++ [imageInfoOf a0])
               (B ++ [barrierOf (rangeDescriptorType r) a0]) (pre ++ [res]) post a1);
      try assumption; try reflexivity.
    + rewrite !length_app. cbn [length map]. rewrite <- !app_assoc. cbn [app].
      rewrite <- HU.
      replace (length U + 1 + length rs) with (length U + S (length rs)) by lia.
      reflexivity.
    + rewrite !length_app. cbn [length]. lia.
    + rewrite length_app. cbn [length]. lia.
    + rewrite Hres, <- app_assoc. reflexivity.
    + rewrite !length_app. cbn [length]. lia.
Qed.

Lemma lookupTextures_app (rs1 rs2 : list ResourceDesc) (texs : list Texture) :
  lookupTextures w (rs1 ++ rs2) = Done texs ->
  exists t1 t2,
    texs = t1 ++ t2 /\ lookupTextures w rs1 = Done t1 /\ lookupTextures w rs2 = Done t2.
Proof.
  revert texs. induction rs1 as [|r rs1 IH]; intros texs H.
  - exists [], texs. auto.
  - cbn [app lookupTextures] in H. step H. step H. inversion H; subst texs.
    destruct (IH _ eq_refl) as (t1 & t2 & -> & H1 & H2).
    exists (a :: t1), t2. cbn [lookupTextures]. rewrite E, H1. auto.
Qed.

Lemma lookupTextures_length (rs : list ResourceDesc) :
  forall texs, lookupTextures w rs = Done texs -> length texs = length rs.
Proof.
  induction rs as [|r rs IH]; intros texs H.
  - inversion H. reflexivity.
  - cbn [lookupTextures] in H. step H. step H. inversion H; subst.
    cbn [length]. rewrite (IH _ eq_refl). reflexivity.
Qed.

Lemma combine_repeat_map {A B C} (f : A -> B -> C) (a : A) (l : list B) :
  map (fun kt => f (fst kt) (snd kt)) (combine (repeat a (length l)) l) = map (f a) l.
Proof.
  induction l as [|b l IH]; [reflexivity|]. cbn. rewrite IH. reflexivity.
Qed.

Lemma combine_app_same {A B} (a a' : list A) (b b' : list B) :
  length a = length b -> combine (a ++ a') (b ++ b') = combine a b ++ combine a' b'.
Proof.
  revert b. induction a as [|x a IH]; intros [|y b] H; try discriminate H; [reflexivity|].
  cbn. rewrite IH by (cbn in H; lia). reflexivity.
Qed.

Lemma Forall2_repeat_r {A B} (P : A -> B -> Prop) (b : B) (l : list A) (n : nat) :
  Forall2 P l (repeat b n) -> length l = n /\ Forall (fun a => P a b) l.
Proof.
  revert n. induction l as [|a l IH]; intros n H.
  - inversion H as [E|]. destruct n; [split; [reflexivity|constructor]|discriminate].
  - destruct n; [inversion H|]. cbn [repeat] in H. inversion H; subst.
    destruct (IH _ H5) as (Hl & Hf). split; [cbn [length]; lia|constructor; assumption].
Qed.

(** The loop over the ranges of the pipeline. *)
Lemma ranges_ok (ranges : list ResourceRangeDesc) :
  forall (rs : list ResourceDesc) (k : nat) (U : list WriteDescriptorSet)
         (I : list DescriptorImageInfo) (B : list ImageMemoryBarrier)
         (pre post : list ResourceDesc) (texs : list Texture),
    length I = length U ->
    resources dispatchDesc = pre ++ rs ++ post -> length pre = length U ->
    Forall2 (fun res kind => descriptorType res = kind) rs (rangeKinds ranges) ->
    lookupTextures w rs = Done texs ->
    forEach (bindRange w lDesc dispatchDesc) ranges
      (mkDispatchLocals (length U) (U ++ repeat defaultWrite (length rs + k))
         (I ++ repeat defaultImageInfo (length rs + k)) B)
    = Done (mkDispatchLocals (length U + length rs)
              ((U ++ resourceWrites lDesc ranges (length U)) ++ repeat defaultWrite k)
              ((I ++ map imageInfoOf texs) ++ repeat defaultImageInfo k)
              (B ++ map (fun kt => barrierOf (fst kt) (snd kt))
                      (combine (rangeKinds ranges) texs))).
Proof.
  induction ranges as [|r ranges IH]; intros rs k U I B pre post texs HI Hres Hpre Hk Hl.
  - cbn [rangeKinds flat_map] in Hk. inversion Hk; subst rs.
    cbn [lookupTextures] in Hl. inversion Hl; subst texs.
    cbn [forEach resourceWrites combine map length Nat.add rangeKinds flat_map].
    rewrite !app_nil_r, Nat.add_0_r. reflexivity.
  - unfold rangeKinds in Hk. cbn [flat_map] in Hk. fold (rangeKinds ranges) in Hk.
    apply Forall2_app_inv_r in Hk. destruct Hk as (rs1 & rs2 & Hk1 & Hk2 & ->).
    apply Forall2_repeat_r in Hk1. destruct Hk1 as (Hlen1 & Hkind1).
    destruct (lookupTextures_app _ _ _ Hl) as (t1 & t2 & -> & Hl1 & Hl2).
    pose proof (lookupTextures_length _ _ Hl1) as Ht1.
    cbn [forEach]. unfold bindRange at 1. rewrite <- Hlen1.
    rewrite length_app, <- Nat.add_assoc.
    rewrite (descriptors_ok r (length U) rs1 0 (length rs2 + k) U I B pre (rs2 ++ post) t1);
      try assumption; try lia.
    2:{ rewrite Hres, <- app_assoc. reflexivity. }
    cbn [obind].
    set (U1 := U ++ map (fun d => resourceWrite r d (length U + d)) (seq 0 (length rs1))).
    assert (HU1 : length U1 = length U + length rs1).
    { unfold U1. rewrite length_app, length_map, length_seq. reflexivity. }
    rewrite <- HU1.
    rewrite (IH rs2 k U1 (I ++ map imageInfoOf t1)
               (B ++ map (barrierOf (rangeDescriptorType r)) t1) (pre ++ rs1) post t2);
      try assumption.
    + unfold rangeKinds at 2. cbn [flat_map resourceWrites]. fold (rangeKinds ranges).
      rewrite <- Hlen1, <- Ht1.
      rewrite combine_app_same by (rewrite repeat_length; reflexivity).
      rewrite !map_app, combine_repeat_map.
      rewrite HU1, Ht1. unfold U1. rewrite <- !app_assoc, Nat.add_assoc.
      reflexivity.
    + rewrite !length_app, length_map. lia.
    + rewrite Hres, <- !app_assoc. reflexivity.
    + rewrite length_app. lia.
Qed.

Local Abbreviation samplerWrite s n :=
  (mkWriteDescriptorSet
     (u32N (samplerOffset lDesc + samplersBaseRegisterIndex iDesc + N.of_nat s)) 1
     VK_DESCRIPTOR_TYPE_SAMPLER (Some n) None).

(** The loop over the samplers. *)
Lemma samplers_ok (n0 : nat) (I : list DescriptorImageInfo) (B : list ImageMemoryBarrier) :
  forall (cnt a k : nat) (U : list WriteDescriptorSet),
    length U = n0 + a -> length U + cnt <= length I ->
    forEach (bindSampler iDesc lDesc) (seq a cnt)
      (mkDispatchLocals (length U) (U ++ repeat defaultWrite (cnt + k)) I B)
    = Done (mkDispatchLocals (length U + cnt)
              ((U ++ map (fun s => samplerWrite s (n0 + s)) (seq a cnt))
               ++ repeat defaultWrite k) I B).
Proof.
  induction cnt as [|cnt IH]; intros a k U HU HI.
  - cbn [seq forEach map Nat.add]. rewrite !app_nil_r, Nat.add_0_r. reflexivity.
  - cbn [seq forEach Nat.add]. unfold bindSampler at 1.
    cbn [numResourceUpdates descriptorUpdates descriptorImageInfos imageBarriers].
    assert (Hi : exists x, index I (length U) = Done x).
    { unfold index. destruct (nth_error I (length U)) eqn:E; [eexists; reflexivity|].
      apply nth_error_None in E. lia. }
    destruct Hi as (x & ->). cbn [obind]. rewrite assign_fill. cbn [obind].
    replace (S (length U)) with (length (U ++ [samplerWrite a (length U)]))
      by (rewrite length_app; cbn [length]; lia).
    rewrite (IH (S a) k); [|rewrite length_app; cbn [length]; lia
                           |rewrite length_app; cbn [length]; lia].
    rewrite !length_app. cbn [length map]. rewrite <- !app_assoc. cbn [app].
    rewrite <- HU.
    replace (length U + 1 + cnt) with (length U + S cnt) by lia. reflexivity.
Qed.

Lemma nth_error_combine_seq {A} (l : list A) :
  forall start i x,
    nth_error l i = Some x ->
    nth_error (combine (seq start (length l)) l) i = Some (start + i, x).
Proof.
  induction l as [|a l IH]; intros start i x H; [destruct i; discriminate H|].
  destruct i; cbn in H |- *.
  - inversion H. rewrite Nat.add_0_r. reflexivity.
  - rewrite (IH (S start) i x H). f_equal. f_equal. lia.
Qed.

Lemma sumDescriptors_total (ranges : list ResourceRangeDesc) :
  forall acc,
    (acc + totalDescriptors ranges < 2 ^ 32)%N ->
    fold_left (fun n r => u32N (n + descriptorsNum r)) ranges acc
    = (acc + totalDescriptors ranges)%N.
Proof.
  induction ranges as [|r ranges IH]; intros acc H; cbn [fold_left totalDescriptors fold_right].
  - rewrite N.add_0_r. reflexivity.
  - cbn [totalDescriptors fold_right] in H. fold (totalDescriptors ranges) in H |- *.
    unfold u32N at 2. rewrite N.mod_small by lia.
    rewrite IH by lia. lia.
Qed.

Lemma rangeKinds_length (ranges : list ResourceRangeDesc) :
  length (rangeKinds ranges) = N.to_nat (totalDescriptors ranges).
Proof.
  induction ranges as [|r ranges IH]; [reflexivity|].
  unfold rangeKinds. cbn [flat_map totalDescriptors fold_right].
  fold (rangeKinds ranges). fold (totalDescriptors ranges).
  rewrite length_app, repeat_length, IH. lia.
Qed.

Lemma kinds_Forall2 (kinds : list DescriptorType) :
  forall rs : list ResourceDesc,
    length kinds <= length rs ->
    (forall i k res, nth_error kinds i = Some k -> nth_error rs i = Some res ->
                     descriptorType res = k) ->
    Forall2 (fun res kind => descriptorType res = kind) (firstn (length kinds) rs) kinds.
Proof.
  induction kinds as [|k kinds IH]; intros rs Hlen Hk; [constructor|].
  destruct rs as [|res rs]; [cbn in Hlen; lia|].
  cbn [length firstn]. constructor.
  - apply (Hk 0 k res); reflexivity.
  - apply IH; [cbn in Hlen; lia|].
    intros i k' res' Hi Hr. apply (Hk (S i) k' res'); assumption.
Qed.

(** What [createPipelines] stores in the wrapper. *)
Lemma pipelinesOf_pipeline (pDesc : PipelineDesc) (i : nat) :
  pipelinesOf w iDesc ->
  nth_error (pipelines iDesc) i = Some pDesc ->
  m_constantBufferSetIndex w = 0%N
  /\ m_samplersSetIndex w
     = (if (constantBufferSpaceIndex iDesc =? samplersSpaceIndex iDesc)%N then 0 else 1)%N
  /\ m_resourcesSetIndex w
     = (if (resourcesSpaceIndex iDesc =? constantBufferSpaceIndex iDesc)%N then 0
        else if (resourcesSpaceIndex iDesc =? samplersSpaceIndex iDesc)%N
             then m_samplersSetIndex w else m_samplersSetIndex w + 1)%N
  /\ exists pipe,
       nth_error (m_pipelines w) i = Some pipe
       /\ numBindings pipe
          = u32N (samplersNum iDesc + (if hasConstantData pDesc then 1 else 0)
                  + sumDescriptors (resourceRanges pDesc)).
Proof.
  intros (h0 & Hw) Hp. unfold createPipelines in Hw. cbv zeta in Hw.
  inversion Hw as [[Hcb Hs Hr Hps]]. clear Hw.
  refine (conj eq_refl (conj _ (conj _ _))).
  - destruct (_ =? _)%N; reflexivity.
  - destruct (resourcesSpaceIndex iDesc =? constantBufferSpaceIndex iDesc)%N; [reflexivity|].
    destruct (resourcesSpaceIndex iDesc =? samplersSpaceIndex iDesc)%N;
      destruct (constantBufferSpaceIndex iDesc =? samplersSpaceIndex iDesc)%N; reflexivity.
  - eexists. split.
    + rewrite nth_error_map, (nth_error_combine_seq _ 0 i pDesc Hp). cbn [option_map].
      reflexivity.
    + reflexivity.
Qed.

Lemma sharedSpace_sets :
  pipelinesOf w iDesc ->
  ((m_constantBufferSetIndex w =? m_resourcesSetIndex w)%N
   && (m_samplersSetIndex w =? m_resourcesSetIndex w)%N) = sharedSpace iDesc
  /\ (m_resourcesSetIndex w <= 2)%N
  /\ (sharedSpace iDesc = true -> m_resourcesSetIndex w = 0%N).
Proof.
  intros (h0 & Hw). unfold createPipelines in Hw. cbv zeta in Hw.
  inversion Hw as [[Hcb Hs Hr Hps]]. clear Hw. unfold sharedSpace.
  destruct (N.eqb_spec (constantBufferSpaceIndex iDesc) (samplersSpaceIndex iDesc)) as [E1|E1];
    destruct (N.eqb_spec (resourcesSpaceIndex iDesc) (constantBufferSpaceIndex iDesc))
      as [E2|E2];
    destruct (N.eqb_spec (resourcesSpaceIndex iDesc) (samplersSpaceIndex iDesc)) as [E3|E3];
    try congruence; cbn; repeat split; try lia; try discriminate.
Qed.

Lemma obind_failed {A B} (c : Outcome A) (k : A -> Outcome B) (x : Assertion) :
  obind c k = AssertionFailed x ->
  c = AssertionFailed x \/ exists a, c = Done a /\ k a = AssertionFailed x.
Proof.
  destruct c; cbn [obind]; intros H.
  - right. eexists. split; [reflexivity|exact H].
  - left. inversion H. reflexivity.
  - discriminate H.
  - discriminate H.
Qed.

Lemma bindResource_failed r d l x :
  bindResource w lDesc dispatchDesc r d l = AssertionFailed x -> x = AssertResourceKind.
Proof.
  unfold bindResource. intros H.
  apply obind_failed in H. destruct H as [H|(res & _ & H)];
    [exfalso; exact (index_not_assert _ _ _ H)|].
  apply obind_failed in H. destruct H as [H|(u & _ & H)];
    [exfalso; exact (assign_not_assert _ _ _ _ H)|].
  apply obind_failed in H. destruct H as [H|(u0 & _ & H)].
  { unfold assert in H. destruct (DescriptorType_eqb _ _); inversion H. reflexivity. }
  apply obind_failed in H. destruct H as [H|(t & _ & H)].
  { exfalso. unfold lookupTexture in H.
    destruct (type res); [discriminate H| |]; exact (index_not_assert _ _ _ H). }
  apply obind_failed in H. destruct H as [H|(i & _ & H)];
    [exfalso; exact (assign_not_assert _ _ _ _ H)|discriminate H].
Qed.

Lemma forEach_failed {A S} (body : A -> S -> Outcome S) (P : Assertion -> Prop) :
  (forall a s x, body a s = AssertionFailed x -> P x) ->
  forall l s x, forEach body l s = AssertionFailed x -> P x.
Proof.
  intros Hb. induction l as [|a l IH]; intros s x H; [discriminate H|].
  cbn [forEach] in H. apply obind_failed in H.
  destruct H as [H|(s1 & _ & H)]; [exact (Hb _ _ _ H)|exact (IH _ _ H)].
Qed.

(** X17: register spaces and descriptor sets.  [createPipelines] uses
    one descriptor set when the constant buffer, the samplers and the
    resources share a register space, and two or three sets otherwise, with
    set indices up to 2.  [dispatch] pushes all its writes to one set: for an
    instance with more than one register space every dispatch of an
    existing pipeline stops at the assertion on the set indices, before
    anything is recorded; with one register space that assertion never
    fails. *)
Theorem separate_spaces_stop_dispatch (pDesc : PipelineDesc)
    (Hw : pipelinesOf w iDesc)
    (Hpipe : nth_error (pipelines iDesc) (N.to_nat (pipelineIndex dispatchDesc))
             = Some pDesc) :
  (sharedSpace iDesc = false ->
   dispatch w iDesc lDesc dispatchDesc = AssertionFailed AssertSetsShared)
  /\ (sharedSpace iDesc = true ->
      dispatch w iDesc lDesc dispatchDesc <> AssertionFailed AssertSetsShared)
  /\ (1 <= numPipelineSets iDesc <= 3)%N
  /\ (numPipelineSets iDesc = 1%N <-> sharedSpace iDesc = true)
  /\ (m_resourcesSetIndex w <= 2)%N.
Proof.
  destruct (pipelinesOf_pipeline pDesc _ Hw Hpipe) as (_ & _ & _ & pipe & Hp & _).
  destruct (sharedSpace_sets Hw) as (Hs & Hle & _).
  assert (Hidx : index (pipelines iDesc) (N.to_nat (pipelineIndex dispatchDesc)) = Done pDesc)
    by (unfold index; rewrite Hpipe; reflexivity).
  assert (Hidx' : index (m_pipelines w) (N.to_nat (pipelineIndex dispatchDesc)) = Done pipe)
    by (unfold index; rewrite Hp; reflexivity).
  refine (conj _ (conj _ (conj _ (conj _ Hle)))).
  - intros E. unfold dispatch. rewrite Hidx. cbn [obind]. rewrite Hidx'. cbn [obind].
    rewrite Hs, E. reflexivity.
  - intros E. unfold dispatch. rewrite Hidx. cbn [obind]. rewrite Hidx'. cbn [obind].
    rewrite Hs, E. cbn [assert obind]. intros H.
    apply obind_failed in H. destruct H as [H|(l1 & _ & H)].
    { apply (forEach_failed _ (fun x => x = AssertResourceKind)) in H; [discriminate H|].
      intros r l x Hx. unfold bindRange in Hx.
      apply (forEach_failed _ (fun x => x = AssertResourceKind)) in Hx; [exact Hx|].
      intros d l' x'. apply bindResource_failed. }
    apply obind_failed in H. destruct H as [H|(l2 & _ & H)];
      [exact (samplers_no_assert _ _ _ _ _ H)|].
    apply obind_failed in H. destruct H as [H|([l3 up] & _ & H)]; [|discriminate H].
    destruct (hasConstantData pDesc); [|discriminate H].
    apply obind_failed in H. destruct H as [H|(u & _ & H)];
      [exact (assign_not_assert _ _ _ _ H)|discriminate H].
  - unfold numPipelineSets, createPipelines. cbv zeta.
    destruct (constantBufferSpaceIndex iDesc =? samplersSpaceIndex iDesc)%N;
      destruct (resourcesSpaceIndex iDesc =? constantBufferSpaceIndex iDesc)%N;
      destruct (resourcesSpaceIndex iDesc =? samplersSpaceIndex iDesc)%N; cbn; lia.
  - unfold numPipelineSets, createPipelines, sharedSpace. cbv zeta.
    destruct (N.eqb_spec (constantBufferSpaceIndex iDesc) (samplersSpaceIndex iDesc)) as [E1|E1];
      destruct (N.eqb_spec (resourcesSpaceIndex iDesc) (constantBufferSpaceIndex iDesc))
        as [E2|E2];
      destruct (N.eqb_spec (resourcesSpaceIndex iDesc) (samplersSpaceIndex iDesc)) as [E3|E3];
      try congruence; cbn; split; intros H; try reflexivity; try discriminate H.
Qed.

(** The commands of a dispatch that meets its preconditions. *)
Lemma dispatch_shape (pDesc : PipelineDesc) (texs : list Texture)
    (Hw : pipelinesOf w iDesc)
    (Hpipe : nth_error (pipelines iDesc) (N.to_nat (pipelineIndex dispatchDesc))
             = Some pDesc)
    (Hshared : sharedSpace iDesc = true)
    (Hfit : (2 * samplersNum iDesc + 1 + totalDescriptors (resourceRanges pDesc) < 2 ^ 32)%N)
    (Hlen : length (expectedKinds pDesc) <= length (resources dispatchDesc))
    (Hkinds : kindsMatch pDesc dispatchDesc)
    (Hlook : lookupTextures w (firstn (length (expectedKinds pDesc)) (resources dispatchDesc))
             = Done texs) :
  exists pipe infos,
    nth_error (m_pipelines w) (N.to_nat (pipelineIndex dispatchDesc)) = Some pipe
    /\ dispatch w iDesc lDesc dispatchDesc
       = Done ((if uploads pDesc dispatchDesc then uploadConstants w dispatchDesc else [])
               ++ dispatchCmds pipe w dispatchDesc
                    (map (fun kt => barrierOf (fst kt) (snd kt))
                       (combine (expectedKinds pDesc) texs))
                    (expectedWrites w iDesc lDesc pDesc) infos)
    /\ firstn (length texs) infos = map imageInfoOf texs
    /\ length texs = length (expectedKinds pDesc)
    /\ m_resourcesSetIndex w = 0%N.
Proof.
  destruct (pipelinesOf_pipeline pDesc _ Hw Hpipe) as (_ & _ & _ & pipe & Hp & Hnb).
  destruct (sharedSpace_sets Hw) as (Hs & _ & Hset).
  assert (Hidx : index (pipelines iDesc) (N.to_nat (pipelineIndex dispatchDesc)) = Done pDesc)
    by (unfold index; rewrite Hpipe; reflexivity).
  assert (Hidx' : index (m_pipelines w) (N.to_nat (pipelineIndex dispatchDesc)) = Done pipe)
    by (unfold index; rewrite Hp; reflexivity).
  set (K := length (expectedKinds pDesc)) in *.
  set (S' := N.to_nat (samplersNum iDesc)).
  set (c := if hasConstantData pDesc then 1 else 0).
  assert (HK : K = N.to_nat (totalDescriptors (resourceRanges pDesc)))
    by apply rangeKinds_length.
  assert (Hsize : N.to_nat (u32N (numBindings pipe + samplersNum iDesc))
                  = K + (S' + (c + S'))).
  { rewrite Hnb. unfold sumDescriptors. rewrite sumDescriptors_total by lia.
    unfold u32N. unfold c, S'.
    destruct (hasConstantData pDesc);
      match goal with
      | |- context [((?a mod 2 ^ 32 + ?b) mod 2 ^ 32)%N] =>
          rewrite (N.mod_small a) by lia; rewrite (N.mod_small (a + b)) by lia
      end; lia. }
  pose proof (lookupTextures_length _ _ Hlook) as Htl.
  rewrite length_firstn in Htl.
  assert (Htl' : length texs = K) by lia.
  exists pipe.
  unfold dispatch. rewrite Hidx. cbn [obind]. rewrite Hidx'. cbn [obind].
  rewrite Hs, Hshared. cbn [assert obind]. rewrite Hsize.
  pose proof (ranges_ok (resourceRanges pDesc)
                (firstn K (resources dispatchDesc)) (S' + (c + S')) [] [] [] []
                (skipn K (resources dispatchDesc)) texs eq_refl) as Hr.
  cbn [app length] in Hr.
  rewrite length_firstn in Hr. replace (Nat.min K (length (resources dispatchDesc))) with K in Hr
    by lia.
  rewrite Hr; [|rewrite firstn_skipn; reflexivity|reflexivity
               |apply kinds_Forall2; [exact Hlen|exact Hkinds]|exact Hlook].
  clear Hr. cbn [obind Nat.add].
  set (RW := resourceWrites lDesc (resourceRanges pDesc) 0).
  assert (HRW : length RW = K).
  { unfold RW. clear. unfold K, expectedKinds.
    generalize 0 as n. induction (resourceRanges pDesc) as [|r rs IH]; intros n; [reflexivity|].
    unfold rangeKinds. cbn [resourceWrites flat_map]. fold (rangeKinds rs).
    rewrite !length_app, length_map, length_seq, repeat_length, IH. reflexivity. }
  rewrite <- HRW.
  change (seq 0 (N.to_nat (samplersNum iDesc))) with (seq 0 S').
  rewrite (samplers_ok (length RW) _ _ S' 0 (c + S') RW)
    by (try rewrite length_app, length_map, repeat_length; lia).
  cbn [obind].
  fold (samplerWrites iDesc lDesc (length RW)).
  unfold uploads, expectedWrites. fold RW.
  unfold dispatchCmds. rewrite (Hset Hshared).
  assert (HSW : length (RW ++ samplerWrites iDesc lDesc (length RW)) = length RW + S').
  { rewrite length_app. unfold samplerWrites. rewrite length_map, length_seq. reflexivity. }
  assert (Hinfos : firstn (length texs)
                     (map imageInfoOf texs ++ repeat defaultImageInfo (S' + (c + S')))
                   = map imageInfoOf texs).
  { replace (length texs) with (length (map imageInfoOf texs) + 0)
      by (rewrite length_map; lia).
    rewrite firstn_app_2, firstn_O, app_nil_r. reflexivity. }
  exists (map imageInfoOf texs ++ repeat defaultImageInfo (S' + (c + S'))).
  split; [exact Hp|]. split; [|split; [exact Hinfos|split; [lia|reflexivity]]].
  destruct (hasConstantData pDesc) eqn:Hc.
  - cbn [numResourceUpdates descriptorUpdates descriptorImageInfos imageBarriers].
    subst c. cbn [Nat.add].
    rewrite <- HSW. rewrite assign_fill.
    cbn [obind andb numResourceUpdates descriptorUpdates descriptorImageInfos imageBarriers].
    unfold constantBufferWrite.
    match goal with
    | |- context [firstn (S (length ?l)) ((?l ++ [?x]) ++ ?r)] =>
        replace (S (length l)) with (length (l ++ [x]) + 0)
          by (rewrite (length_app l); cbn [length]; lia)
    end.
    rewrite firstn_app_2, firstn_O, app_nil_r, <- app_assoc.
    destruct (constantBufferDataMatchesPreviousDispatch dispatchDesc); reflexivity.
  - cbn [numResourceUpdates descriptorUpdates descriptorImageInfos imageBarriers andb app obind].
    rewrite <- HSW.
    replace (length (RW ++ samplerWrites iDesc lDesc (length RW)))
      with (length (RW ++ samplerWrites iDesc lDesc (length RW)) + 0) at 1 by lia.
    rewrite firstn_app_2, firstn_O, !app_nil_r. reflexivity.
Qed.

(** X18: the commands of a dispatch.  For a wrapper whose pipelines were
    created for the instance, one register space, descriptor counts that fit
    32 bits, and a dispatch that lists a resource of the declared kind, with
    an index inside its pool, for every descriptor of its pipeline,
    [dispatch] records, after the upload of the constants: one barrier per
    descriptor, in the order of the resources, to shader-write for a storage
    range and to shader-read for a texture range; one push of the writes of
    the resources, the samplers and the constant buffer, to set 0, where the
    image view of the [i]-th write is the view of the [i]-th resource; the
    bind of the pipeline; and the dispatch of the grid.  The vectors sized by
    [numBindings + samplersNum] are large enough for all the updates. *)
Theorem dispatch_records (pDesc : PipelineDesc) (texs : list Texture)
    (Hw : pipelinesOf w iDesc)
    (Hpipe : nth_error (pipelines iDesc) (N.to_nat (pipelineIndex dispatchDesc))
             = Some pDesc)
    (Hshared : sharedSpace iDesc = true)
    (Hfit : (2 * samplersNum iDesc + 1 + totalDescriptors (resourceRanges pDesc) < 2 ^ 32)%N)
    (Hlen : length (expectedKinds pDesc) <= length (resources dispatchDesc))
    (Hkinds : kindsMatch pDesc dispatchDesc)
    (Hlook : lookupTextures w (firstn (length (expectedKinds pDesc)) (resources dispatchDesc))
             = Done texs) :
  exists pipe infos,
    nth_error (m_pipelines w) (N.to_nat (pipelineIndex dispatchDesc)) = Some pipe
    /\ dispatch w iDesc lDesc dispatchDesc
       = Done ((if uploads pDesc dispatchDesc then uploadConstants w dispatchDesc else [])
               ++ dispatchCmds pipe w dispatchDesc
                    (map (fun kt => barrierOf (fst kt) (snd kt))
                       (combine (expectedKinds pDesc) texs))
                    (expectedWrites w iDesc lDesc pDesc) infos)
    /\ firstn (length texs) infos = map imageInfoOf texs
    /\ length texs = length (expectedKinds pDesc)
    /\ m_resourcesSetIndex w = 0%N.
Proof.
  exact (dispatch_shape pDesc texs Hw Hpipe Hshared Hfit Hlen Hkinds Hlook).
Qed.

End Dispatch.

End RecordFacts.

(** ** NRDWrapper: layouts, the sequence of dispatches and the formats *)

Module LayoutFacts.

Import NRDWrapper NRDLayout PoolFacts DispatchFacts RecordFacts.
Local Open Scope nat_scope.

Lemma resourceWrites_keys (lDesc : SPIRVBindingOffsets) (rSet : N)
    (ranges : list ResourceRangeDesc) :
  Forall (fun r => baseRegisterIndex r = 0%N) ranges ->
  forall n,
    map writeKey (resourceWrites lDesc ranges n)
    = map bindingKey (flat_map (rangeBindings lDesc rSet) ranges).
Proof.
  induction 1 as [|r ranges Hr _ IH]; intros n; [reflexivity|].
  cbn [resourceWrites flat_map]. rewrite !map_app, IH. f_equal.
  unfold rangeBindings. rewrite !map_map. apply map_ext. intros d.
  unfold writeKey, bindingKey, rangeBaseBindingIndex, isStorage.
  cbn [dstBinding writeDescriptorType]. rewrite Hr, !N.add_0_r.
  destruct (rangeDescriptorType r); reflexivity.
Qed.

Section Dispatch.

Variable w : Wrapper.
Variable iDesc : InstanceDesc.
Variable lDesc : SPIRVBindingOffsets.
Variable dispatchDesc : DispatchDesc.

(** X19: the pushed writes and the set layout.  Under the preconditions
    of a dispatch, and when NRD's base register indices (of the samplers
    and of every resource range of the pipeline) are 0, the binding numbers
    and descriptor types of the writes that [dispatch] pushes are, up to
    their order, those of the bindings [createPipelines] put into the set
    layout of the pipeline, all of which are in set 0, the set the push
    targets.  ([dispatch] does not add the base register index of a range;
    [createPipelines] does, and does not add the one of the samplers.) *)
Theorem pushed_writes_match_layout (pDesc : PipelineDesc) (texs : list Texture)
    (Hw : pipelinesOf w iDesc)
    (Hpipe : nth_error (pipelines iDesc) (N.to_nat (pipelineIndex dispatchDesc))
             = Some pDesc)
    (Hshared : sharedSpace iDesc = true)
    (Hfit : (2 * samplersNum iDesc + 1 + totalDescriptors (resourceRanges pDesc) < 2 ^ 32)%N)
    (Hlen : length (expectedKinds pDesc) <= length (resources dispatchDesc))
    (Hkinds : kindsMatch pDesc dispatchDesc)
    (Hlook : lookupTextures w (firstn (length (expectedKinds pDesc)) (resources dispatchDesc))
             = Done texs)
    (Hbase : Forall (fun r => baseRegisterIndex r = 0%N) (resourceRanges pDesc))
    (Hsamplers : samplersBaseRegisterIndex iDesc = 0%N) :
  exists cmds layout writes infos,
    dispatch w iDesc lDesc dispatchDesc = Done cmds
    /\ In (CmdPushDescriptorSet layout 0 writes infos) cmds
    /\ Permutation (map writeKey writes) (map bindingKey (layoutBindings iDesc lDesc pDesc))
    /\ Forall (fun b => layoutSet b = 0%N) (layoutBindings iDesc lDesc pDesc)
    /\ length writes = length (layoutBindings iDesc lDesc pDesc).
Proof.
  destruct (dispatch_shape w iDesc lDesc dispatchDesc pDesc texs Hw Hpipe Hshared Hfit Hlen
              Hkinds Hlook) as (pipe & infos & _ & E & _ & _ & Hset).
  unfold dispatchCmds in E. rewrite Hset in E.
  do 4 eexists. split; [exact E|]. split.
  { apply in_or_app. right. right. left. reflexivity. }
  assert (Hlb : layoutBindings iDesc lDesc pDesc
                = samplerBindings iDesc lDesc ++ constantBinding lDesc pDesc
                  ++ flat_map (rangeBindings lDesc 0%N) (resourceRanges pDesc)).
  { unfold layoutBindings, createPipelines. cbv zeta. unfold sharedSpace in Hshared.
    apply andb_true_iff in Hshared. destruct Hshared as (E1 & E2). rewrite E2. reflexivity. }
  assert (Hkeys : map writeKey (expectedWrites w iDesc lDesc pDesc)
                  = map bindingKey (flat_map (rangeBindings lDesc 0%N) (resourceRanges pDesc))
                    ++ map bindingKey (samplerBindings iDesc lDesc ++ constantBinding lDesc pDesc)).
  { unfold expectedWrites. cbv zeta. rewrite !map_app.
    rewrite (resourceWrites_keys lDesc 0%N _ Hbase). f_equal. f_equal.
    - unfold samplerWrites, samplerBindings. rewrite !map_map. apply map_ext. intros s.
      unfold writeKey, bindingKey. cbn [dstBinding writeDescriptorType binding bindingType].
      rewrite Hsamplers, N.add_0_r. reflexivity.
    - unfold constantBinding, constantBufferWrite.
      destruct (hasConstantData pDesc); reflexivity. }
  refine (conj _ (conj _ _)).
  - rewrite Hkeys, Hlb, app_assoc, (map_app bindingKey (_ ++ _)).
    apply Permutation_app_comm.
  - rewrite Hlb. apply Forall_app. split; [|apply Forall_app; split].
    + unfold samplerBindings. apply Forall_map. apply Forall_forall. reflexivity.
    + unfold constantBinding. destruct (hasConstantData pDesc); repeat constructor.
    + apply Forall_flat_map. apply Forall_forall. intros r _.
      unfold rangeBindings. apply Forall_map. apply Forall_forall. intros d _.
      destruct (rangeDescriptorType r); reflexivity.
  - rewrite <- (length_map writeKey), Hkeys, Hlb, <- (length_map bindingKey).
    rewrite !map_app, !length_app. lia.
Qed.

(** The commands of one dispatch hold one bind and one dispatch. *)
Lemma dispatch_grid (cmds : list Cmd) :
  dispatch w iDesc lDesc dispatchDesc = Done cmds ->
  gridsOf cmds = [(gridWidth dispatchDesc, gridHeight dispatchDesc, 1%N)]
  /\ exists pipe,
       nth_error (m_pipelines w) (N.to_nat (pipelineIndex dispatchDesc)) = Some pipe
       /\ boundPipelines cmds = [pipeline pipe].
Proof.
  intros H. unfold dispatch in H.
  step H. step H. step H. step H. step H. step H. destruct a4 as [l3 up].
  inversion H; subst cmds. clear H.
  assert (Hup : gridsOf up = [] /\ boundPipelines up = []).
  { destruct (hasConstantData a); [|inversion E4; split; reflexivity].
    step E4. inversion E4; subst.
    destruct (constantBufferDataMatchesPreviousDispatch dispatchDesc); split; reflexivity. }
  destruct Hup as (Hg & Hb).
  unfold gridsOf, boundPipelines in *. rewrite !flat_map_app, Hg, Hb.
  split; [reflexivity|]. exists a0. split; [|reflexivity].
  unfold index in E0. destruct (nth_error (m_pipelines w) _); inversion E0; reflexivity.
Qed.

End Dispatch.

End LayoutFacts.

Module DenoiseFacts.

Import NRDWrapper NRDLayout PoolFacts DispatchFacts RecordFacts LayoutFacts.
Local Open Scope nat_scope.

Section Denoise.

Variable w : Wrapper.
Variable iDesc : InstanceDesc.
Variable lDesc : SPIRVBindingOffsets.

Lemma denoise_app (ds1 ds2 : list DispatchDesc) :
  denoise w iDesc lDesc (ds1 ++ ds2)
  = obind (denoise w iDesc lDesc ds1) (fun c1 =>
    obind (denoise w iDesc lDesc ds2) (fun c2 => Done (c1 ++ c2))).
Proof.
  induction ds1 as [|d ds1 IH]; cbn [app denoise obind].
  - destruct (denoise w iDesc lDesc ds2); reflexivity.
  - destruct (dispatch w iDesc lDesc d) as [c| | |]; cbn [obind]; try reflexivity.
    rewrite IH. destruct (denoise w iDesc lDesc ds1) as [c1| | |]; cbn [obind]; try reflexivity.
    destruct (denoise w iDesc lDesc ds2) as [c2| | |]; cbn [obind]; try reflexivity.
    rewrite app_assoc. reflexivity.
Qed.

Lemma denoise_done (ds : list DispatchDesc) :
  forall cmds,
    denoise w iDesc lDesc ds = Done cmds ->
    exists css,
      Forall2 (fun d cs => dispatch w iDesc lDesc d = Done cs) ds css
      /\ cmds = concat css
      /\ gridsOf cmds = map (fun d => (gridWidth d, gridHeight d, 1%N)) ds
      /\ length (boundPipelines cmds) = length ds.
Proof.
  induction ds as [|d ds IH]; intros cmds H.
  - inversion H; subst. exists []. repeat split. constructor.
  - cbn [denoise] in H. step H. step H. inversion H; subst cmds. clear H.
    destruct (IH _ eq_refl) as (css & Hall & -> & Hg & Hb).
    destruct (dispatch_grid w iDesc lDesc d a E) as (Hg1 & pipe & _ & Hb1).
    exists (a :: css). split; [constructor; assumption|]. split; [reflexivity|].
    unfold gridsOf, boundPipelines in *. rewrite !flat_map_app.
    rewrite Hg1, Hg, Hb1, length_app, Hb. split; reflexivity.
Qed.

(** X20: the sequence of dispatches.  [denoise] records the commands of
    its dispatches one after the other: the commands of two lists of
    dispatches in a row are those of the first followed by those of the
    second; when it returns, every dispatch returned, the grids of the
    recorded [vkCmdDispatch] commands are the grids of the dispatch
    descriptions in their order (with depth 1), and one pipeline is bound per
    dispatch.  Without dispatches nothing is recorded, and a dispatch that
    fails ends [denoise] with its failure. *)
Theorem denoise_in_order (ds1 ds2 : list DispatchDesc) :
  denoise w iDesc lDesc (ds1 ++ ds2)
  = obind (denoise w iDesc lDesc ds1) (fun c1 =>
    obind (denoise w iDesc lDesc ds2) (fun c2 => Done (c1 ++ c2)))
  /\ (forall cmds,
        denoise w iDesc lDesc ds1 = Done cmds ->
        exists css,
          Forall2 (fun d cs => dispatch w iDesc lDesc d = Done cs) ds1 css
          /\ cmds = concat css
          /\ gridsOf cmds = map (fun d => (gridWidth d, gridHeight d, 1%N)) ds1
          /\ length (boundPipelines cmds) = length ds1)
  /\ denoise w iDesc lDesc [] = Done []
  /\ (forall d x, dispatch w iDesc lDesc d = AssertionFailed x ->
        denoise w iDesc lDesc (ds1 ++ d :: ds2)
        = match denoise w iDesc lDesc ds1 with
          | Done _ => AssertionFailed x
          | failure => failure
          end).
Proof.
  refine (conj (denoise_app ds1 ds2) (conj (denoise_done ds1) (conj eq_refl _))).
  intros d x Hd. rewrite denoise_app. cbn [denoise]. rewrite Hd. cbn [obind].
  destruct (denoise w iDesc lDesc ds1); reflexivity.
Qed.

Lemma dispatch_buffer (d : DispatchDesc) (cmds : list Cmd) :
  dispatch w iDesc lDesc d = Done cmds ->
  forall b contents,
    execCmds b contents cmds
    = if (b =? m_constantBuffer w)%N && uploadsOf iDesc d
      then updateBuffer contents (constantBufferData d) else contents.
Proof.
  intros H b contents. unfold dispatch in H.
  step H. step H. step H. step H. step H. step H. destruct a4 as [l3 up].
  inversion H; subst cmds. clear H.
  unfold uploadsOf, uploads. unfold index in E.
  destruct (nth_error (pipelines iDesc) (N.to_nat (pipelineIndex d))) as [pDesc|];
    [|discriminate E].
  inversion E; subst a. clear E.
  unfold execCmds. rewrite fold_left_app.
  destruct (hasConstantData pDesc).
  - step E4. inversion E4; subst l3 up. clear E4.
    destruct (constantBufferDataMatchesPreviousDispatch d);
      unfold uploadConstants; cbn [andb negb app fold_left execCmd].
    + rewrite andb_false_r. reflexivity.
    + rewrite N.eqb_sym, andb_true_r.
      destruct (m_constantBuffer w =? b)%N; reflexivity.
  - inversion E4; subst l3 up. cbn [andb fold_left execCmd]. rewrite andb_false_r.
    reflexivity.
Qed.

(** X24: the constant buffer across a [denoise].  When [denoise]
    returns, the recorded commands leave in the constant buffer the data of
    the last dispatch whose pipeline has constant data and whose flag does
    not say that the data matches the previous dispatch, over what the buffer
    held before; a dispatch with the flag set runs on the data uploaded
    before it.  No other buffer is written. *)
Theorem constants_persist (ds : list DispatchDesc)
    (recorded : list Cmd) (before : list N)
    (Hdone : denoise w iDesc lDesc ds = Done recorded) :
  execCmds (m_constantBuffer w) before recorded = bufferAfter iDesc ds before
  /\ (forall b, b <> m_constantBuffer w -> execCmds b before recorded = before)
  /\ (forall d1 d2, ds = [d1; d2] -> uploadsOf iDesc d1 = true -> uploadsOf iDesc d2 = false ->
        execCmds (m_constantBuffer w) before recorded
        = updateBuffer before (constantBufferData d1)).
Proof.
  assert (Hall : forall b c,
             execCmds b c recorded
             = fold_left (fun c d => if (b =? m_constantBuffer w)%N && uploadsOf iDesc d
                                     then updateBuffer c (constantBufferData d) else c) ds c).
  { revert recorded Hdone. induction ds as [|d ds' IH]; intros recorded Hdone b c.
    - inversion Hdone. reflexivity.
    - cbn [denoise] in Hdone. step Hdone. step Hdone. inversion Hdone; subst recorded.
      unfold execCmds. rewrite fold_left_app. fold (execCmds b c a).
      rewrite (dispatch_buffer d a E b c). cbn [fold_left].
      apply (IH a0 eq_refl). }
  refine (conj _ (conj _ _)).
  - rewrite Hall, N.eqb_refl. reflexivity.
  - intros b Hb. rewrite Hall. apply N.eqb_neq in Hb. rewrite Hb.
    clear. generalize before. induction ds as [|d ds' IH]; intros c; [reflexivity|].
    cbn [fold_left andb]. apply IH.
  - intros d1 d2 -> H1 H2. rewrite Hall, N.eqb_refl. cbn [fold_left andb].
    rewrite H1, H2. reflexivity.
Qed.

End Denoise.

Lemma table_NoDup : NoDup g_NRDFormatToVkFormat.
Proof.
  unfold g_NRDFormatToVkFormat.
  repeat (constructor; [cbn [In]; intuition discriminate|]). constructor.
Qed.

Lemma table_defined : ~ In VK_FORMAT_UNDEFINED g_NRDFormatToVkFormat.
Proof. unfold g_NRDFormatToVkFormat. cbn [In]. intuition discriminate. Qed.

Lemma createTexture_outcome (d : TextureDesc) (width height : Z) (a : Allocator) :
  allocatorOk a ->
  (zeroFactor d -> createTexture d width height a = DivisionByZero)
  /\ (~ zeroFactor d -> unknownFormat d ->
      createTexture d width height a = AssertionFailed AssertFormatInTable)
  /\ (~ zeroFactor d -> ~ unknownFormat d ->
      exists t a', createTexture d width height a = Done (t, a') /\ allocatorOk a').
Proof.
  intros (Hpos & Hall).
  unfold zeroFactor, unknownFormat, createTexture, DivideRoundUp, NRDtoVKFormat.
  refine (conj _ (conj _ _)).
  - intros H. rewrite H. reflexivity.
  - intros Hz H. apply Z.eqb_neq in Hz. rewrite Hz. cbn [obind].
    apply nth_error_None in H. rewrite H. reflexivity.
  - intros Hz H. apply Z.eqb_neq in Hz. rewrite Hz. cbn [obind].
    destruct (nth_error g_NRDFormatToVkFormat (N.to_nat (format d))) as [fmt|] eqn:En;
      [|apply nth_error_None in En; lia].
    cbn [obind createImage createImageView nextHandle created].
    assert (E0 : (nextHandle a =? 0)%N = false) by (apply N.eqb_neq; lia).
    assert (E1 : (nextHandle a + 1 =? 0)%N = false) by (apply N.eqb_neq; lia).
    rewrite E0, E1. cbn [negb andb assert obind].
    do 2 eexists. split; [reflexivity|].
    unfold allocatorOk. cbn [created nextHandle]. split; [lia|]. apply Forall_app. split.
    + eapply Forall_impl; [|exact Hall]. intros r Hr. cbv beta in Hr. lia.
    + constructor; [cbn [fst]; lia|constructor].
Qed.

Lemma unknownFormat_dec (d : TextureDesc) : unknownFormat d \/ ~ unknownFormat d.
Proof. unfold unknownFormat. lia. Qed.

Lemma zeroFactor_dec (d : TextureDesc) : zeroFactor d \/ ~ zeroFactor d.
Proof. unfold zeroFactor. lia. Qed.

Lemma createPool_length (width height : Z) (pool : list TextureDesc) :
  forall a ts a', createPool pool width height a = Done (ts, a') -> length ts = length pool.
Proof.
  induction pool as [|d pool IH]; intros a ts a' H; cbn [createPool] in H.
  - inversion H. reflexivity.
  - step H. destruct a0 as [t a1]. step H. destruct a0 as [ts' a2].
    inversion H; subst. cbn [length]. f_equal. exact (IH _ _ _ E0).
Qed.

(** Every descriptor has a factor that is not 0 and a known format. *)
Lemma createPool_created (width height : Z) (pool : list TextureDesc) :
  forall a, allocatorOk a ->
    Forall (fun d => ~ zeroFactor d /\ ~ unknownFormat d) pool ->
    exists ts a', createPool pool width height a = Done (ts, a') /\ allocatorOk a'.
Proof.
  induction pool as [|d pool IH]; intros a Ha HF.
  - exists [], a. auto.
  - inversion HF as [|? ? (Hz & Hk) HF']; subst.
    destruct (createTexture_outcome d width height a Ha) as (_ & _ & Hgood).
    destruct (Hgood Hz Hk) as (t & a1 & E & Ha1).
    destruct (IH a1 Ha1 HF') as (ts & a2 & E2 & Ha2).
    cbn [createPool]. rewrite E. cbn [obind]. rewrite E2. cbn [obind].
    exists (t :: ts), a2. auto.
Qed.

(** No factor is 0 and some format is unknown. *)
Lemma createPool_unknown (width height : Z) (pool : list TextureDesc) :
  forall a, allocatorOk a ->
    Forall (fun d => ~ zeroFactor d) pool -> Exists unknownFormat pool ->
    createPool pool width height a = AssertionFailed AssertFormatInTable.
Proof.
  induction pool as [|d pool IH]; intros a Ha HF HE; [inversion HE|].
  inversion HF as [|? ? Hz HF']; subst.
  destruct (createTexture_outcome d width height a Ha) as (_ & Hbad & Hgood).
  cbn [createPool]. destruct (unknownFormat_dec d) as [Hu|Hk].
  - rewrite (Hbad Hz Hu). reflexivity.
  - destruct (Hgood Hz Hk) as (t & a1 & E & Ha1). rewrite E. cbn [obind].
    inversion HE as [? ? H1|? ? H1]; subst; [contradiction|].
    rewrite (IH a1 Ha1 HF' H1). reflexivity.
Qed.

(** Some factor is 0. *)
Lemma createPool_zero (width height : Z) (pool : list TextureDesc) :
  forall a, allocatorOk a -> Exists zeroFactor pool ->
    (forall r, createPool pool width height a <> Done r)
    /\ (~ Exists unknownFormat pool -> createPool pool width height a = DivisionByZero).
Proof.
  induction pool as [|d pool IH]; intros a Ha HE; [inversion HE|].
  destruct (createTexture_outcome d width height a Ha) as (Hzero & Hbad & Hgood).
  cbn [createPool]. destruct (zeroFactor_dec d) as [Hz|Hz].
  - rewrite (Hzero Hz). cbn [obind]. split; [discriminate|reflexivity].
  - inversion HE as [? ? H1|? ? H1]; subst; [contradiction|].
    destruct (unknownFormat_dec d) as [Hu|Hk].
    + rewrite (Hbad Hz Hu). cbn [obind]. split; [discriminate|].
      intros H. exfalso. apply H. left. exact Hu.
    + destruct (Hgood Hz Hk) as (t & a1 & E & Ha1). rewrite E. cbn [obind].
      destruct (IH a1 Ha1 H1) as (Hnot & Hdiv). split.
      * intros r. destruct (createPool pool width height a1) as [[ts a2]| | |] eqn:E2;
          cbn [obind]; try discriminate.
        exfalso. exact (Hnot _ eq_refl).
      * intros H. rewrite Hdiv; [reflexivity|]. intros H2. apply H. right. exact H2.
Qed.

Lemma createPool_app (width height : Z) (p1 p2 : list TextureDesc) :
  forall a,
    createPool (p1 ++ p2) width height a
    = obind (createPool p1 width height a) (fun '(t1, a1) =>
      obind (createPool p2 width height a1) (fun '(t2, a2) => Done (t1 ++ t2, a2))).
Proof.
  induction p1 as [|d p1 IH]; intros a; cbn [app createPool obind].
  - destruct (createPool p2 width height a) as [[t2 a2]| | |]; reflexivity.
  - destruct (createTexture d width height a) as [[t a1]| | |]; cbn [obind]; try reflexivity.
    rewrite IH.
    destruct (createPool p1 width height a1) as [[t1 a2]| | |]; cbn [obind]; try reflexivity.
    destruct (createPool p2 width height a2) as [[t2 a3]| | |]; reflexivity.
Qed.

(** The constructor returns when its two pools are created, and fails as
    the first of them that fails. *)
Lemma construct_pools (iDesc : InstanceDesc) (width height : Z)
    (userTexturePool : N -> Texture) (a : Allocator) :
  let pools := createPool (permanentPool iDesc ++ transientPool iDesc) width height a in
  let built := construct iDesc width height userTexturePool a in
  (forall r, pools = Done r ->
     exists wr a' cmds,
       built = Done (wr, a', cmds)
       /\ length (m_permanentTextures wr) = length (permanentPool iDesc)
       /\ length (m_transientTextures wr) = length (transientPool iDesc))
  /\ (forall x, pools = AssertionFailed x -> built = AssertionFailed x)
  /\ (pools = DivisionByZero -> built = DivisionByZero)
  /\ (forall r, built = Done r -> exists r', pools = Done r').
Proof.
  cbv zeta. rewrite createPool_app. unfold construct.
  destruct (createPool (permanentPool iDesc) width height a) as [[perm a1]| | |] eqn:E1;
    cbn [obind];
    [|repeat split; intros; try discriminate; congruence ..].
  destruct (createPool (transientPool iDesc) width height a1) as [[trans a2]| | |] eqn:E2;
    cbn [obind];
    [|repeat split; intros; try discriminate; congruence ..].
  destruct (createPipelines iDesc (nextHandle a2 + 1)%N) as [[[cb ss] rs] ps] eqn:Ep.
  cbn [created nextHandle]. rewrite Ep.
  refine (conj _ (conj _ (conj _ _))); try discriminate.
  - intros r _. do 3 eexists. split; [reflexivity|].
    cbn [m_permanentTextures m_transientTextures].
    split; eapply createPool_length; eassumption.
  - intros r _. eexists. reflexivity.
Qed.

(** X21: the formats.  The table translates each of the 44 formats of
    NRD's enumeration to a Vulkan format that is defined, no two to the same
    one; for a format outside the enumeration the assertion of
    [NRDtoVKFormat] fails.  For pool descriptors whose downsample factors
    are 16-bit numbers that are not 0, the constructor creates its textures
    when every descriptor has a format of the enumeration, and otherwise
    stops at that assertion before any command is submitted.  A descriptor
    with the downsample factor 0 makes [createTexture] divide by zero, before
    it looks at the format: the constructor does not return then, and when
    the formats are known the division by zero is what ends it. *)
Theorem formats_translate (iDesc : InstanceDesc) (width height : Z)
    (userTexturePool : N -> Texture) (a : Allocator) (Ha : allocatorOk a) :
  let pools := permanentPool iDesc ++ transientPool iDesc in
  let built := construct iDesc width height userTexturePool a in
  (forall f, (f < 44)%N ->
     exists v, NRDtoVKFormat f = Done v /\ v <> VK_FORMAT_UNDEFINED)
  /\ (forall f, (44 <= f)%N -> NRDtoVKFormat f = AssertionFailed AssertFormatInTable)
  /\ (forall f g v, NRDtoVKFormat f = Done v -> NRDtoVKFormat g = Done v -> f = g)
  /\ (Forall positiveFactor pools -> Exists unknownFormat pools ->
      built = AssertionFailed AssertFormatInTable)
  /\ (Forall positiveFactor pools -> ~ Exists unknownFormat pools ->
      exists wr a' cmds,
        built = Done (wr, a', cmds)
        /\ length (m_permanentTextures wr) = length (permanentPool iDesc)
        /\ length (m_transientTextures wr) = length (transientPool iDesc))
  /\ (Exists zeroFactor pools -> forall r, built <> Done r)
  /\ (Exists zeroFactor pools -> ~ Exists unknownFormat pools -> built = DivisionByZero)
  /\ (forall d, zeroFactor d -> createTexture d width height a = DivisionByZero).
Proof.
  cbv zeta.
  assert (Hlen : length g_NRDFormatToVkFormat = 44) by reflexivity.
  destruct (construct_pools iDesc width height userTexturePool a)
    as (Hdone & Hfail & Hdiv & Hback).
  assert (Hnz : Forall positiveFactor (permanentPool iDesc ++ transientPool iDesc) ->
                Forall (fun d => ~ zeroFactor d)
                  (permanentPool iDesc ++ transientPool iDesc)).
  { intros H. eapply Forall_impl; [|exact H]. unfold positiveFactor, zeroFactor. intros d Hd.
    lia. }
  refine (conj _ (conj _ (conj _ (conj _ (conj _ (conj _ (conj _ _))))))).
  - intros f Hf. unfold NRDtoVKFormat.
    destruct (nth_error g_NRDFormatToVkFormat (N.to_nat f)) as [v|] eqn:E;
      [|apply nth_error_None in E; lia].
    exists v. split; [reflexivity|]. intros ->. apply nth_error_In in E.
    exact (table_defined E).
  - intros f Hf. unfold NRDtoVKFormat.
    assert (E : nth_error g_NRDFormatToVkFormat (N.to_nat f) = None)
      by (apply nth_error_None; lia).
    rewrite E. reflexivity.
  - intros f g v Hf Hg. unfold NRDtoVKFormat in Hf, Hg.
    destruct (nth_error g_NRDFormatToVkFormat (N.to_nat f)) as [vf|] eqn:Ef; [|discriminate Hf].
    destruct (nth_error g_NRDFormatToVkFormat (N.to_nat g)) as [vg|] eqn:Eg; [|discriminate Hg].
    inversion Hf; inversion Hg; subst.
    assert (Hi : (N.to_nat f < length g_NRDFormatToVkFormat))
      by (apply nth_error_Some; congruence).
    pose proof (proj1 (NoDup_nth_error g_NRDFormatToVkFormat) table_NoDup
                  (N.to_nat f) (N.to_nat g) Hi ltac:(congruence)) as E.
    lia.
  - intros HF HE. apply Hfail.
    exact (createPool_unknown width height _ a Ha (Hnz HF) HE).
  - intros HF HE.
    destruct (createPool_created width height
                (permanentPool iDesc ++ transientPool iDesc) a Ha) as (ts & a' & E & _).
    { apply Forall_forall. intros d Hin. split.
      - exact (proj1 (Forall_forall _ _) (Hnz HF) d Hin).
      - intros Hu. apply HE. apply Exists_exists. exists d. auto. }
    exact (Hdone _ E).
  - intros HE r Hr. destruct (Hback r Hr) as (r' & E).
    exact (proj1 (createPool_zero width height _ a Ha HE) r' E).
  - intros HE Hk. apply Hdiv.
    exact (proj2 (createPool_zero width height _ a Ha HE) Hk).
  - intros d Hd.
    exact (proj1 (createTexture_outcome d width height a Ha) Hd).
Qed.

End DenoiseFacts.

(** ** The theorems above on the example instances *)

Module MoreWitnesses.

Import RayCommon HostDevice Shading Shaders NrdGlsl NrdRgen Examples MoreExamples Effects Signal.
Import SignalFacts PixelFacts SurfaceFacts CompositingFacts.
Import NRDWrapper NRDLayout RecordFacts LayoutFacts DenoiseFacts.

Lemma fireflies_bounded_witness :
  luminance (removeFireflies 1 (Vec3 10 10 10)) == Qmin (luminance (Vec3 10 10 10)) 1.
Proof.
  refine (proj1 (fireflies_bounded (lib := skyLib) (scene := skyScene) exampleFrame
                   (examplePc 2) exampleUninit 1 (Vec3 10 10 10) _)).
  discriminate.
Defined.

Lemma pixel_stores_witness :
  exists st,
    stores (snd skyRun) = stores exampleState ++ st
    /\ (map fst st = skyImages \/ map fst st = surfaceImages).
Proof.
  destruct (pixel_stores (lib := skyLib) (scene := skyScene) exampleFrame (examplePc 2)
              exampleUninit 5 (0, 0)%N (4, 4)%N exampleState (snd skyRun))
    as (l & s1 & st & _ & Hst & Hc).
  - vm_compute. reflexivity.
  - exists st. split; [exact Hst|].
    destruct (hitSky l); [left|right]; apply Hc.
Defined.

Lemma alpha_selects_composition_witness :
  exists R,
    Compositing.main (lib := skyLib) exampleFrame (examplePc 2) (4, 4)%Z (0, 0)%Z
      (texelsOf (stores (snd skyRun)))
    = Some (vec4_of R 1.0).
Proof.
  destruct (alpha_selects_composition (lib := skyLib) (scene := skyScene) exampleFrame
              (examplePc 2) exampleUninit 5 (0, 0)%N (4, 4)%N exampleState (snd skyRun)
              (texelsOf (stores (snd skyRun))) (4, 4)%Z (0, 0)%Z)
    as ((l & s1 & _ & Hc) & _).
  - vm_compute. reflexivity.
  - reflexivity.
  - vm_compute. reflexivity.
  - split; reflexivity.
  - destruct (hitSky l).
    + eexists. exact Hc.
    + exact (proj2 Hc).
Defined.

Lemma mirrors_mark_the_surface_witness :
  isPsr (localsOf (psrRun mirrorScene)) = true.
Proof.
  refine (proj2 (proj1 (mirrors_mark_the_surface (lib := skyLib) (scene := mirrorScene)
                          exampleFrame (examplePc 2) exampleUninit 5 (0, 0)%N (4, 4)%N
                          exampleState (localsOf (psrRun mirrorScene))
                          (snd (psrRun mirrorScene)) _)) _).
  - vm_compute. reflexivity.
  - vm_compute. reflexivity.
Defined.

Lemma escaped_path_is_retraced_witness :
  exists pl s',
    indirectLobe (lib := skyLib) (scene := skyScene) exampleFrame (examplePc 3) exampleUninit 4
      1e6 (scatter (Vec3 0 0 1)) (splat3 0) (splat3 0) 1 exampleState
    = (Some (removeFireflies 1000
               (accumulate 2 (missContrib (lib := skyLib) (scene := skyScene) exampleFrame 1
                                (Vec3 0 0 1))
                  (splat3 1.0) (splat3 0) (vs (splat3 1) 1)), pl), s')
    /\ length (rays s') = 2%nat.
Proof.
  destruct (escaped_path_is_retraced (lib := skyLib) (scene := skyScene) exampleFrame
              (examplePc 3) exampleUninit 4 1e6 (scatter (Vec3 0 0 1)) (splat3 0) (splat3 0) 1
              exampleState) as (pl & s' & E & Hr & _).
  - discriminate.
  - reflexivity.
  - reflexivity.
  - cbn. lia.
  - exists pl, s'. split; [exact E|]. rewrite Hr. reflexivity.
Defined.

Lemma environment_sample_visibility_witness :
  fst (HdrContrib (lib := skyLib) (scene := skyScene) exampleFrame (examplePc 2) exampleUninit
         diffuseMaterial (splat3 0) (Vec3 0 0 1) exampleState)
  = (splat3 0, splat3 0).
Proof.
  refine (proj1 (environment_sample_visibility (lib := skyLib) (scene := skyScene) exampleFrame
                   (examplePc 2) exampleUninit diffuseMaterial (splat3 0) (Vec3 0 0 1)
                   exampleState _) _).
  - reflexivity.
  - vm_compute. reflexivity.
Defined.

Lemma surface_direct_lighting_witness :
  exists ud us,
    map fst (stores (snd surfaceRun))
    = surfaceImages
    /\ stores (snd surfaceRun)
       = surfaceStores (lib := skyLib) exampleFrame cameraLocals (localsOf (psrRun surfaceScene))
         ++ [(nrdUDiff, ud); (nrdUSpec, us)].
Proof.
  destruct (surface_direct_lighting (lib := skyLib) (scene := surfaceScene) exampleFrame
              (examplePc 2) exampleUninit 5 (0, 0)%N (4, 4)%N exampleState (snd surfaceRun)
              (localsOf (psrRun surfaceScene)) (snd (psrRun surfaceScene)))
    as (ud & us & dl & Hst & _).
  - vm_compute. reflexivity.
  - vm_compute. reflexivity.
  - vm_compute. reflexivity.
  - exists ud, us. split; [vm_compute; reflexivity|exact Hst].
Defined.

Lemma reconstructed_depth_witness :
  wz (mulM4V (view depthFrame)
        (vec4_of (Compositing.ReconstructViewPosition depthFrame (Vec2 (1 # 4) (3 # 4)) 5) 1.0))
  == 5.
Proof.
  apply (reconstructed_depth depthFrame (Vec2 (1 # 4) (3 # 4)) 5).
  - intros [a b c d]. unfold veq4, mulM4V, v4add, sv4. cbn.
    refine (conj _ (conj _ (conj _ _))); ring.
  - intros [a b c d]. unfold mulM4V, v4add, sv4. cbn. ring.
  - vm_compute. discriminate.
  - vm_compute. discriminate.
Defined.

Lemma example_pipelines : pipelinesOf exampleWrapper exampleInstance.
Proof. exists 10%N. vm_compute. reflexivity. Defined.

Lemma example_kinds : kindsMatch firstPipeline (exampleDispatch TEXTURE false).
Proof.
  intros i k res Hi Hres.
  destruct i as [|[|[|i]]]; cbn in Hi, Hres;
    try (destruct i; discriminate Hres); inversion Hi; inversion Hres; reflexivity.
Defined.

Lemma separate_spaces_stop_dispatch_witness :
  dispatch separateWrapper separateInstance exampleOffsets (exampleDispatch TEXTURE false)
  = AssertionFailed AssertSetsShared
  /\ numPipelineSets separateInstance = 2%N.
Proof.
  split; [|reflexivity].
  refine (proj1 (separate_spaces_stop_dispatch separateWrapper separateInstance exampleOffsets
                   (exampleDispatch TEXTURE false) firstPipeline _ _) _).
  - exists 10%N. vm_compute. reflexivity.
  - reflexivity.
  - reflexivity.
Defined.

Lemma dispatch_records_witness :
  exists pipe infos,
    dispatch exampleWrapper exampleInstance exampleOffsets (exampleDispatch TEXTURE false)
    = Done (uploadConstants exampleWrapper (exampleDispatch TEXTURE false)
            ++ dispatchCmds pipe exampleWrapper (exampleDispatch TEXTURE false)
                 [transitionToShaderRead 1003; transitionToShaderRead 1;
                  transitionToShaderWrite 7]
                 (expectedWrites exampleWrapper exampleInstance exampleOffsets firstPipeline)
                 infos).
Proof.
  destruct (dispatch_records exampleWrapper exampleInstance exampleOffsets
              (exampleDispatch TEXTURE false) firstPipeline exampleTextures)
    as (pipe & infos & _ & E & _).
  - exact example_pipelines.
  - reflexivity.
  - reflexivity.
  - vm_compute. reflexivity.
  - vm_compute. lia.
  - exact example_kinds.
  - vm_compute. reflexivity.
  - exists pipe, infos. exact E.
Defined.

Lemma pushed_writes_match_layout_witness :
  exists layout writes infos,
    In (CmdPushDescriptorSet layout 0 writes infos) exampleCommands
    /\ length writes = length (layoutBindings exampleInstance exampleOffsets firstPipeline)
    /\ map writeKey writes
       = [(200%N, VK_DESCRIPTOR_TYPE_SAMPLED_IMAGE); (201%N, VK_DESCRIPTOR_TYPE_SAMPLED_IMAGE);
          (400%N, VK_DESCRIPTOR_TYPE_STORAGE_IMAGE); (100%N, VK_DESCRIPTOR_TYPE_SAMPLER);
          (101%N, VK_DESCRIPTOR_TYPE_SAMPLER); (300%N, VK_DESCRIPTOR_TYPE_UNIFORM_BUFFER)].
Proof.
  destruct (pushed_writes_match_layout exampleWrapper exampleInstance exampleOffsets
              (exampleDispatch TEXTURE false) firstPipeline exampleTextures)
    as (cmds & layout & writes & infos & E & Hin & _ & _ & Hl).
  - exact example_pipelines.
  - reflexivity.
  - reflexivity.
  - vm_compute. reflexivity.
  - vm_compute. lia.
  - exact example_kinds.
  - vm_compute. reflexivity.
  - repeat constructor.
  - reflexivity.
  - unfold exampleCommands. rewrite E.
    exists layout, writes, infos. split; [exact Hin|]. split; [exact Hl|].
    revert E Hin. vm_compute. intros E Hin. inversion E; subst.
    repeat (destruct Hin as [Hin|Hin]; [try discriminate Hin|]).
    + inversion Hin; subst. reflexivity.
    + destruct Hin.
Defined.

Lemma formats_translate_witness :
  (exists wr a' cmds,
     construct exampleInstance 1921 1080 exampleUserPool exampleAllocator = Done (wr, a', cmds)
     /\ length (m_permanentTextures wr) = 2%nat
     /\ length (m_transientTextures wr) = 2%nat)
  /\ construct zeroFactorInstance 1921 1080 exampleUserPool exampleAllocator = DivisionByZero.
Proof.
  assert (Ha : allocatorOk exampleAllocator) by (split; [reflexivity|constructor]).
  assert (Hknown : forall pool,
             Forall (fun d => (N.to_nat (format d) < 44)%nat) pool ->
             ~ Exists unknownFormat pool).
  { intros pool HF HE. apply Exists_exists in HE. destruct HE as (d & Hin & Hd).
    pose proof (proj1 (Forall_forall _ _) HF d Hin) as Hlt. cbv beta in Hlt.
    unfold unknownFormat in Hd. change (length g_NRDFormatToVkFormat) with 44%nat in Hd.
    lia. }
  split.
  - refine (proj1 (proj2 (proj2 (proj2 (proj2
              (formats_translate exampleInstance 1921 1080 exampleUserPool exampleAllocator
                 Ha))))) _ _).
    + repeat constructor.
    + apply Hknown. repeat constructor.
  - refine (proj1 (proj2 (proj2 (proj2 (proj2 (proj2 (proj2
              (formats_translate zeroFactorInstance 1921 1080 exampleUserPool exampleAllocator
                 Ha))))))) _ _).
    + apply Exists_exists. exists (mkTextureDesc 17 0). split; [|reflexivity].
      right. right. right. left. reflexivity.
    + apply Hknown. repeat constructor.
Defined.

Lemma constants_persist_witness :
  execCmds (m_constantBuffer exampleWrapper) [7; 7; 7; 7; 7; 7]%N exampleDenoise
  = updateBuffer [7; 7; 7; 7; 7; 7]%N (constantBufferData (exampleDispatch TEXTURE false)).
Proof.
  refine (proj2 (proj2 (constants_persist exampleWrapper exampleInstance exampleOffsets
                          [exampleDispatch TEXTURE false; exampleDispatch TEXTURE true]
                          exampleDenoise [7; 7; 7; 7; 7; 7]%N _))
            (exampleDispatch TEXTURE false) (exampleDispatch TEXTURE true) eq_refl _ _);
    vm_compute; reflexivity.
Defined.

End MoreWitnesses.
